(** * rehype-mermaid-cli: a shallow embedding of [src/index.ts]

    The plugin walks a hast document, finds the [code] elements tagged
    [language-mermaid], renders each one per theme through the Mermaid CLI
    (with an on-disk cache in the temporary directory) and overwrites the
    block, or the [pre] element around it, by a wrapper [div] holding one
    [div] per theme.

    The document is a graph of JavaScript objects that the plugin mutates
    through references captured while walking it, so it is modelled as a
    store from locations to nodes.  Objects built by the plugin (the
    wrapper and what the markup parser returns) are plain values until the
    moment they are assigned into the document.  The file system is a
    finite map from paths to contents.  The libraries the plugin calls
    (md5, [os.tmpdir], [path.join], mermaid-cli's [run], [fromHtml],
    [toText]) are variables of the sections below. *)

From Stdlib Require Import ZArith String Ascii.
From stdpp Require Import gmap strings list fin_maps.

Set Warnings "-register-all".
Local Open Scope string_scope.
Local Open Scope Z_scope.
Local Open Scope list_scope.

(** ** Data model *)

(** [type Theme = "default" | "base" | "dark" | "forest" | "neutral" | "null"] *)
Inductive Theme := Default | Base | Dark | Forest | Neutral | Null.

Definition theme_name (t : Theme) : string :=
  match t with
  | Default => "default"
  | Base => "base"
  | Dark => "dark"
  | Forest => "forest"
  | Neutral => "neutral"
  | Null => "null"
  end.

#[global] Instance Theme_eq_dec : EqDecision Theme.
Proof. solve_decision. Defined.

(** A hast property value, as far as the plugin reads or writes one: a
    string ([id], [style]) or a list of tokens ([className]). *)
Inductive propval :=
| PStr (s : string)
| PList (l : list string).

Abbreviation props := (gmap string propval).

(** Object references. *)
Abbreviation loc := nat.

(** A node of the shared document: children are references.  [properties]
    is a required field of hast's [Element], so the [?.] the source puts
    after it always goes through. *)
Inductive Node :=
| Root (children : list loc)
| Element (tagName : string) (properties : props) (children : list loc)
| Text (value : string)
| Comment (value : string)
| Doctype.

Abbreviation heap := (gmap loc Node).

(** A freshly built subtree, not yet referenced from the document. *)
Inductive hast :=
| HElement (tagName : string) (properties : props) (children : list hast)
| HText (value : string)
| HComment (value : string).

(** [t.properties[key]] and [t.children] of a built node. *)
Definition hprop (key : string) (t : hast) : option propval :=
  match t with
  | HElement _ properties _ => properties !! key
  | _ => None
  end.

Definition hchildren (t : hast) : list hast :=
  match t with
  | HElement _ _ children => children
  | _ => []
  end.

(** What a call can throw. *)
Inductive error :=
| RendererError (e : string)
| ENOENT (path : string)
| TypeError (msg : string).

(** The text of an error, as [String(e)] would show it. *)
Definition error_message (e : error) : string :=
  match e with
  | RendererError m => m
  | ENOENT path => "ENOENT: no such file or directory, open '" +:+ path +:+ "'"
  | TypeError m => m
  end.

Inductive result (A : Type) :=
| Ok (a : A)
| Err (e : error).
Arguments Ok {A} a.
Arguments Err {A} e.

Definition bind {A B} (r : result A) (f : A -> result B) : result B :=
  match r with
  | Ok a => f a
  | Err e => Err e
  end.

Notation "x <- r ;; k" := (bind r (fun x => k))
  (at level 100, r at next level, right associativity).

(** [xs.map((x, index) => f)] where [f] may throw, the index counted from
    [i]: the first exception ends the loop. *)
Fixpoint mapiM {A B} (f : nat -> A -> result B) (i : nat) (l : list A)
  : result (list B) :=
  match l with
  | [] => Ok []
  | x :: l' => y <- f i x ;; ys <- mapiM f (S i) l' ;; Ok (y :: ys)
  end.

(** [a[i]] for a possibly negative [i]: [undefined] out of range. *)
Definition js_index {A} (a : list A) (i : Z) : option A :=
  if i <? 0 then None else a !! Z.to_nat i.

(** [a.indexOf(x)] on references; [None] stands for [-1]. *)
Fixpoint indexOf (x : loc) (a : list loc) : option nat :=
  match a with
  | [] => None
  | y :: a' => if decide (y = x) then Some 0%nat else S <$> indexOf x a'
  end.

(** [a.includes(x)] on strings. *)
Definition includes (x : string) (a : list string) : bool :=
  bool_decide (x ∈ a).

(** ** Ordered records: [Object.fromEntries] and [Object.entries]

    [svgByTheme] is an object keyed by theme names.  None of the six names
    is an integer index, so its own keys are enumerated in insertion order;
    assigning a key already present overwrites the value and keeps the
    key's place. *)
Fixpoint assign {V} (k : Theme) (v : V) (o : list (Theme * V)) : list (Theme * V) :=
  match o with
  | [] => [(k, v)]
  | (k', v') :: o' =>
      if decide (k' = k) then (k, v) :: o' else (k', v') :: assign k v o'
  end.

Definition fromEntries {V} (es : list (Theme * V)) : list (Theme * V) :=
  foldl (fun o e => assign e.1 e.2 o) [] es.

(** First occurrences only, in order. *)
Fixpoint dedup (l : list Theme) : list Theme :=
  match l with
  | [] => []
  | x :: l' => x :: filter (fun y => y <> x) (dedup l')
  end.

(** ** Identity hasher *)

Section Identity.
(** [createHash("md5").update(s).digest("hex")], from node's crypto. *)
Variable md5_hex : string -> string.

(** Generate a stable ID for a diagram from its text. *)
Definition getDiagramId (diagram : string) : string :=
  let hash := substring 0 8 (md5_hex diagram) in
  "mermaid-" +:+ hash.

(** Generate ID that includes theme (for caching multiple themes). *)
Definition getDiagramIdWithTheme (diagram : string) (theme : Theme) : string :=
  let hash := substring 0 8 (md5_hex diagram) in
  "mermaid-" +:+ hash +:+ "-" +:+ theme_name theme.
End Identity.

(** ** Render cache *)

Record PuppeteerConfig := {
  headless : option bool;
  args : option (list string)
}.

(** The third argument of mermaid-cli's [run], flattened. *)
Record RunOptions := {
  backgroundColor : string;
  mermaidConfig_theme : Theme;
  svgId : string;
  puppeteer_headless : bool;
  puppeteer_args : list string
}.

(** The part of the outside world a render touches: the files, and a log
    of the calls made to the external renderer. *)
Record world := {
  files : gmap string string;
  invocations : list (string * string * RunOptions)
}.

(** [fs.access(path, F_OK)] succeeds. *)
Definition exists_ (path : string) (fs : gmap string string) : bool :=
  bool_decide (is_Some (fs !! path)).

(** [fs.readFile(path, "utf8")] *)
Definition readFile (path : string) (fs : gmap string string) : result string :=
  match fs !! path with
  | Some content => Ok content
  | None => Err (ENOENT path)
  end.

(** [fs.writeFile(path, data, "utf8")] *)
Definition writeFile (path data : string) (fs : gmap string string)
  : gmap string string :=
  <[path := data]> fs.

Section RenderCache.
Variable md5_hex : string -> string.
(** [os.tmpdir()] and [path.join]. *)
Variable tmpdir : string.
Variable path_join : string -> string -> string.
(** mermaid-cli's [run(input, output, options)]: it leaves the file
    system in some state and either resolves ([None]) or rejects. *)
Variable run : string -> string -> RunOptions -> gmap string string ->
               gmap string string * option string.

Definition inputFile (diagram : string) (theme : Theme) : string :=
  path_join tmpdir (getDiagramIdWithTheme md5_hex diagram theme +:+ ".mmd").

Definition finalOutput (diagram : string) (theme : Theme) : string :=
  path_join tmpdir (getDiagramIdWithTheme md5_hex diagram theme +:+ ".svg").

Definition runOptions (diagram : string) (theme : Theme)
    (puppeteerConfig : option PuppeteerConfig) : RunOptions :=
  {| backgroundColor := "transparent";
     mermaidConfig_theme := theme;
     svgId := getDiagramIdWithTheme md5_hex diagram theme;
     puppeteer_headless := default true (puppeteerConfig ≫= headless);
     puppeteer_args := default [] (puppeteerConfig ≫= args) |}.

(** Render a Mermaid diagram to SVG using CLI. *)
Definition renderMermaidDiagram (diagram : string) (theme : Theme)
    (puppeteerConfig : option PuppeteerConfig) (w : world)
  : result string * world :=
  (* Return cached output if already exists *)
  if exists_ (finalOutput diagram theme) (files w) then
    (readFile (finalOutput diagram theme) (files w), w)
  else
    let fs1 := writeFile (inputFile diagram theme) diagram (files w) in
    let opts := runOptions diagram theme puppeteerConfig in
    let '(fs2, rejected) :=
      run (inputFile diagram theme) (finalOutput diagram theme) opts fs1 in
    let w2 := {| files := fs2;
                 invocations := invocations w ++
                   [(inputFile diagram theme, finalOutput diagram theme, opts)] |} in
    match rejected with
    | Some e => (Err (RendererError e), w2)
    | None => (readFile (finalOutput diagram theme) fs2, w2)
    end.

(** The two halves of [renderMermaidDiagram] around its first [await].
    [renderStart] is what runs at once when the function is called: the
    paths are computed and the check of l.112 is issued, on the files as
    they are then.  [renderFinish] is what runs once the check has
    answered [cached]: the read of the artifact, or the staging, the
    renderer call and the read. *)
Definition renderStart (diagram : string) (theme : Theme)
    (fs : gmap string string) : bool :=
  exists_ (finalOutput diagram theme) fs.

Definition renderFinish (diagram : string) (theme : Theme)
    (puppeteerConfig : option PuppeteerConfig) (cached : bool) (w : world)
  : result string * world :=
  if cached then
    (readFile (finalOutput diagram theme) (files w), w)
  else
    let fs1 := writeFile (inputFile diagram theme) diagram (files w) in
    let opts := runOptions diagram theme puppeteerConfig in
    let '(fs2, rejected) :=
      run (inputFile diagram theme) (finalOutput diagram theme) opts fs1 in
    let w2 := {| files := fs2;
                 invocations := invocations w ++
                   [(inputFile diagram theme, finalOutput diagram theme, opts)] |} in
    match rejected with
    | Some e => (Err (RendererError e), w2)
    | None => (readFile (finalOutput diagram theme) fs2, w2)
    end.
End RenderCache.

(** ** Tree rewriter *)

(** [node.children], for the two kinds of node that have the field. *)
Definition node_children (n : Node) : option (list loc) :=
  match n with
  | Root cs | Element _ _ cs => Some cs
  | _ => None
  end.

(** [parent.children = cs] *)
Definition set_children (n : Node) (cs : list loc) : Node :=
  match n with
  | Root _ => Root cs
  | Element tag ps _ => Element tag ps cs
  | _ => n
  end.

(** Moving a built subtree into the store: every object of it gets a
    location of its own that the store does not use yet. *)
Fixpoint alloc (t : hast) (h : heap) {struct t} : loc * heap :=
  match t with
  | HElement tag ps cs =>
      let '(ls, h1) :=
        (fix alloc_list (cs : list hast) (h : heap) {struct cs} : list loc * heap :=
           match cs with
           | [] => ([], h)
           | c :: cs' =>
               let '(l, h') := alloc c h in
               let '(ls, h'') := alloc_list cs' h' in
               (l :: ls, h'')
           end) cs h in
      let l := fresh (dom h1) in
      (l, <[l := Element tag ps ls]> h1)
  | HText v => let l := fresh (dom h) in (l, <[l := Text v]> h)
  | HComment v => let l := fresh (dom h) in (l, <[l := Comment v]> h)
  end.

(** The loop over the children inside [alloc], under a name. *)
Fixpoint alloc_list (cs : list hast) (h : heap) {struct cs} : list loc * heap :=
  match cs with
  | [] => ([], h)
  | c :: cs' =>
      let '(l, h') := alloc c h in
      let '(ls, h'') := alloc_list cs' h' in
      (l :: ls, h'')
  end.

(** The object itself, once its children have their locations. *)
Definition shallow (t : hast) (ls : list loc) : Node :=
  match t with
  | HElement tag ps _ => Element tag ps ls
  | HText v => Text v
  | HComment v => Comment v
  end.

(** The store [h] holds the built subtree [t] at [l]: same tags, properties
    and values, children in the same order. *)
Fixpoint repr (h : heap) (t : hast) (l : loc) {struct t} : Prop :=
  match t with
  | HElement tag ps cs =>
      exists ls,
        h !! l = Some (Element tag ps ls) /\
        (fix repr_list (cs : list hast) (ls : list loc) {struct cs} : Prop :=
           match cs, ls with
           | [], [] => True
           | c :: cs', l' :: ls' => repr h c l' /\ repr_list cs' ls'
           | _, _ => False
           end) cs ls
  | HText v => h !! l = Some (Text v)
  | HComment v => h !! l = Some (Comment v)
  end.

(** The loop inside [repr], under a name. *)
Definition repr_list (h : heap) : list hast -> list loc -> Prop :=
  fix repr_list (cs : list hast) (ls : list loc) {struct cs} : Prop :=
    match cs, ls with
    | [], [] => True
    | c :: cs', l' :: ls' => repr h c l' /\ repr_list cs' ls'
    | _, _ => False
    end.

(** [[...((className as string[]) || [])]]: the tokens of a class list;
    nothing when the property is missing or an empty string; spreading a
    string gives its characters. *)
Definition classTokens (className : option propval) : list string :=
  match className with
  | Some (PList l) => l
  | Some (PStr s) => (fun c => String c EmptyString) <$> list_ascii_of_string s
  | None => []
  end.

Section Rewriter.
(** [fromHtml(text, { fragment: true }).children], from hast-util-from-html. *)
Variable fromHtml : string -> list hast.

(** Parse raw SVG string into HAST children. *)
Definition parseSvg (svgContent : string) (svgClassNames : option (list string))
  : result (list hast) :=
  let tree := fromHtml svgContent in
  match tree with
  | [] => Err (TypeError "Cannot read properties of undefined (reading 'tagName')")
  | HElement tagName properties children :: rest =>
      match svgClassNames with
      | Some classes =>
          if bool_decide (tagName = "svg") && bool_decide (0 < length classes)%nat
          then Ok (HElement tagName
                     (<["className" :=
                          PList (classTokens (properties !! "className") ++ classes)]>
                        properties)
                     children :: rest)
          else Ok tree
      | None => Ok tree
      end
  | _ :: _ => Ok tree
  end.

(** The [style] of the [index]-th theme container: show first theme. *)
Definition displayStyle (index : nat) : string :=
  if decide (index = 0%nat) then "display: block;" else "display: none;".

(** One theme container, the body of the [map] callback. *)
Definition themeDiv (id : string) (svgClassNames : option (list string))
    (index : nat) (entry : Theme * string) : result hast :=
  let '(theme, svg) := entry in
  children <- parseSvg svg svgClassNames ;;
  Ok (HElement "div"
        (<["id" := PStr ("mermaid-" +:+ theme_name theme +:+ "-" +:+ id)]>
           (<["className" := PList ["mermaid"; "mermaid-" +:+ theme_name theme]]>
              (<["style" := PStr (displayStyle index)]> ∅)))
        children).

(** [Object.entries(svgByTheme).map(...)] *)
Definition themeDivs (svgByTheme : list (Theme * string)) (id : string)
    (svgClassNames : option (list string)) : result (list hast) :=
  mapiM (themeDiv id svgClassNames) 0 svgByTheme.

(** [{ className: ["mermaid-wrapper"], id }] *)
Definition wrapperProperties (id : string) : props :=
  <["className" := PList ["mermaid-wrapper"]]> (<["id" := PStr id]> ∅).

Definition wrapper (themeDivs : list hast) (id : string) : hast :=
  HElement "div" (wrapperProperties id) themeDivs.

(** Replace original node or its <pre> parent in the AST: the pair
    [(targetNode, parentNode)] after the first [if]. *)
Definition resolveTarget (h : heap) (node : loc) (ancestors : option (list loc))
  : loc * option loc :=
  let parentNode :=
    ancestors ≫= fun a => js_index a (Z.of_nat (length a) - 1) in
  match parentNode with
  | Some p =>
      match h !! p with
      | Some (Element tagName _ _) =>
          if bool_decide (tagName = "pre")
          then (p, ancestors ≫= fun a => js_index a (Z.of_nat (length a) - 2))
          else (node, parentNode)
      | _ => (node, parentNode)
      end
  | None => (node, None)
  end.

(** Where the second [if] finds the target: the splice parent, its
    children and the index; [None] when there is no parent with
    children or [indexOf] answers -1. *)
Definition locate (h : heap) (node : loc) (ancestors : option (list loc))
  : option (loc * Node * list loc * nat) :=
  let '(targetNode, parentNode) := resolveTarget h node ancestors in
  p ← parentNode;
  n ← h !! p;
  cs ← node_children n;
  index ← indexOf targetNode cs;
  Some (p, n, cs, index).

(** Replace AST node with a wrapper containing multiple theme SVGs. *)
Definition applyThemeAST (node : loc) (svgByTheme : list (Theme * string))
    (id : string) (ancestors : option (list loc))
    (svgClassNames : option (list string)) (h : heap) : result heap :=
  divs <- themeDivs svgByTheme id svgClassNames ;;
  match locate h node ancestors with
  | Some (p, n, cs, index) =>
      let '(w, h1) := alloc (wrapper divs id) h in
      Ok (<[p := set_children n (<[index := w]> cs)]> h1)
  | None => Ok h
  end.
End Rewriter.

(** ** The earlier copy of the rewriter

    The repository also holds an earlier [index.ts], with its compiled
    output and its README: it has no [svgClassNames] option, and its
    [parseSvg] gives every [svg] root the class [mx-auto]. *)
Module Legacy.
Section Rewriter.
Variable fromHtml : string -> list hast.

(** Parse raw SVG string into HAST children. *)
Definition parseSvg (svgContent : string) : result (list hast) :=
  let tree := fromHtml svgContent in
  match tree with
  | [] => Err (TypeError "Cannot read properties of undefined (reading 'tagName')")
  | HElement tagName properties children :: rest =>
      if bool_decide (tagName = "svg")
      then Ok (HElement tagName
                 (<["className" :=
                      PList (classTokens (properties !! "className") ++ ["mx-auto"])]>
                    properties)
                 children :: rest)
      else Ok tree
  | _ :: _ => Ok tree
  end.
End Rewriter.
End Legacy.

(** ** Tree walker and plugin *)

(** One entry of the [diagrams] array. *)
Record Diagram := {
  dg_diagram : string;
  dg_id : string;
  dg_node : loc;
  dg_ancestors : list loc
}.

Record RehypeMermaidOptions := {
  renderThemes : list Theme;
  svgClassNames : option (list string);
  puppeteerConfig : option PuppeteerConfig
}.

(** Default options for the plugin. *)
Definition defaultOptions : RehypeMermaidOptions :=
  {| renderThemes := [Default]; svgClassNames := None; puppeteerConfig := None |}.

(** The test of the visitor: a [code] element whose [className] is an
    array that includes ["language-mermaid"]. *)
Definition isMermaid (n : Node) : bool :=
  match n with
  | Element tagName properties _ =>
      bool_decide (tagName = "code") &&
      match properties !! "className" with
      | Some (PList className) => includes "language-mermaid" className
      | _ => false
      end
  | _ => false
  end.

(** The rejection a [Promise.all] reports is the first one. *)
Definition firstError (seen new : option error) : option error :=
  match seen with
  | Some e => Some e
  | None => new
  end.

(** ** Reachability, and what the walk may change

    [child_of h p c]: in the store [h], [c] is one of the children of [p];
    [reach h] is "descendant or self". *)
Definition child_of (h : heap) (p c : loc) : Prop :=
  exists n cs, h !! p = Some n /\ node_children n = Some cs /\ c ∈ cs.

Definition reach (h : heap) : loc -> loc -> Prop := rtc (child_of h).

(** [bounded h d l]: below [l] the store is a finite tree of depth less
    than [d], the shape of a parsed document. *)
Inductive bounded (h : heap) : nat -> loc -> Prop :=
| bounded_leaf d l :
    h !! l ≫= node_children = None -> bounded h (S d) l
| bounded_node d l cs :
    h !! l ≫= node_children = Some cs ->
    (forall c, c ∈ cs -> bounded h d c) ->
    bounded h (S d) l.

(** [n1] is [n0], or [n0] is a diagram block and [n1] is [n0] with an [id]. *)
Definition tagged (n0 n1 : Node) : Prop :=
  n1 = n0 \/
  (isMermaid n0 = true /\
   exists tag ps cs v,
     n0 = Element tag ps cs /\ n1 = Element tag (<["id" := PStr v]> ps) cs).

(** The store [h1] is [h0] up to the ids put on diagram blocks. *)
Definition upd (h0 h1 : heap) : Prop :=
  forall x, option_Forall2 tagged (h0 !! x) (h1 !! x).

(** What the walk that reaches [l] with the ancestors [anc] owes about one
    entry [d] of [diagrams]: its node is a diagram block below [l], every
    recorded ancestor has the node below it, the recorded chain is [anc]
    followed by the way down from [l] to the node, and its last entry has
    the node among its children. *)
Definition discovered (h0 : heap) (anc : list loc) (l : loc) (d : Diagram) : Prop :=
  (exists n, h0 !! dg_node d = Some n /\ isMermaid n = true) /\
  reach h0 l (dg_node d) /\
  (forall a, a ∈ dg_ancestors d -> reach h0 a (dg_node d)) /\
  (exists path, dg_ancestors d = anc ++ path /\
                head (path ++ [dg_node d]) = Some l) /\
  forall q, last (dg_ancestors d) = Some q -> child_of h0 q (dg_node d).

(** Every diagram block below [l] has an entry in [new]. *)
Definition exhaustive (h0 : heap) (l : loc) (new : list Diagram) : Prop :=
  forall x n, reach h0 l x -> h0 !! x = Some n -> isMermaid n = true ->
    exists d, d ∈ new /\ dg_node d = x.

(** The order in which the tasks of [n] diagrams go on.  Which of them is
    first depends on how long the renders take; [order] names positions in
    that order.  Whatever [order] is, every position below [n] comes up
    exactly once: a position named more than once counts where it is named
    last, a position that is not named comes after the named ones, in the
    order of the document, and a number that is no position is ignored. *)
Definition schedule (order : list nat) (n : nat) : list nat :=
  let named := remove_dups (filter (fun i => (i < n)%nat) order) in
  named ++ filter (fun i => i ∉ named) (seq 0 n).

Section Plugin.
Variable md5_hex : string -> string.
Variable tmpdir : string.
Variable path_join : string -> string -> string.
Variable run : string -> string -> RunOptions -> gmap string string ->
               gmap string string * option string.
Variable fromHtml : string -> list hast.
(** [toText(node, { whitespace: "pre" })], from hast-util-to-text. *)
Variable toText : heap -> loc -> string.

(** Find all code blocks with language-mermaid: the visitor. *)
Definition visitor (node : loc) (ancestors : list loc)
    (st : heap * list Diagram) : heap * list Diagram :=
  let '(h, diagrams) := st in
  match h !! node with
  | Some (Element tagName properties children) =>
      if isMermaid (Element tagName properties children) then
        let diagramText := toText h node in
        let id := getDiagramId md5_hex diagramText in
        (<[node := Element tagName (<["id" := PStr id]> properties) children]> h,
         (diagrams ++ [{| dg_diagram := diagramText; dg_id := id;
                          dg_node := node; dg_ancestors := ancestors |}])%list)
      else st
  | _ => st
  end.

(** [visitParents(ast, "element", visitor)]: parents before children,
    children from left to right.  [fuel] bounds the depth; a store in
    which a node is its own descendant exhausts any fuel, as the walk of
    it never ends. *)
Fixpoint visitParents (fuel : nat) (node : loc) (ancestors : list loc)
    (st : heap * list Diagram) : option (heap * list Diagram) :=
  match fuel with
  | O => None
  | S fuel' =>
      let st1 := visitor node ancestors st in
      match st1.1 !! node ≫= node_children with
      | Some children =>
          foldl (fun acc child =>
                   acc ≫= visitParents fuel' child (ancestors ++ [node])%list)
                (Some st1) children
      | None => Some st1
      end
  end.

(** What a walk of depth [fuel] guarantees, for every start, when [h0]
    is the store in which the walk of the document began. *)
Definition walk_ok (h0 : heap) (fuel : nat) : Prop :=
  forall l anc h ds h1 ds1,
    upd h0 h ->
    (forall a, a ∈ anc -> reach h0 a l) ->
    (forall q, last anc = Some q -> child_of h0 q l) ->
    visitParents fuel l anc (h, ds) = Some (h1, ds1) ->
    upd h0 h1 /\
    exists new, ds1 = ds ++ new /\
      (forall d, d ∈ new -> discovered h0 anc l d) /\ exhaustive h0 l new.

(** [options.renderThemes.map(async theme => ...)], up to the first
    [await] of each render: [map] calls the renders one after the other
    without waiting, so every check is issued before any render goes on,
    and all of them see the files [fs] as they are when the renders start.
    A theme listed twice is checked twice, with the same answer. *)
Definition startEach (diagram : string) (themes : list Theme)
    (fs : gmap string string) : list (Theme * bool) :=
  (fun theme => (theme, renderStart md5_hex tmpdir path_join diagram theme fs))
    <$> themes.

(** The rest of the renders of one diagram, each with the answer of its
    check, taken in the order of the list: every one of them runs, and the
    outcome of the [Promise.all] is the list of [[theme, svg]] pairs or the
    first failure. *)
Fixpoint finishEach (diagram : string) (started : list (Theme * bool))
    (pc : option PuppeteerConfig) (w : world)
  : result (list (Theme * string)) * world :=
  match started with
  | [] => (Ok [], w)
  | (theme, cached) :: rest =>
      let '(r, w1) :=
        renderFinish md5_hex tmpdir path_join run diagram theme pc cached w in
      let '(rs, w2) := finishEach diagram rest pc w1 in
      (svg <- r ;; entries <- rs ;; Ok ((theme, svg) :: entries), w2)
  end.

(** [Promise.all(options.renderThemes.map(async theme => ...))] for one
    diagram on its own: the checks, then the rest of every render. *)
Definition renderEach (diagram : string) (themes : list Theme)
    (pc : option PuppeteerConfig) (w : world)
  : result (list (Theme * string)) * world :=
  finishEach diagram (startEach diagram themes (files w)) pc w.

(** The body of [diagrams.map(async ({ diagram, id, node, ancestors }) => ...)]
    for one diagram, from the moment its renders go on: [started] holds the
    answers of their checks. *)
Definition processDiagram (options : RehypeMermaidOptions) (d : Diagram)
    (started : list (Theme * bool)) (h : heap) (w : world)
  : option error * heap * world :=
  let '(entries, w1) :=
    finishEach (dg_diagram d) started (puppeteerConfig options) w in
  match entries with
  | Ok es =>
      let svgByTheme := fromEntries es in
      match applyThemeAST fromHtml (dg_node d) svgByTheme (dg_id d)
              (Some (dg_ancestors d)) (svgClassNames options) h with
      | Ok h1 => (None, h1, w1)
      | Err e => (Some e, h, w1)
      end
  | Err e => (Some e, h, w1)
  end.

(** The tasks of [tasks], one after the other; the rejection the outer
    [Promise.all] reports is the first one. *)
Definition runTasks (options : RehypeMermaidOptions)
    (tasks : list (Diagram * list (Theme * bool)))
    (st : option error * heap * world) : option error * heap * world :=
  foldl (fun '(seen, h, w) '(d, started) =>
           let '(e, h', w') := processDiagram options d started h w in
           (firstError seen e, h', w'))
        st tasks.

(** The transformer returned by the plugin.  [diagrams.map] starts the
    task of every diagram, and with it every render, before anything is
    awaited: all the checks see the files of [w].  From there the tasks go
    on in the order [schedule order (length diagrams)], each of them once.
    The answer is [None] when the walk does not end within [fuel], else
    the first rejection if any, the document and the outside world. *)
Definition rehypeMermaidCLI (_options : option RehypeMermaidOptions)
    (fuel : nat) (order : list nat) (ast : loc) (h : heap) (w : world)
  : option (option error * heap * world) :=
  let options := default defaultOptions _options in
  '(h1, diagrams) ← visitParents fuel ast [] (h, []);
  let tasks :=
    (fun d => (d, startEach (dg_diagram d) (renderThemes options) (files w)))
      <$> diagrams in
  Some (runTasks options
          (omap (fun i => tasks !! i) (schedule order (length tasks)))
          (None, h1, w)).
End Plugin.

(** ** A small concrete environment, used to run the model *)

Module Sample.
Definition md5_hex (s : string) : string :=
  if bool_decide (s = "graph TD; A-->B;") then "5d2f3a8c9b1e4f60718293a4b5c6d7e8"
  else "0f1e2d3c4b5a69788796a5b4c3d2e1f0".

Definition tmpdir : string := "/tmp".

Definition path_join (a b : string) : string := a +:+ "/" +:+ b.

(** A renderer that writes one [svg] element and resolves. *)
Definition run (input output : string) (o : RunOptions)
    (fs : gmap string string) : gmap string string * option string :=
  (<[output := "<svg id='" +:+ svgId o +:+ "'></svg>"]> fs, None).

(** A renderer that leaves half an artifact behind and rejects. *)
Definition run_partial (input output : string) (o : RunOptions)
    (fs : gmap string string) : gmap string string * option string :=
  (<[output := "<svg"]> fs, Some "Evaluation failed").

(** A renderer that rejects the dark theme and renders every other one. *)
Definition run_no_dark (input output : string) (o : RunOptions)
    (fs : gmap string string) : gmap string string * option string :=
  if decide (mermaidConfig_theme o = Dark) then (fs, Some "Evaluation failed")
  else run input output o fs.

(** A renderer that resolves without writing its output. *)
Definition run_silent (input output : string) (o : RunOptions)
    (fs : gmap string string) : gmap string string * option string :=
  (fs, None).

(** A markup parser that knows two texts: nothing, and markup opening an
    [svg] element with a class. *)
Definition fromHtml (text : string) : list hast :=
  if bool_decide (text = "") then []
  else [HElement "svg" (<["className" := PList ["flowchart"]]> ∅) []].

(** The text of the [Text] children of a node. *)
Definition toText (h : heap) (l : loc) : string :=
  match h !! l ≫= node_children with
  | Some cs =>
      foldr (fun c acc =>
               match h !! c with
               | Some (Text v) => v +:+ acc
               | _ => acc
               end) "" cs
  | None => ""
  end.

Definition mermaidProps : props := <["className" := PList ["language-mermaid"]]> ∅.
Definition jsProps : props := <["className" := PList ["language-javascript"]]> ∅.

(** [<pre><code class="language-mermaid">graph TD; A-->B;</code></pre>] *)
Definition doc_pre : heap :=
  <[0%nat := Root [1%nat]]>
  (<[1%nat := Element "pre" ∅ [2%nat]]>
  (<[2%nat := Element "code" mermaidProps [3%nat]]>
  (<[3%nat := Text "graph TD; A-->B;"]> ∅))).

(** [<code class="language-javascript"><code class="language-mermaid">graph TD; A-->B;</code></code>] *)
Definition doc_nested : heap :=
  <[0%nat := Root [1%nat]]>
  (<[1%nat := Element "code" jsProps [2%nat]]>
  (<[2%nat := Element "code" mermaidProps [3%nat]]>
  (<[3%nat := Text "graph TD; A-->B;"]> ∅))).

(** [<pre><code class="language-mermaid">graph TD; A-->B;</code><code class="language-mermaid">graph LR; X-->Y;</code></pre>] *)
Definition doc_shared_pre : heap :=
  <[0%nat := Root [1%nat]]>
  (<[1%nat := Element "pre" ∅ [2%nat; 4%nat]]>
  (<[2%nat := Element "code" mermaidProps [3%nat]]>
  (<[3%nat := Text "graph TD; A-->B;"]>
  (<[4%nat := Element "code" mermaidProps [5%nat]]>
  (<[5%nat := Text "graph LR; X-->Y;"]> ∅))))).

(** [<pre><code class="language-javascript">console.log('hello');</code></pre><pre><code class="language-mermaid">graph TD; A-->B;</code></pre>] *)
Definition doc_mixed : heap :=
  <[0%nat := Root [1%nat; 4%nat]]>
  (<[1%nat := Element "pre" ∅ [2%nat]]>
  (<[2%nat := Element "code" jsProps [3%nat]]>
  (<[3%nat := Text "console.log('hello');"]>
  (<[4%nat := Element "pre" ∅ [5%nat]]>
  (<[5%nat := Element "code" mermaidProps [6%nat]]>
  (<[6%nat := Text "graph TD; A-->B;"]> ∅)))))).

(** [<pre><code class="language-javascript">console.log('hello');</code><code class="language-mermaid">graph TD; A-->B;</code></pre>] *)
Definition doc_pre_two_codes : heap :=
  <[0%nat := Root [1%nat]]>
  (<[1%nat := Element "pre" ∅ [2%nat; 4%nat]]>
  (<[2%nat := Element "code" jsProps [3%nat]]>
  (<[3%nat := Text "console.log('hello');"]>
  (<[4%nat := Element "code" mermaidProps [5%nat]]>
  (<[5%nat := Text "graph TD; A-->B;"]> ∅))))).

(** Twice [<pre><code class="language-mermaid">graph TD; A-->B;</code></pre>] *)
Definition doc_twins : heap :=
  <[0%nat := Root [1%nat; 4%nat]]>
  (<[1%nat := Element "pre" ∅ [2%nat]]>
  (<[2%nat := Element "code" mermaidProps [3%nat]]>
  (<[3%nat := Text "graph TD; A-->B;"]>
  (<[4%nat := Element "pre" ∅ [5%nat]]>
  (<[5%nat := Element "code" mermaidProps [6%nat]]>
  (<[6%nat := Text "graph TD; A-->B;"]> ∅)))))).

Definition world0 : world := {| files := ∅; invocations := [] |}.

(** [doc_shared_pre] once the first of its two blocks has been rewritten
    with one theme. *)
Definition doc_shared_pre_1 : heap :=
  match applyThemeAST fromHtml 2%nat [(Default, "<svg a/>")] "mermaid-5d2f3a8c"
          (Some [0%nat; 1%nat]) None doc_shared_pre with
  | Ok h => h
  | Err _ => ∅
  end.
End Sample.

(** ** Relations used to state what the plugin keeps *)

(** Every entry of [ds] has the id computed from its own text, and its node
    is, in [h], an element carrying the id of an entry recorded for that
    node. *)
Definition ids_ok (md5_hex : string -> string) (h : heap) (ds : list Diagram) : Prop :=
  forall d, d ∈ ds ->
    dg_id d = getDiagramId md5_hex (dg_diagram d) /\
    exists tag ps cs d',
      d' ∈ ds /\ dg_node d' = dg_node d /\
      h !! dg_node d = Some (Element tag ps cs) /\
      ps !! "id" = Some (PStr (dg_id d')).

(** [n'] is [n] up to its children and, for a diagram block, an added [id]:
    same kind of node, same tag, same text. *)
Definition same_label (n n' : Node) : Prop :=
  match n, n' with
  | Root _, Root _ => True
  | Element tag ps _, Element tag' ps' _ =>
      tag' = tag /\
      (ps' = ps \/ (isMermaid n = true /\ exists v, ps' = <["id" := PStr v]> ps))
  | Text v, Text v' => v' = v
  | Comment v, Comment v' => v' = v
  | Doctype, Doctype => True
  | _, _ => False
  end.

(** [replaceable h x]: in the document [h], [x] is a diagram block, or a
    [pre] element with a diagram block among its children: the objects a
    rewrite may take out of the children of their parent. *)
Definition replaceable (h : heap) (x : loc) : bool :=
  match h !! x with
  | Some (Element tagName properties children) =>
      isMermaid (Element tagName properties children) ||
      (bool_decide (tagName = "pre") &&
       existsb (fun c => match h !! c with
                         | Some m => isMermaid m
                         | None => false
                         end) children)
  | _ => false
  end.

(** [c] is a child of [p] that no rewrite takes out. *)
Definition kept_child (h : heap) (p c : loc) : Prop :=
  child_of h p c /\ replaceable h c = false.

(** [xs] is a way down the document: each entry has the next one among
    its children. *)
Definition chain (h : heap) (xs : list loc) : Prop :=
  forall k a b, xs !! k = Some a -> xs !! S k = Some b -> child_of h a b.

(** The object the rewrite of the entry [d] looks for. *)
Definition target_of (h : heap) (d : Diagram) : loc :=
  (resolveTarget h (dg_node d) (Some (dg_ancestors d))).1.

(** [spliced h h' t p i w]: [h'] is [h] after the object [t], met first at
    index [i] of the children of [p], has been replaced there by the new
    object [w]; of what was in [h], nothing changes but the children of
    [p]. *)
Definition spliced (h h' : heap) (t p : loc) (i : nat) (w : loc) : Prop :=
  exists n cs,
    h !! p = Some n /\ node_children n = Some cs /\
    cs !! i = Some t /\ (forall j, (j < i)%nat -> cs !! j <> Some t) /\
    h !! w = None /\ is_Some (h' !! w) /\
    h' !! p = Some (set_children n (<[i := w]> cs)) /\
    forall l x, l <> p -> h !! l = Some x -> h' !! l = Some x.

(** [keeps h hc]: every object of [h] is still in [hc] with its kind, tag
    and text, and every child that is not [replaceable] is still at its
    index. *)
Definition keeps (h hc : heap) : Prop :=
  forall a n, h !! a = Some n ->
    exists n', hc !! a = Some n' /\ same_label n n' /\
      forall cs j b, node_children n = Some cs -> cs !! j = Some b ->
        replaceable h b = false ->
        exists cs', node_children n' = Some cs' /\ cs' !! j = Some b.

(** One rewrite that returns, whatever its arguments; [rtc] of it gives
    the stores that rewrites lead to. *)
Definition rewrite_step (fromHtml : string -> list hast) (h h' : heap) : Prop :=
  exists node svgByTheme id ancestors svgClassNames,
    applyThemeAST fromHtml node svgByTheme id ancestors svgClassNames h = Ok h'.

(** The objects of [L] have their children in [L]. *)
Definition closed_under_children (h : heap) (L : list loc) : bool :=
  forallb (fun p => match h !! p ≫= node_children with
                    | Some cs => forallb (fun c => bool_decide (c ∈ L)) cs
                    | None => true
                    end) L.

(** A sample document is a finite tree: by running through it. *)
Ltac bounded_sample :=
  first
    [ apply bounded_leaf; reflexivity
    | eapply bounded_node; [reflexivity|];
      let c := fresh "c" in
      let Hc := fresh "Hc" in
      intros c Hc;
      repeat (apply elem_of_cons in Hc as [->|Hc]; [bounded_sample|]);
      by apply elem_of_nil in Hc ].

(** * Properties *)

(** ** Identity hasher *)

Lemma theme_name_inj t1 t2 : theme_name t1 = theme_name t2 -> t1 = t2.
Proof. destruct t1, t2; simpl; intros H; first [reflexivity | discriminate H]. Qed.

(** C7: for one source text, two different themes get two different themed
    ids, and the themed id is a function of the source text and the theme
    alone, so that repeated calls agree. *)
Theorem getDiagramIdWithTheme_theme_sensitive
    (md5_hex : string -> string) (s : string) (t1 t2 : Theme) :
  (t1 <> t2 ->
   getDiagramIdWithTheme md5_hex s t1 <> getDiagramIdWithTheme md5_hex s t2) /\
  (t1 = t2 ->
   getDiagramIdWithTheme md5_hex s t1 = getDiagramIdWithTheme md5_hex s t2).
Proof.
  split.
  - intros Hne Heq. apply Hne, theme_name_inj.
    unfold getDiagramIdWithTheme in Heq.
    repeat apply String.app_inj in Heq. exact Heq.
  - intros ->. reflexivity.
Qed.

Lemma getDiagramIdWithTheme_theme_sensitive_witness :
  getDiagramIdWithTheme Sample.md5_hex "graph TD; A-->B;" Default
  <> getDiagramIdWithTheme Sample.md5_hex "graph TD; A-->B;" Dark.
Proof.
  apply (getDiagramIdWithTheme_theme_sensitive
           Sample.md5_hex "graph TD; A-->B;" Default Dark).
  discriminate.
Defined.

(** ** Render cache *)

Section RenderCacheFacts.
Variable md5_hex : string -> string.
Variable tmpdir : string.
Variable path_join : string -> string -> string.
Variable run : string -> string -> RunOptions -> gmap string string ->
               gmap string string * option string.

Local Abbreviation render := (renderMermaidDiagram md5_hex tmpdir path_join run).
Local Abbreviation output := (finalOutput md5_hex tmpdir path_join).
Local Abbreviation input := (inputFile md5_hex tmpdir path_join).

Lemma exists_true path fs content :
  fs !! path = Some content -> exists_ path fs = true.
Proof. intros H. apply bool_decide_eq_true. eauto. Qed.

Lemma exists_false path fs : fs !! path = None -> exists_ path fs = false.
Proof. intros H. apply bool_decide_eq_false. rewrite H. apply is_Some_None. Qed.

Lemma render_hit diagram theme pc w content :
  files w !! output diagram theme = Some content ->
  render diagram theme pc w = (Ok content, w).
Proof.
  intros H. unfold renderMermaidDiagram, readFile.
  rewrite (exists_true _ _ _ H), H. reflexivity.
Qed.

(** After a call that answered [content], the artifact is on disk. *)
Lemma render_ok_stored diagram theme pc w content w1 :
  render diagram theme pc w = (Ok content, w1) ->
  files w1 !! output diagram theme = Some content.
Proof.
  unfold renderMermaidDiagram, readFile.
  destruct (exists_ _ (files w)) eqn:Hex.
  - destruct (files w !! output diagram theme) eqn:Hf; intros [= <- <-]; exact Hf.
  - destruct (run _ _ _ _) as [fs2 [e|]]; [discriminate|]. simpl.
    destruct (fs2 !! output diagram theme) eqn:Hf; intros [= <- <-]; exact Hf.
Qed.
End RenderCacheFacts.

(** C4: when the artifact of a (source, theme) pair is already at its
    output location, [renderMermaidDiagram] answers its content as it is and
    leaves the world, the log of renderer calls included, as it was,
    whatever the renderer is; hence a second render of the same pair, right
    after one that answered [content], answers [content] again without
    calling the renderer. *)
Theorem renderMermaidDiagram_cached
    (md5_hex : string -> string) (tmpdir : string)
    (path_join : string -> string -> string)
    (run : string -> string -> RunOptions -> gmap string string ->
           gmap string string * option string)
    (diagram : string) (theme : Theme) (pc pc' : option PuppeteerConfig)
    (w : world) (content : string) :
  (files w !! finalOutput md5_hex tmpdir path_join diagram theme = Some content ->
   renderMermaidDiagram md5_hex tmpdir path_join run diagram theme pc w
   = (Ok content, w)) /\
  (forall w1,
     renderMermaidDiagram md5_hex tmpdir path_join run diagram theme pc w
     = (Ok content, w1) ->
     renderMermaidDiagram md5_hex tmpdir path_join run diagram theme pc' w1
     = (Ok content, w1)).
Proof.
  split.
  - apply render_hit.
  - intros w1 H. eapply render_hit, render_ok_stored, H.
Qed.

Lemma renderMermaidDiagram_cached_witness :
  let w1 :=
    (renderMermaidDiagram Sample.md5_hex Sample.tmpdir Sample.path_join Sample.run
       "graph TD; A-->B;" Dark None Sample.world0).2 in
  length (invocations w1) = 1%nat /\
  renderMermaidDiagram Sample.md5_hex Sample.tmpdir Sample.path_join Sample.run
    "graph TD; A-->B;" Dark None w1
  = (Ok "<svg id='mermaid-5d2f3a8c-dark'></svg>", w1).
Proof.
  split; [reflexivity|].
  apply (renderMermaidDiagram_cached Sample.md5_hex Sample.tmpdir Sample.path_join
           Sample.run "graph TD; A-->B;" Dark None None Sample.world0).
  vm_compute. reflexivity.
Defined.

(** C5, as stated, fails: with a renderer that writes half an artifact and
    rejects, the call fails with the renderer's own rejection, whose text
    mentions neither the themed id nor the theme, the half artifact stays at
    the output location, and the next render of the pair returns it as a
    cache hit. *)
Lemma renderMermaidDiagram_failure_counterexample :
  let render :=
    renderMermaidDiagram Sample.md5_hex Sample.tmpdir Sample.path_join
      Sample.run_partial "graph TD; A-->B;" Dark None in
  let w1 := (render Sample.world0).2 in
  (render Sample.world0).1 = Err (RendererError "Evaluation failed") /\
  index 0 (getDiagramIdWithTheme Sample.md5_hex "graph TD; A-->B;" Dark)
    (error_message (RendererError "Evaluation failed")) = None /\
  index 0 (getDiagramId Sample.md5_hex "graph TD; A-->B;")
    (error_message (RendererError "Evaluation failed")) = None /\
  index 0 (theme_name Dark)
    (error_message (RendererError "Evaluation failed")) = None /\
  files w1 !! "/tmp/mermaid-5d2f3a8c-dark.svg" = Some "<svg" /\
  render w1 = (Ok "<svg", w1).
Proof. vm_compute. repeat split. Qed.

(** C5, amended: on a cache miss the source is staged and the renderer is
    called once; if the renderer rejects, the call fails with that rejection
    unchanged; if it resolves and there is no file at the output location,
    the call fails with the read error of that location, whose path is
    built from the themed id; either way the files are left exactly as the
    renderer left them. *)
Theorem renderMermaidDiagram_failure
    (md5_hex : string -> string) (tmpdir : string)
    (path_join : string -> string -> string)
    (run : string -> string -> RunOptions -> gmap string string ->
           gmap string string * option string)
    (diagram : string) (theme : Theme) (pc : option PuppeteerConfig)
    (w : world) (fs2 : gmap string string) (rejected : option string) :
  let input := inputFile md5_hex tmpdir path_join diagram theme in
  let output := finalOutput md5_hex tmpdir path_join diagram theme in
  let opts := runOptions md5_hex diagram theme pc in
  let w2 := {| files := fs2;
               invocations := invocations w ++ [(input, output, opts)] |} in
  files w !! output = None ->
  run input output opts (writeFile input diagram (files w)) = (fs2, rejected) ->
  output = path_join tmpdir
             (getDiagramIdWithTheme md5_hex diagram theme +:+ ".svg") /\
  (forall e, rejected = Some e ->
     renderMermaidDiagram md5_hex tmpdir path_join run diagram theme pc w
     = (Err (RendererError e), w2)) /\
  (rejected = None -> fs2 !! output = None ->
     renderMermaidDiagram md5_hex tmpdir path_join run diagram theme pc w
     = (Err (ENOENT output), w2)).
Proof.
  intros input output opts w2 Hmiss Hrun.
  subst input output opts w2.
  split; [reflexivity|].
  unfold renderMermaidDiagram.
  rewrite (exists_false _ _ Hmiss), Hrun.
  split.
  - intros e ->. reflexivity.
  - intros -> Hno. unfold readFile. rewrite Hno. reflexivity.
Qed.

Lemma renderMermaidDiagram_failure_witness :
  renderMermaidDiagram Sample.md5_hex Sample.tmpdir Sample.path_join
    Sample.run_silent "graph TD; A-->B;" Dark None Sample.world0
  = (Err (ENOENT "/tmp/mermaid-5d2f3a8c-dark.svg"),
     {| files := <["/tmp/mermaid-5d2f3a8c-dark.mmd" := "graph TD; A-->B;"]> ∅;
        invocations :=
          [("/tmp/mermaid-5d2f3a8c-dark.mmd", "/tmp/mermaid-5d2f3a8c-dark.svg",
            runOptions Sample.md5_hex "graph TD; A-->B;" Dark None)] |}).
Proof.
  apply (renderMermaidDiagram_failure Sample.md5_hex Sample.tmpdir
           Sample.path_join Sample.run_silent "graph TD; A-->B;" Dark None
           Sample.world0
           (<["/tmp/mermaid-5d2f3a8c-dark.mmd" := "graph TD; A-->B;"]> ∅) None).
  - reflexivity.
  - reflexivity.
  - reflexivity.
  - vm_compute. reflexivity.
Defined.

(** ** Markup parsing and theme containers *)

Section RewriterFacts.
Variable fromHtml : string -> list hast.

Lemma parseSvg_ok svg cls :
  fromHtml svg <> [] -> exists children, parseSvg fromHtml svg cls = Ok children.
Proof.
  intros Hne. unfold parseSvg.
  destruct (fromHtml svg) as [|[tag ps cs| |] rest]; [done| |eauto..].
  destruct cls as [classes|]; [|eauto].
  destruct (_ && _); eauto.
Qed.

Lemma themeDiv_ok id cls index theme svg :
  fromHtml svg <> [] ->
  exists d, themeDiv fromHtml id cls index (theme, svg) = Ok d /\
    hprop "id" d = Some (PStr ("mermaid-" +:+ theme_name theme +:+ "-" +:+ id)) /\
    hprop "className" d = Some (PList ["mermaid"; "mermaid-" +:+ theme_name theme]) /\
    hprop "style" d = Some (PStr (displayStyle index)).
Proof.
  intros Hne. destruct (parseSvg_ok svg cls Hne) as [children Hp].
  unfold themeDiv. rewrite Hp. simpl. eexists. split; [reflexivity|].
  simpl. repeat split.
Qed.

(** Every entry gets its container, in order, and the styles follow the
    indices. *)
Lemma mapiM_themeDiv id cls es : forall i,
  Forall (fun e => fromHtml e.2 <> []) es ->
  exists divs, mapiM (themeDiv fromHtml id cls) i es = Ok divs /\
    hprop "id" <$> divs =
      (fun e => Some (PStr ("mermaid-" +:+ theme_name e.1 +:+ "-" +:+ id))) <$> es /\
    hprop "className" <$> divs =
      (fun e => Some (PList ["mermaid"; "mermaid-" +:+ theme_name e.1])) <$> es /\
    hprop "style" <$> divs =
      (fun k => Some (PStr (displayStyle k))) <$> seq i (length es).
Proof.
  induction es as [|[theme svg] es IH]; intros i Hall.
  - exists []. repeat split.
  - apply Forall_cons in Hall as [Hne Hall].
    destruct (themeDiv_ok id cls i theme svg Hne) as (d & Hd & Hid & Hcl & Hst).
    destruct (IH (S i) Hall) as (divs & Hdivs & Hids & Hcls & Hsts).
    exists (d :: divs). cbn [mapiM]. rewrite Hd. cbn [bind]. rewrite Hdivs.
    cbn [bind]. split; [reflexivity|].
    cbn [fmap list_fmap length seq]. cbn [fmap] in Hids, Hcls, Hsts.
    rewrite Hid, Hcl, Hst, Hids, Hcls, Hsts. repeat split.
Qed.

Lemma displayStyle_hidden i : displayStyle (S i) = "display: none;".
Proof. reflexivity. Qed.
End RewriterFacts.

(** C9: when the parsed fragment starts with an [svg] element, [parseSvg]
    returns the fragment as parsed if [svgClassNames] is missing or empty,
    and otherwise returns it with the given tokens appended, in their
    order, to the class list of that element, every other property, the
    children and the rest of the fragment being as parsed. *)
Theorem parseSvg_classNames
    (fromHtml : string -> list hast) (svgContent : string)
    (svgClassNames : option (list string))
    (properties : props) (children rest : list hast) :
  fromHtml svgContent = HElement "svg" properties children :: rest ->
  (svgClassNames = None \/ svgClassNames = Some [] ->
   parseSvg fromHtml svgContent svgClassNames
   = Ok (HElement "svg" properties children :: rest)) /\
  (forall tokens, svgClassNames = Some tokens ->
   exists properties',
     parseSvg fromHtml svgContent svgClassNames
     = Ok (HElement "svg" properties' children :: rest) /\
     classTokens (properties' !! "className")
     = (classTokens (properties !! "className") ++ tokens)%list /\
     forall key, key <> "className" -> properties' !! key = properties !! key).
Proof.
  intros Hparse. unfold parseSvg. rewrite Hparse. split.
  - intros [-> | ->]; reflexivity.
  - intros [|token tokens] ->.
    + exists properties. rewrite app_nil_r. repeat split.
    + eexists. split; [reflexivity|]. split.
      * rewrite lookup_insert_eq. reflexivity.
      * intros key Hkey. rewrite lookup_insert_ne; [reflexivity|congruence].
Qed.

(** The earlier copy behaves as the current one does when it is given
    [svgClassNames = ["mx-auto"]]. *)
Lemma legacy_parseSvg_mx_auto (fromHtml : string -> list hast) (svgContent : string) :
  Legacy.parseSvg fromHtml svgContent = parseSvg fromHtml svgContent (Some ["mx-auto"]).
Proof.
  unfold Legacy.parseSvg, parseSvg.
  destruct (fromHtml svgContent) as [|[tag ps cs| |] rest]; try reflexivity.
  simpl. rewrite andb_true_r. reflexivity.
Qed.

Lemma parseSvg_classNames_witness :
  parseSvg Sample.fromHtml "<svg class='flowchart'></svg>" None
  = Ok [HElement "svg" (<["className" := PList ["flowchart"]]> ∅) []] /\
  exists properties',
    parseSvg Sample.fromHtml "<svg class='flowchart'></svg>"
      (Some ["mx-auto"; "h-auto"])
    = Ok [HElement "svg" properties' []] /\
    classTokens (properties' !! "className") = ["flowchart"; "mx-auto"; "h-auto"].
Proof.
  pose proof (parseSvg_classNames Sample.fromHtml "<svg class='flowchart'></svg>")
    as H.
  split.
  - apply (H None (<["className" := PList ["flowchart"]]> ∅) [] []);
      [reflexivity | left; reflexivity].
  - destruct (H (Some ["mx-auto"; "h-auto"])
                (<["className" := PList ["flowchart"]]> ∅) [] [] eq_refl)
      as [_ Happ].
    destruct (Happ _ eq_refl) as (properties' & Hp & Hc & _).
    exists properties'. split; [exact Hp | exact Hc].
Defined.

(** ** Ordered records *)

Lemma filter_all {A} (P : A -> Prop) `{!forall x, Decision (P x)} (l : list A) :
  Forall P l -> filter P l = l.
Proof.
  induction 1 as [|x l Hx _ IH]; [reflexivity|].
  rewrite filter_cons_True by exact Hx. by rewrite IH.
Qed.

Lemma assign_keys {V} (k : Theme) (v : V) (o : list (Theme * V)) :
  (assign k v o).*1 = if decide (k ∈ o.*1) then o.*1 else (o.*1 ++ [k])%list.
Proof.
  induction o as [|[k' v'] o IH].
  - reflexivity.
  - cbn [assign]. destruct (decide (k' = k)) as [->|Hne].
    + rewrite decide_True; [reflexivity|]. apply list_elem_of_here.
    + rewrite !fmap_cons, IH. cbn [fst].
      destruct (decide (k ∈ o.*1)) as [Hin|Hnin].
      * rewrite decide_True; [reflexivity|]. by apply list_elem_of_further.
      * rewrite decide_False; [reflexivity|].
        intros [?|?]%elem_of_cons; congruence.
Qed.

Lemma assign_values {V} (P : V -> Prop) (k : Theme) (v : V) (o : list (Theme * V)) :
  P v -> Forall (fun e => P e.2) o -> Forall (fun e => P e.2) (assign k v o).
Proof.
  intros Hv. induction 1 as [|[k' v'] o Hx Ho IH]; simpl.
  - by repeat constructor.
  - destruct (decide (k' = k)); constructor; done.
Qed.

Lemma foldl_assign_keys {V} (es acc : list (Theme * V)) :
  (foldl (fun o e => assign e.1 e.2 o) acc es).*1
  = (acc.*1 ++ filter (fun y => y ∉ acc.*1) (dedup es.*1))%list.
Proof.
  revert acc. induction es as [|[k v] es IH]; intros acc; simpl.
  - by rewrite app_nil_r.
  - rewrite IH, assign_keys. destruct (decide (k ∈ acc.*1)) as [Hin|Hnin].
    + rewrite filter_cons_False by (intros Hn; exact (Hn Hin)).
      f_equal. symmetry. apply list_filter_filter_l. congruence.
    + rewrite filter_cons_True by exact Hnin.
      rewrite <- app_assoc. simpl. do 2 f_equal.
      rewrite list_filter_filter. apply list_filter_iff. intros x.
      rewrite elem_of_app, list_elem_of_singleton. tauto.
Qed.

(** The keys of [Object.fromEntries(es)] are the first occurrences of the
    keys of [es], in order. *)
Lemma fromEntries_keys {V} (es : list (Theme * V)) :
  (fromEntries es).*1 = dedup es.*1.
Proof.
  unfold fromEntries. rewrite foldl_assign_keys. simpl.
  apply filter_all, Forall_forall. intros x _. apply not_elem_of_nil.
Qed.

Lemma fromEntries_values {V} (P : V -> Prop) (es : list (Theme * V)) :
  Forall (fun e => P e.2) es -> Forall (fun e => P e.2) (fromEntries es).
Proof.
  unfold fromEntries. intros Hes.
  assert (Hacc : Forall (fun e : Theme * V => P e.2) []) by constructor.
  revert Hacc. generalize (@nil (Theme * V)).
  induction Hes as [|[k v] es Hv _ IH]; intros acc Hacc; simpl; [exact Hacc|].
  apply IH. by apply assign_values.
Qed.

Lemma dedup_NoDup (l : list Theme) : NoDup l -> dedup l = l.
Proof.
  induction 1 as [|x l Hx _ IH]; simpl; [reflexivity|].
  rewrite IH. f_equal. apply filter_all, Forall_forall. congruence.
Qed.

Lemma zip_values {A B} (P : B -> Prop) (l : list A) (k : list B) :
  Forall P k -> Forall (fun e => P e.2) (zip l k).
Proof.
  intros Hk. revert l. induction Hk as [|y k Hy _ IH]; intros [|x l]; simpl;
    constructor; [exact Hy | apply IH].
Qed.

(** C1: for a nonempty theme list whose artifacts each parse to a nonempty
    fragment, the wrapper holds the theme containers of the distinct themes
    in the order in which the list first names them (the list itself when it
    repeats no theme); the first container belongs to the first entry of the
    list and has style [display: block;], and every other container has
    style [display: none;]. *)
Theorem themeDivs_first_visible
    (fromHtml : string -> list hast) (themes : list Theme) (svgs : list string)
    (id : string) (svgClassNames : option (list string)) (first : Theme) :
  head themes = Some first ->
  length svgs = length themes ->
  Forall (fun svg => fromHtml svg <> []) svgs ->
  exists shown others,
    themeDivs fromHtml (fromEntries (zip themes svgs)) id svgClassNames
    = Ok (shown :: others) /\
    hchildren (wrapper (shown :: others) id) = shown :: others /\
    hprop "id" <$> (shown :: others)
    = (fun t => Some (PStr ("mermaid-" +:+ theme_name t +:+ "-" +:+ id)))
        <$> dedup themes /\
    (NoDup themes -> dedup themes = themes) /\
    hprop "id" shown = Some (PStr ("mermaid-" +:+ theme_name first +:+ "-" +:+ id)) /\
    hprop "style" shown = Some (PStr "display: block;") /\
    Forall (fun d => hprop "style" d = Some (PStr "display: none;")) others.
Proof.
  intros Hfirst Hlen Hparse.
  pose proof (fromEntries_values (fun svg => fromHtml svg <> []) (zip themes svgs)
                (zip_values _ themes svgs Hparse)) as Hvals.
  destruct (mapiM_themeDiv fromHtml id svgClassNames _ 0 Hvals)
    as (divs & Hdivs & Hids & _ & Hstyles).
  assert (Hkeys : (fromEntries (zip themes svgs)).*1 = dedup themes).
  { rewrite fromEntries_keys, fst_zip; [reflexivity | lia]. }
  assert (Hids' : hprop "id" <$> divs
                  = (fun t => Some (PStr ("mermaid-" +:+ theme_name t +:+ "-" +:+ id)))
                      <$> dedup themes).
  { rewrite Hids, <- Hkeys, <- list_fmap_compose. reflexivity. }
  assert (Hn : length (fromEntries (zip themes svgs)) = length (dedup themes)).
  { rewrite <- Hkeys. by rewrite length_fmap. }
  rewrite Hn in Hstyles.
  destruct themes as [|t themes]; [discriminate|]. injection Hfirst as ->.
  destruct divs as [|shown others]; [discriminate Hids'|].
  exists shown, others. unfold themeDivs.
  split; [exact Hdivs|]. split; [reflexivity|]. split; [exact Hids'|].
  split; [apply dedup_NoDup|].
  cbn [dedup fmap list_fmap length seq] in Hids', Hstyles.
  injection Hids' as Hid _. injection Hstyles as Hshown Hothers.
  split; [exact Hid|]. split; [exact Hshown|].
  apply Forall_forall. intros d Hd.
  apply (list_elem_of_fmap_2 (hprop "style")) in Hd. cbn [fmap] in Hothers.
  rewrite Hothers in Hd.
  apply list_elem_of_fmap in Hd as (k & -> & Hk).
  apply elem_of_seq in Hk. destruct k as [|k]; [lia|]. reflexivity.
Qed.

Lemma themeDivs_first_visible_witness :
  exists shown others,
    themeDivs Sample.fromHtml
      (fromEntries (zip [Dark; Default; Dark] ["<svg a/>"; "<svg b/>"; "<svg c/>"]))
      "mermaid-5d2f3a8c" None
    = Ok (shown :: others) /\
    hprop "id" <$> (shown :: others)
    = [Some (PStr "mermaid-dark-mermaid-5d2f3a8c");
       Some (PStr "mermaid-default-mermaid-5d2f3a8c")] /\
    hprop "style" shown = Some (PStr "display: block;") /\
    Forall (fun d => hprop "style" d = Some (PStr "display: none;")) others.
Proof.
  destruct (themeDivs_first_visible Sample.fromHtml [Dark; Default; Dark]
              ["<svg a/>"; "<svg b/>"; "<svg c/>"] "mermaid-5d2f3a8c" None Dark)
    as (shown & others & Hdivs & _ & Hids & _ & _ & Hshown & Hothers).
  - reflexivity.
  - reflexivity.
  - repeat constructor; discriminate.
  - exists shown, others. repeat split; assumption.
Defined.

(** ** The store *)

Lemma hast_ind' (P : hast -> Prop) :
  (forall tag ps cs, Forall P cs -> P (HElement tag ps cs)) ->
  (forall v, P (HText v)) ->
  (forall v, P (HComment v)) ->
  forall t, P t.
Proof.
  intros He Ht Hc. fix IH 1. intros [tag ps cs|v|v]; [apply He|apply Ht|apply Hc].
  induction cs as [|c cs IHcs]; constructor; [apply IH | exact IHcs].
Qed.

Lemma alloc_element tag ps cs h :
  alloc (HElement tag ps cs) h
  = let '(ls, h1) := alloc_list cs h in
    let l := fresh (dom h1) in (l, <[l := Element tag ps ls]> h1).
Proof. reflexivity. Qed.

Lemma fresh_lookup (h : heap) : h !! fresh (dom h) = None.
Proof. apply not_elem_of_dom, is_fresh. Qed.

Lemma alloc_list_subseteq cs :
  Forall (fun c => forall h, h ⊆ (alloc c h).2) cs ->
  forall h, h ⊆ (alloc_list cs h).2.
Proof.
  induction 1 as [|c cs Hc _ IH]; intros h; simpl; [reflexivity|].
  specialize (Hc h). destruct (alloc c h) as [l h'].
  specialize (IH h'). destruct (alloc_list cs h') as [ls h''].
  simpl in *. by etrans.
Qed.

(** Allocation only adds objects. *)
Lemma alloc_subseteq t : forall h, h ⊆ (alloc t h).2.
Proof.
  induction t as [tag ps cs IH|v|v] using hast_ind'; intros h.
  - rewrite alloc_element.
    pose proof (alloc_list_subseteq cs IH h) as Hsub.
    destruct (alloc_list cs h) as [ls h1]. simpl in *.
    etrans; [exact Hsub|]. apply insert_subseteq, fresh_lookup.
  - simpl. apply insert_subseteq, fresh_lookup.
  - simpl. apply insert_subseteq, fresh_lookup.
Qed.

(** The object allocated for [t] is new, and it is [t]'s own node. *)
Lemma alloc_fresh t h :
  h !! (alloc t h).1 = None /\
  exists ls, (alloc t h).2 !! (alloc t h).1 = Some (shallow t ls).
Proof.
  destruct t as [tag ps cs|v|v].
  - rewrite alloc_element.
    pose proof (alloc_list_subseteq cs
                  (proj2 (Forall_forall _ _) (fun c _ => alloc_subseteq c)) h) as Hsub.
    destruct (alloc_list cs h) as [ls h1]. simpl in *. split.
    + destruct (h !! fresh (dom h1)) eqn:Hl; [|reflexivity].
      apply (lookup_weaken _ _ _ _ Hl) in Hsub.
      rewrite fresh_lookup in Hsub. discriminate.
    + exists ls. apply lookup_insert_eq.
  - simpl. split; [apply fresh_lookup|]. exists []. apply lookup_insert_eq.
  - simpl. split; [apply fresh_lookup|]. exists []. apply lookup_insert_eq.
Qed.

Lemma repr_element h tag ps cs l :
  repr h (HElement tag ps cs) l
  = exists ls, h !! l = Some (Element tag ps ls) /\ repr_list h cs ls.
Proof. reflexivity. Qed.

Lemma alloc_list_repr cs :
  Forall (fun c => forall h h'' : heap,
            (forall x v, h !! x = None -> (alloc c h).2 !! x = Some v ->
                         h'' !! x = Some v) ->
            repr h'' c (alloc c h).1) cs ->
  forall h h'' : heap,
    (forall x v, h !! x = None -> (alloc_list cs h).2 !! x = Some v ->
                 h'' !! x = Some v) ->
    repr_list h'' cs (alloc_list cs h).1.
Proof.
  induction 1 as [|c cs Hc Hcs IH]; intros h h'' Hnew; [exact I|].
  cbn [alloc_list] in *.
  pose proof (alloc_subseteq c h) as Hsub1. specialize (Hc h h'').
  destruct (alloc c h) as [l ha].
  pose proof (alloc_list_subseteq cs
                (proj2 (Forall_forall _ _) (fun c _ => alloc_subseteq c)) ha) as Hsub2.
  specialize (IH ha h''). destruct (alloc_list cs ha) as [ls hb].
  cbn [fst snd repr_list] in *. split.
  - apply Hc. intros x v Hx Hv. apply Hnew; [exact Hx|].
    eapply lookup_weaken; [exact Hv | exact Hsub2].
  - apply IH. intros x v Hx Hv. apply Hnew; [|exact Hv].
    destruct (h !! x) eqn:Hhx; [|reflexivity].
    apply (lookup_weaken _ _ _ _ Hhx) in Hsub1. congruence.
Qed.

(** The allocated object is the root of a copy of [t], and the copy lies
    wholly in the new part of the store. *)
Lemma alloc_repr t : forall h h'' : heap,
  (forall x v, h !! x = None -> (alloc t h).2 !! x = Some v -> h'' !! x = Some v) ->
  repr h'' t (alloc t h).1.
Proof.
  induction t as [tag ps cs IH|v|v] using hast_ind'; intros h h'' Hnew.
  - rewrite repr_element. rewrite alloc_element in *.
    pose proof (alloc_list_repr cs IH h h'') as Hlist.
    pose proof (alloc_list_subseteq cs
                  (proj2 (Forall_forall _ _) (fun c _ => alloc_subseteq c)) h) as Hsub.
    destruct (alloc_list cs h) as [ls h1]. cbn [fst snd] in *.
    assert (Hl : h !! fresh (dom h1) = None).
    { destruct (h !! fresh (dom h1)) eqn:Hhl; [|reflexivity].
      apply (lookup_weaken _ _ _ _ Hhl) in Hsub.
      rewrite fresh_lookup in Hsub. discriminate. }
    exists ls. split.
    + apply Hnew; [exact Hl | apply lookup_insert_eq].
    + apply Hlist. intros x v Hx Hv. apply Hnew; [exact Hx|].
      rewrite lookup_insert_ne; [exact Hv|].
      intros <-. rewrite fresh_lookup in Hv. discriminate.
  - simpl in *. apply Hnew; [apply fresh_lookup | apply lookup_insert_eq].
  - simpl in *. apply Hnew; [apply fresh_lookup | apply lookup_insert_eq].
Qed.

Lemma indexOf_Some x a i :
  indexOf x a = Some i ->
  a !! i = Some x /\ forall j, (j < i)%nat -> a !! j <> Some x.
Proof.
  revert i. induction a as [|y a IH]; intros i; simpl; [discriminate|].
  destruct (decide (y = x)) as [->|Hne].
  - intros [= <-]. split; [reflexivity|]. intros j Hj. lia.
  - destruct (indexOf x a) as [k|]; [|discriminate]. intros [= <-].
    destruct (IH k eq_refl) as [Hk Hmin]. split; [exact Hk|].
    intros [|j] Hj; simpl; [congruence|]. apply Hmin. lia.
Qed.

Lemma indexOf_None x a : indexOf x a = None <-> x ∉ a.
Proof.
  induction a as [|y a IH]; simpl.
  - split; [intros _; apply not_elem_of_nil | reflexivity].
  - destruct (decide (y = x)) as [->|Hne].
    + split; [discriminate|]. intros Hn. destruct Hn. apply list_elem_of_here.
    + rewrite not_elem_of_cons, <- IH.
      destruct (indexOf x a); simpl; split; try discriminate.
      * intros [_ ?]; discriminate.
      * intros _. split; congruence.
      * reflexivity.
Qed.

(** ** Tree rewriter *)

Section ApplyThemeFacts.
Variable fromHtml : string -> list hast.

Lemma themeDivs_ok svgByTheme id cls :
  Forall (fun e => fromHtml e.2 <> []) svgByTheme ->
  exists divs, themeDivs fromHtml svgByTheme id cls = Ok divs.
Proof.
  intros Hall.
  destruct (mapiM_themeDiv fromHtml id cls svgByTheme 0 Hall) as (divs & H & _).
  exists divs. exact H.
Qed.

Lemma locate_Some h node ancestors p n cs i :
  locate h node ancestors = Some (p, n, cs, i) <->
  exists target,
    resolveTarget h node ancestors = (target, Some p) /\
    h !! p = Some n /\ node_children n = Some cs /\ indexOf target cs = Some i.
Proof.
  unfold locate. destruct (resolveTarget h node ancestors) as [target [q|]]; simpl.
  - destruct (h !! q) as [m|] eqn:Hq; simpl.
    + destruct (node_children m) as [ds|] eqn:Hm; simpl.
      * destruct (indexOf target ds) as [k|] eqn:Hk; simpl.
        -- split.
           ++ intros [= <- <- <- <-]. exists target. by rewrite Hq.
           ++ intros (t & [= <- <-] & Hn & Hcs & Hi).
              rewrite Hq in Hn. injection Hn as <-.
              rewrite Hm in Hcs. injection Hcs as <-.
              rewrite Hk in Hi. injection Hi as <-. reflexivity.
        -- split; [discriminate|].
           intros (t & [= <- <-] & Hn & Hcs & Hi). congruence.
      * split; [discriminate|].
        intros (t & [= <- <-] & Hn & Hcs & Hi). congruence.
    + split; [discriminate|].
      intros (t & [= <- <-] & Hn & Hcs & Hi). congruence.
  - split; [discriminate|]. intros (t & H & _). discriminate.
Qed.

(** The target is not among the children of the splice parent. *)
Lemma locate_miss h node ancestors target p n cs :
  resolveTarget h node ancestors = (target, Some p) ->
  h !! p = Some n -> node_children n = Some cs -> target ∉ cs ->
  locate h node ancestors = None.
Proof.
  intros Hr Hp Hn Hnot. unfold locate. rewrite Hr. simpl. rewrite Hp. simpl.
  rewrite Hn. simpl. apply indexOf_None in Hnot. rewrite Hnot. reflexivity.
Qed.

(** What a rewrite that finds its target does to the store. *)
Lemma applyThemeAST_effect node svgByTheme id ancestors cls h divs p n cs i :
  themeDivs fromHtml svgByTheme id cls = Ok divs ->
  locate h node ancestors = Some (p, n, cs, i) ->
  exists w h1 ls,
    alloc (wrapper divs id) h = (w, h1) /\
    applyThemeAST fromHtml node svgByTheme id ancestors cls h
    = Ok (<[p := set_children n (<[i := w]> cs)]> h1) /\
    h ⊆ h1 /\ h !! w = None /\
    h1 !! w = Some (Element "div" (wrapperProperties id) ls) /\
    repr (<[p := set_children n (<[i := w]> cs)]> h1) (wrapper divs id) w.
Proof.
  intros Hdivs Hloc. unfold applyThemeAST. rewrite Hdivs, Hloc. cbn [bind].
  apply locate_Some in Hloc as (target & _ & Hp & _).
  pose proof (alloc_subseteq (wrapper divs id) h) as Hsub.
  pose proof (alloc_repr (wrapper divs id) h) as Hrepr.
  destruct (alloc_fresh (wrapper divs id) h) as [Hnew [ls Hw]].
  destruct (alloc (wrapper divs id) h) as [w h1] eqn:Ha.
  exists w, h1, ls. cbn [fst snd shallow wrapper] in *.
  repeat split; try assumption.
  apply Hrepr. intros x v Hx Hv. rewrite lookup_insert_ne; [exact Hv|].
  intros <-. congruence.
Qed.

Lemma applyThemeAST_skip node svgByTheme id ancestors cls h divs :
  themeDivs fromHtml svgByTheme id cls = Ok divs ->
  locate h node ancestors = None ->
  applyThemeAST fromHtml node svgByTheme id ancestors cls h = Ok h.
Proof. intros Hdivs Hloc. unfold applyThemeAST. by rewrite Hdivs, Hloc. Qed.

(** A rewrite changes no object but the splice parent. *)
Lemma applyThemeAST_frame node svgByTheme id ancestors cls h h' l x :
  applyThemeAST fromHtml node svgByTheme id ancestors cls h = Ok h' ->
  h !! l = Some x ->
  (forall p n cs i, locate h node ancestors = Some (p, n, cs, i) -> l <> p) ->
  h' !! l = Some x.
Proof.
  intros Happ Hl Hp. unfold applyThemeAST in Happ.
  destruct (themeDivs fromHtml svgByTheme id cls) as [divs|e] eqn:Hd;
    [|discriminate]. cbn [bind] in Happ.
  destruct (locate h node ancestors) as [[[[p n] cs] i]|] eqn:Hloc.
  - pose proof (alloc_subseteq (wrapper divs id) h) as Hsub.
    destruct (alloc (wrapper divs id) h) as [w h1]. injection Happ as <-.
    rewrite lookup_insert_ne by (symmetry; eapply Hp; reflexivity).
    eapply lookup_weaken; [exact Hl | exact Hsub].
  - injection Happ as <-. exact Hl.
Qed.
End ApplyThemeFacts.

(** C2: when the target is found at index [i] of the children of the splice
    parent, the rewrite puts a new object, the root of a copy of the wrapper
    it built, at index [i], where the target was; the children keep their
    number, every other index keeps the reference it had, the parent is
    otherwise as before, and no other object that existed before is
    changed. *)
Theorem applyThemeAST_replaces_in_place
    (fromHtml : string -> list hast) (node : loc)
    (svgByTheme : list (Theme * string)) (id : string)
    (ancestors : option (list loc)) (svgClassNames : option (list string))
    (h : heap) (target p : loc) (n : Node) (cs : list loc) (i : nat) :
  Forall (fun e => fromHtml e.2 <> []) svgByTheme ->
  resolveTarget h node ancestors = (target, Some p) ->
  h !! p = Some n ->
  node_children n = Some cs ->
  indexOf target cs = Some i ->
  exists h' w divs,
    applyThemeAST fromHtml node svgByTheme id ancestors svgClassNames h = Ok h' /\
    themeDivs fromHtml svgByTheme id svgClassNames = Ok divs /\
    h !! w = None /\
    repr h' (wrapper divs id) w /\
    cs !! i = Some target /\
    h' !! p = Some (set_children n (<[i := w]> cs)) /\
    <[i := w]> cs !! i = Some w /\
    length (<[i := w]> cs) = length cs /\
    (forall j, j <> i -> <[i := w]> cs !! j = cs !! j) /\
    (forall l x, l <> p -> h !! l = Some x -> h' !! l = Some x).
Proof.
  intros Hparse Hres Hp Hn Hi.
  destruct (themeDivs_ok fromHtml svgByTheme id svgClassNames Hparse) as [divs Hd].
  assert (Hloc : locate h node ancestors = Some (p, n, cs, i)).
  { apply locate_Some. exists target. auto. }
  destruct (applyThemeAST_effect fromHtml node svgByTheme id ancestors
              svgClassNames h divs p n cs i Hd Hloc)
    as (w & h1 & ls & _ & Happ & Hsub & Hnew & _ & Hrepr).
  destruct (indexOf_Some _ _ _ Hi) as [Hat _].
  exists (<[p := set_children n (<[i := w]> cs)]> h1), w, divs.
  split; [exact Happ|]. split; [exact Hd|]. split; [exact Hnew|].
  split; [exact Hrepr|]. split; [exact Hat|]. split; [apply lookup_insert_eq|]. split.
  { apply list_lookup_insert_eq. eapply lookup_lt_Some, Hat. }
  split; [apply length_insert|]. split.
  { intros j Hj. apply list_lookup_insert_ne. congruence. }
  intros l x Hl Hx. rewrite lookup_insert_ne by congruence.
  eapply lookup_weaken; [exact Hx | exact Hsub].
Qed.

(** C6: when the target cannot be located (no splice parent, a splice
    parent without children, or [indexOf] answering -1), a rewrite whose
    artifacts parse to nonempty fragments ends without an error and leaves
    the whole store as it was. *)
Theorem applyThemeAST_splice_miss
    (fromHtml : string -> list hast) (node : loc)
    (svgByTheme : list (Theme * string)) (id : string)
    (ancestors : option (list loc)) (svgClassNames : option (list string))
    (h : heap) :
  Forall (fun e => fromHtml e.2 <> []) svgByTheme ->
  locate h node ancestors = None ->
  applyThemeAST fromHtml node svgByTheme id ancestors svgClassNames h = Ok h.
Proof.
  intros Hparse Hloc.
  destruct (themeDivs_ok fromHtml svgByTheme id svgClassNames Hparse) as [divs Hd].
  eapply applyThemeAST_skip; eassumption.
Qed.

Lemma applyThemeAST_replaces_in_place_witness :
  exists h' w divs,
    applyThemeAST Sample.fromHtml 2%nat [(Default, "<svg a/>"); (Dark, "<svg b/>")]
      "mermaid-5d2f3a8c" (Some [0%nat; 1%nat]) None Sample.doc_pre = Ok h' /\
    Sample.doc_pre !! w = None /\
    repr h' (wrapper divs "mermaid-5d2f3a8c") w /\
    Sample.doc_pre !! 0%nat = Some (Root [1%nat]) /\
    h' !! 0%nat = Some (Root [w]) /\
    h' !! 1%nat = Sample.doc_pre !! 1%nat.
Proof.
  destruct (applyThemeAST_replaces_in_place Sample.fromHtml 2%nat
              [(Default, "<svg a/>"); (Dark, "<svg b/>")] "mermaid-5d2f3a8c"
              (Some [0%nat; 1%nat]) None Sample.doc_pre
              1%nat 0%nat (Root [1%nat]) [1%nat] 0%nat)
    as (h' & w & divs & Happ & _ & Hnew & Hw & _ & Hp & _ & _ & _ & Hframe).
  - repeat constructor; discriminate.
  - reflexivity.
  - reflexivity.
  - reflexivity.
  - reflexivity.
  - exists h', w, divs. repeat split; try assumption.
    apply Hframe; [discriminate | reflexivity].
Defined.

Lemma applyThemeAST_splice_miss_witness :
  Sample.doc_shared_pre_1 !! 1%nat = Some (Element "pre" ∅ [2%nat; 4%nat]) /\
  Sample.doc_shared_pre_1 !! 0%nat = Some (Root [8%nat]) /\
  applyThemeAST Sample.fromHtml 4%nat [(Default, "<svg c/>")] "mermaid-0f1e2d3c"
    (Some [0%nat; 1%nat]) None Sample.doc_shared_pre_1
  = Ok Sample.doc_shared_pre_1.
Proof.
  split; [reflexivity|]. split; [vm_compute; reflexivity|].
  apply (applyThemeAST_splice_miss Sample.fromHtml 4%nat [(Default, "<svg c/>")]
           "mermaid-0f1e2d3c" (Some [0%nat; 1%nat]) None Sample.doc_shared_pre_1).
  - repeat constructor; discriminate.
  - vm_compute. reflexivity.
Defined.

Lemma js_index_last {A} (rest : list A) (p : A) :
  js_index (rest ++ [p]) (Z.of_nat (length (rest ++ [p])) - 1) = Some p.
Proof.
  unfold js_index. rewrite length_app. simpl.
  destruct (Z.ltb_spec (Z.of_nat (length rest + 1) - 1) 0) as [Hlt|_]; [lia|].
  replace (Z.to_nat (Z.of_nat (length rest + 1) - 1)) with (length rest) by lia.
  apply list_lookup_middle. reflexivity.
Qed.

Lemma js_index_before_last {A} (rest : list A) (p : A) :
  js_index (rest ++ [p]) (Z.of_nat (length (rest ++ [p])) - 2) = last rest.
Proof.
  unfold js_index. destruct rest as [|g rest _] using rev_ind.
  - reflexivity.
  - rewrite last_snoc, !length_app. simpl.
    destruct (Z.ltb_spec (Z.of_nat (length rest + 1 + 1) - 2) 0) as [Hlt|_]; [lia|].
    replace (Z.to_nat (Z.of_nat (length rest + 1 + 1) - 2)) with (length rest) by lia.
    rewrite <- app_assoc. apply list_lookup_middle. reflexivity.
Qed.

(** The two cases of the target resolution, for any chain ending in [p]:
    around a [pre] the target is [p] and the splice parent the ancestor
    before it, if any; otherwise the target is the node and the splice
    parent is [p]. *)
Lemma resolveTarget_cases
    (h : heap) (node : loc) (rest : list loc) (p : loc) :
  (forall ps cs, h !! p = Some (Element "pre" ps cs) ->
     resolveTarget h node (Some (rest ++ [p])) = (p, last rest) /\
     locate h node (Some (rest ++ [p]))
     = (g ← last rest; n ← h !! g; children ← node_children n;
        index ← indexOf p children; Some (g, n, children, index))) /\
  ((forall ps cs, h !! p <> Some (Element "pre" ps cs)) ->
     resolveTarget h node (Some (rest ++ [p])) = (node, Some p) /\
     locate h node (Some (rest ++ [p]))
     = (n ← h !! p; children ← node_children n;
        index ← indexOf node children; Some (p, n, children, index))).
Proof.
  assert (Hpre : forall ps cs, h !! p = Some (Element "pre" ps cs) ->
            resolveTarget h node (Some (rest ++ [p])) = (p, last rest)).
  { intros ps cs Hp. unfold resolveTarget. cbn [mbind option_bind].
    rewrite js_index_last, Hp, js_index_before_last. reflexivity. }
  assert (Hnode : (forall ps cs, h !! p <> Some (Element "pre" ps cs)) ->
            resolveTarget h node (Some (rest ++ [p])) = (node, Some p)).
  { intros Hp. unfold resolveTarget. cbn [mbind option_bind].
    rewrite js_index_last.
    destruct (h !! p) as [[|tag ps cs| | |]|] eqn:Hn; try reflexivity.
    destruct (bool_decide (tag = "pre")) eqn:Htag; [|reflexivity].
    apply bool_decide_eq_true in Htag. subst tag. destruct (Hp ps cs eq_refl). }
  split.
  - intros ps cs Hp. split; [eauto|]. unfold locate. by erewrite Hpre.
  - intros Hp. split; [eauto|]. unfold locate. by rewrite Hnode.
Qed.

Example resolveTarget_cases_run :
  resolveTarget Sample.doc_pre 2%nat (Some [0%nat; 1%nat]) = (1%nat, Some 0%nat) /\
  locate Sample.doc_pre 2%nat (Some [0%nat; 1%nat])
  = Some (0%nat, Root [1%nat], [1%nat], 0%nat) /\
  resolveTarget Sample.doc_nested 2%nat (Some [0%nat; 1%nat]) = (2%nat, Some 1%nat) /\
  locate Sample.doc_nested 2%nat (Some [0%nat; 1%nat])
  = Some (1%nat, Element "code" Sample.jsProps [2%nat], [2%nat], 0%nat).
Proof.
  destruct (resolveTarget_cases Sample.doc_pre 2%nat [0%nat] 1%nat)
    as [Hpre _].
  destruct (Hpre ∅ [2%nat] eq_refl) as [Hr Hl].
  destruct (resolveTarget_cases Sample.doc_nested 2%nat [0%nat] 1%nat)
    as [_ Hnode].
  destruct Hnode as [Hr' Hl']; [intros ps cs; vm_compute; discriminate|].
  split; [exact Hr|]. split; [exact Hl|]. split; [exact Hr' | exact Hl'].
Qed.

(** ** Plugin *)

Section PluginFacts.
Variable md5_hex : string -> string.
Variable tmpdir : string.
Variable path_join : string -> string -> string.
Variable run : string -> string -> RunOptions -> gmap string string ->
               gmap string string * option string.
Variable fromHtml : string -> list hast.
Variable toText : heap -> loc -> string.

Local Abbreviation process :=
  (processDiagram md5_hex tmpdir path_join run fromHtml).
Local Abbreviation tasksRun :=
  (runTasks md5_hex tmpdir path_join run fromHtml).

Lemma runTasks_cons options d started tasks seen h w :
  tasksRun options ((d, started) :: tasks) (seen, h, w)
  = let '(e, h', w') := process options d started h w in
    tasksRun options tasks (firstError seen e, h', w').
Proof.
  unfold runTasks. cbn [foldl].
  by destruct (process options d started h w) as [[e h'] w'].
Qed.

Lemma runTasks_app options tasks1 tasks2 st :
  tasksRun options (tasks1 ++ tasks2) st
  = tasksRun options tasks2 (tasksRun options tasks1 st).
Proof. apply foldl_app. Qed.

(** A task ends with the document as it found it, or with what a rewrite
    of its entry made of it. *)
Lemma processDiagram_cases options d started h w e h' w' :
  process options d started h w = (e, h', w') ->
  h' = h \/
  exists svgByTheme,
    applyThemeAST fromHtml (dg_node d) svgByTheme (dg_id d)
      (Some (dg_ancestors d)) (svgClassNames options) h = Ok h'.
Proof.
  unfold processDiagram.
  destruct (finishEach _ _ _ _ _ _ _ _) as [[es|err] w1];
    [|intros [= _ <- _]; by left].
  destruct (applyThemeAST _ _ _ _ _ _ h) as [h2|err] eqn:Happ;
    intros [= _ <- _]; [right; eauto | by left].
Qed.

(** What every rewrite of a task of [tasks] preserves, the tasks preserve. *)
Lemma runTasks_heap_ind (P : heap -> Prop) options tasks :
  (forall d started svgByTheme h h',
     (d, started) ∈ tasks -> P h ->
     applyThemeAST fromHtml (dg_node d) svgByTheme (dg_id d)
       (Some (dg_ancestors d)) (svgClassNames options) h = Ok h' ->
     P h') ->
  forall seen h w, P h -> P (tasksRun options tasks (seen, h, w)).1.2.
Proof.
  induction tasks as [|[d started] tasks IH]; intros Hstep seen h w HP;
    [exact HP|].
  rewrite runTasks_cons.
  destruct (process options d started h w) as [[e h'] w'] eqn:Hp.
  apply IH.
  - intros d' started' sv h2 h2' Hin.
    apply (Hstep d' started'). by apply list_elem_of_further.
  - destruct (processDiagram_cases _ _ _ _ _ _ _ _ Hp) as [->|[sv Happ]];
      [exact HP|].
    eapply (Hstep d started); [apply list_elem_of_here | exact HP | exact Happ].
Qed.

(** Without themes a diagram renders nothing and its rewrite splices an
    empty wrapper, or nothing when the target is not found. *)
Lemma processDiagram_no_themes options d h w :
  process options d [] h w =
  (None,
   match locate h (dg_node d) (Some (dg_ancestors d)) with
   | Some (p, n, cs, i) =>
       let wl := fresh (dom h) in
       <[p := set_children n (<[i := wl]> cs)]>
         (<[wl := Element "div" (wrapperProperties (dg_id d)) []]> h)
   | None => h
   end,
   w).
Proof.
  unfold processDiagram. cbn [finishEach].
  unfold fromEntries, applyThemeAST, themeDivs. cbn [foldl mapiM bind].
  destruct (locate h (dg_node d) (Some (dg_ancestors d)))
    as [[[[p n] cs] i]|]; reflexivity.
Qed.

Lemma runTasks_no_themes options tasks : forall h w,
  (forall d started, (d, started) ∈ tasks -> started = []) ->
  exists h', tasksRun options tasks (None, h, w) = (None, h', w).
Proof.
  induction tasks as [|[d started] tasks IH]; intros h w Hall; [by eexists|].
  rewrite runTasks_cons.
  rewrite (Hall d started (list_elem_of_here _ _)), processDiagram_no_themes.
  apply IH. intros d' s' Hin. eapply Hall. by apply list_elem_of_further.
Qed.
End PluginFacts.

(** ** Tree walker *)

(** The visitor's test, spelled out. *)
Lemma isMermaid_spec n :
  isMermaid n = true <->
  exists ps cs cl,
    n = Element "code" ps cs /\ ps !! "className" = Some (PList cl) /\
    "language-mermaid" ∈ cl.
Proof.
  split.
  - destruct n as [|tag ps cs| | |]; simpl; try discriminate.
    intros [Htag Hcl]%andb_true_iff. apply bool_decide_eq_true in Htag as ->.
    destruct (ps !! "className") as [[|cl]|] eqn:Hps; try discriminate.
    apply bool_decide_eq_true in Hcl. eauto 6.
  - intros (ps & cs & cl & -> & Hps & Hin). simpl. rewrite Hps.
    apply bool_decide_eq_true. exact Hin.
Qed.

Lemma tagged_isMermaid n0 n1 : tagged n0 n1 -> isMermaid n1 = isMermaid n0.
Proof.
  intros [->|(_ & tag & ps & cs & v & -> & ->)]; [reflexivity|].
  simpl. rewrite lookup_insert_ne by discriminate. reflexivity.
Qed.

Lemma tagged_children n0 n1 : tagged n0 n1 -> node_children n1 = node_children n0.
Proof. intros [->|(_ & tag & ps & cs & v & -> & ->)]; reflexivity. Qed.

Lemma tagged_plain n0 n1 : tagged n0 n1 -> isMermaid n0 = false -> n1 = n0.
Proof. intros [->|(Hm & _)]; [reflexivity | congruence]. Qed.

Lemma tagged_trans n0 n1 n2 : tagged n0 n1 -> tagged n1 n2 -> tagged n0 n2.
Proof.
  intros H01 H12. destruct H12 as [->|(Hm & tag & ps & cs & v & -> & ->)];
    [exact H01|].
  destruct H01 as [<-|(Hm0 & tag0 & ps0 & cs0 & v0 & -> & [= -> -> ->])].
  - right. split; [exact Hm|]. eauto 6.
  - right. split; [exact Hm0|]. exists tag0, ps0, cs0, v. split; [reflexivity|].
    by rewrite insert_insert_eq.
Qed.

Lemma upd_refl h : upd h h.
Proof. intros x. destruct (h !! x); constructor. by left. Qed.

Lemma upd_trans h0 h1 h2 : upd h0 h1 -> upd h1 h2 -> upd h0 h2.
Proof.
  intros H01 H12 x. specialize (H01 x). specialize (H12 x).
  destruct H01 as [n0 n1 Ht|]; inversion H12; subst; constructor.
  eapply tagged_trans; eassumption.
Qed.

Lemma upd_lookup h0 h1 x n0 :
  upd h0 h1 -> h0 !! x = Some n0 -> exists n1, h1 !! x = Some n1 /\ tagged n0 n1.
Proof.
  intros Hu Hx. specialize (Hu x). rewrite Hx in Hu. inversion Hu; subst. eauto.
Qed.

Lemma upd_lookup_inv h0 h1 x n1 :
  upd h0 h1 -> h1 !! x = Some n1 -> exists n0, h0 !! x = Some n0 /\ tagged n0 n1.
Proof.
  intros Hu Hx. specialize (Hu x). rewrite Hx in Hu. inversion Hu; subst. eauto.
Qed.

Lemma upd_children h0 h1 x :
  upd h0 h1 -> h1 !! x ≫= node_children = h0 !! x ≫= node_children.
Proof.
  intros Hu. specialize (Hu x). destruct Hu as [n0 n1 Ht|]; [|reflexivity].
  simpl. by apply tagged_children.
Qed.

Lemma upd_plain h0 h1 x n :
  upd h0 h1 -> h0 !! x = Some n -> isMermaid n = false -> h1 !! x = Some n.
Proof.
  intros Hu Hx Hm. destruct (upd_lookup _ _ _ _ Hu Hx) as (n1 & Hx1 & Ht).
  by rewrite Hx1, (tagged_plain _ _ Ht Hm).
Qed.

Section WalkerFacts.
Variable md5_hex : string -> string.
Variable toText : heap -> loc -> string.
(** The store when the walk starts. *)
Variable h0 : heap.

Local Abbreviation visit := (visitParents md5_hex toText).

Lemma child_of_children l c cs :
  h0 !! l ≫= node_children = Some cs -> c ∈ cs -> child_of h0 l c.
Proof.
  intros Hl Hc. destruct (h0 !! l) as [n|] eqn:Hn; [|discriminate].
  exists n, cs. auto.
Qed.

Lemma child_of_inv l c :
  child_of h0 l c -> exists cs, h0 !! l ≫= node_children = Some cs /\ c ∈ cs.
Proof. intros (n & cs & Hn & Hcs & Hc). exists cs. by rewrite Hn. Qed.

(** The visitor either records the node, a diagram block, or leaves
    everything as it is. *)
Lemma visitor_spec l anc h ds h1 ds1 :
  upd h0 h ->
  visitor md5_hex toText l anc (h, ds) = (h1, ds1) ->
  upd h0 h1 /\
  ((exists n d, h0 !! l = Some n /\ isMermaid n = true /\
                ds1 = ds ++ [d] /\ dg_node d = l /\ dg_ancestors d = anc) \/
   ((forall n, h0 !! l = Some n -> isMermaid n = false) /\ ds1 = ds)).
Proof.
  intros Hu. unfold visitor.
  assert (Hplain : (forall n1, h !! l = Some n1 -> isMermaid n1 = false) ->
                   forall n, h0 !! l = Some n -> isMermaid n = false).
  { intros Hn1 n Hn. destruct (upd_lookup _ _ _ _ Hu Hn) as (n1 & Hl & Ht).
    rewrite <- (tagged_isMermaid _ _ Ht). by apply Hn1. }
  destruct (h !! l) as [[|tag ps cs| | |]|] eqn:Hl;
    try (intros [= <- <-]; split; [exact Hu|]; right; split; [|reflexivity];
         apply Hplain; intros n1 [= <-]; reflexivity).
  - destruct (isMermaid (Element tag ps cs)) eqn:Hm.
    + intros [= <- <-].
      destruct (upd_lookup_inv _ _ _ _ Hu Hl) as (n & Hn & Ht).
      split.
      * eapply upd_trans; [exact Hu|]. intros x.
        destruct (decide (x = l)) as [->|Hx].
        -- rewrite Hl, lookup_insert_eq. constructor. right.
           split; [exact Hm|]. eauto 6.
        -- rewrite lookup_insert_ne by congruence. apply upd_refl.
      * left. eexists n, _. split; [exact Hn|]. split.
        { by rewrite <- (tagged_isMermaid _ _ Ht). }
        split; [reflexivity|]. split; reflexivity.
    + intros [= <- <-]. split; [exact Hu|]. right. split; [|reflexivity].
      apply Hplain. intros n1 [= <-]. exact Hm.
Qed.

Lemma foldl_visit_None fuel anc cs :
  foldl (fun acc child => acc ≫= visit fuel child anc) None cs = None.
Proof. induction cs as [|c cs IH]; [reflexivity | exact IH]. Qed.

Lemma visit_children fuel anc cs :
  walk_ok md5_hex toText h0 fuel ->
  forall h ds h1 ds1,
    upd h0 h ->
    (forall c a, c ∈ cs -> a ∈ anc -> reach h0 a c) ->
    (forall c q, c ∈ cs -> last anc = Some q -> child_of h0 q c) ->
    foldl (fun acc child => acc ≫= visit fuel child anc) (Some (h, ds)) cs
    = Some (h1, ds1) ->
    upd h0 h1 /\
    exists new, ds1 = ds ++ new /\
      (forall d, d ∈ new -> exists c, c ∈ cs /\ discovered h0 anc c d) /\
      (forall c, c ∈ cs -> exhaustive h0 c new).
Proof.
  intros Hwalk. induction cs as [|c cs IH]; intros h ds h1 ds1 Hu Hanc Hlast.
  - intros [= <- <-]. split; [exact Hu|]. exists []. rewrite app_nil_r.
    split; [reflexivity|]. split.
    + intros d Hd. by apply elem_of_nil in Hd.
    + intros c' Hc'. by apply elem_of_nil in Hc'.
  - cbn [foldl mbind option_bind].
    destruct (visit fuel c anc (h, ds)) as [[h2 ds2]|] eqn:Hc;
      [|rewrite foldl_visit_None; discriminate].
    intros Hfold.
    destruct (Hwalk c anc h ds h2 ds2 Hu) as (Hu2 & new1 & -> & Hs1 & He1);
      [intros a Ha; apply Hanc; [apply list_elem_of_here | exact Ha]
      | intros q Hq; apply Hlast; [apply list_elem_of_here | exact Hq]
      | exact Hc |].
    destruct (IH h2 (ds ++ new1) h1 ds1 Hu2) as (Hu1 & new2 & -> & Hs2 & He2);
      [intros c' a Hc' Ha; apply Hanc; [by apply list_elem_of_further | exact Ha]
      | intros c' q Hc' Hq; apply Hlast; [by apply list_elem_of_further | exact Hq]
      | exact Hfold |].
    split; [exact Hu1|]. exists (new1 ++ new2). rewrite app_assoc.
    split; [reflexivity|]. split.
    + intros d [Hd|Hd]%elem_of_app.
      * exists c. split; [apply list_elem_of_here | by apply Hs1].
      * destruct (Hs2 d Hd) as (c' & Hc' & Hd').
        exists c'. split; [by apply list_elem_of_further | exact Hd'].
    + intros c' [->|Hc']%elem_of_cons x n Hx Hn Hm.
      * destruct (He1 x n Hx Hn Hm) as (d & Hd & Hnode).
        exists d. split; [apply elem_of_app; by left | exact Hnode].
      * destruct (He2 c' Hc' x n Hx Hn Hm) as (d & Hd & Hnode).
        exists d. split; [apply elem_of_app; by right | exact Hnode].
Qed.

(** The walk only puts ids on diagram blocks. *)
Lemma visitParents_upd fuel : forall l anc h ds h1 ds1,
  upd h0 h -> visit fuel l anc (h, ds) = Some (h1, ds1) -> upd h0 h1.
Proof.
  induction fuel as [|fuel IH]; intros l anc h ds h1 ds1 Hu; [discriminate|].
  cbn [visitParents].
  destruct (visitor md5_hex toText l anc (h, ds)) as [h' ds'] eqn:Hv.
  destruct (visitor_spec l anc h ds h' ds' Hu Hv) as [Hu' _].
  cbn [fst]. destruct (h' !! l ≫= node_children) as [cs|];
    [|intros [= <- <-]; exact Hu'].
  clear Hv. revert h' ds' Hu'.
  induction cs as [|c cs IHcs]; intros h' ds' Hu'; [intros [= <- <-]; exact Hu'|].
  cbn [foldl mbind option_bind].
  destruct (visit fuel c (anc ++ [l]) (h', ds')) as [[h2 ds2]|] eqn:Hc;
    [|rewrite foldl_visit_None; discriminate].
  apply IHcs. eapply IH; [exact Hu' | exact Hc].
Qed.

(** On a finite tree the walk ends, given fuel for its depth. *)
Lemma visitParents_total fuel : forall l anc h ds,
  upd h0 h -> bounded h0 fuel l -> is_Some (visit fuel l anc (h, ds)).
Proof.
  induction fuel as [|fuel IH]; intros l anc h ds Hu Hb; [inversion Hb|].
  cbn [visitParents].
  destruct (visitor md5_hex toText l anc (h, ds)) as [h' ds'] eqn:Hv.
  destruct (visitor_spec l anc h ds h' ds' Hu Hv) as [Hu' _].
  cbn [fst]. rewrite (upd_children _ _ l Hu').
  inversion Hb as [d l' Hleaf|d l' cs Hcs Hall]; subst.
  - rewrite Hleaf. eauto.
  - rewrite Hcs. clear Hv Hcs Hb. revert h' ds' Hu'.
    induction cs as [|c cs IHcs]; intros h' ds' Hu'; [cbn; eauto|].
    cbn [foldl mbind option_bind].
    destruct (IH c (anc ++ [l]) h' ds' Hu') as [[h2 ds2] Hc];
      [apply Hall, list_elem_of_here|].
    rewrite Hc. apply IHcs.
    + intros c' Hc'. by apply Hall, list_elem_of_further.
    + eapply visitParents_upd; [exact Hu' | exact Hc].
Qed.

Lemma visitParents_walk_ok fuel : walk_ok md5_hex toText h0 fuel.
Proof.
  induction fuel as [|fuel IH]; intros l anc h ds h1 ds1 Hu Hanc Hlast;
    [discriminate|].
  cbn [visitParents].
  destruct (visitor md5_hex toText l anc (h, ds)) as [h' ds'] eqn:Hv.
  destruct (visitor_spec l anc h ds h' ds' Hu Hv) as [Hu' Hpush].
  cbn [fst]. rewrite (upd_children _ _ l Hu').
  (* the entries the visitor itself contributes *)
  assert (Hself : exists newV, ds' = ds ++ newV /\
            (forall d, d ∈ newV -> discovered h0 anc l d) /\
            (forall n, h0 !! l = Some n -> isMermaid n = true ->
               exists d, d ∈ newV /\ dg_node d = l)).
  { destruct Hpush as [(n & d & Hn & Hm & -> & Hnode & Hancs)|[Hplain ->]].
    - exists [d]. split; [reflexivity|]. split.
      + intros d' ->%list_elem_of_singleton. unfold discovered.
        rewrite Hnode, Hancs. split; [eauto|]. split; [reflexivity|].
        split; [exact Hanc|]. split; [|exact Hlast].
      exists []. by rewrite app_nil_r.
      + intros _ _ _. exists d. split; [apply list_elem_of_here | exact Hnode].
    - exists []. rewrite app_nil_r. split; [reflexivity|]. split.
      + intros d Hd. by apply elem_of_nil in Hd.
      + intros n Hn Hm. rewrite (Hplain n Hn) in Hm. discriminate. }
  destruct Hself as (newV & -> & HsV & HeV).
  destruct (h0 !! l ≫= node_children) as [cs|] eqn:Hcs.
  - intros Hfold.
    destruct (visit_children fuel (anc ++ [l]) cs IH h' (ds ++ newV) h1 ds1 Hu')
      as (Hu1 & newC & -> & HsC & HeC); [| |exact Hfold|].
    { intros c a Hc [Ha| ->%list_elem_of_singleton]%elem_of_app.
      - eapply rtc_r; [by apply Hanc | by eapply child_of_children].
      - apply rtc_once. by eapply child_of_children. }
    { intros c q Hc. rewrite last_snoc. intros [= <-].
      by eapply child_of_children. }
    split; [exact Hu1|]. exists (newV ++ newC). rewrite app_assoc.
    split; [reflexivity|]. split.
    + intros d [Hd|Hd]%elem_of_app; [by apply HsV|].
      destruct (HsC d Hd) as (c & Hc & Hn & Hr & Ha & (path & Hpath & _) & Hq).
      split; [exact Hn|]. split.
      { eapply rtc_l; [by eapply child_of_children | exact Hr]. }
      split; [exact Ha|]. split; [|exact Hq]. exists (l :: path).
      by rewrite Hpath, <- app_assoc.
    + intros x n Hx Hn Hm. apply rtc_inv in Hx as [<-|(c & Hc & Hx)].
      * destruct (HeV n Hn Hm) as (d & Hd & Hnode).
        exists d. split; [apply elem_of_app; by left | exact Hnode].
      * apply child_of_inv in Hc as (cs' & Hcs' & Hc).
        rewrite Hcs in Hcs'. injection Hcs' as <-.
        destruct (HeC c Hc x n Hx Hn Hm) as (d & Hd & Hnode).
        exists d. split; [apply elem_of_app; by right | exact Hnode].
  - intros [= <- <-]. split; [exact Hu'|]. exists newV.
    split; [reflexivity|]. split; [exact HsV|].
    intros x n Hx Hn Hm. apply rtc_inv in Hx as [<-|(c & Hc & Hx)].
    + exact (HeV n Hn Hm).
    + apply child_of_inv in Hc as (cs' & Hcs' & _). congruence.
Qed.
End WalkerFacts.

Section TransformFacts.
Variable md5_hex : string -> string.
Variable tmpdir : string.
Variable path_join : string -> string -> string.
Variable run : string -> string -> RunOptions -> gmap string string ->
               gmap string string * option string.
Variable fromHtml : string -> list hast.
Variable toText : heap -> loc -> string.

Local Abbreviation tasksRun :=
  (runTasks md5_hex tmpdir path_join run fromHtml).

Lemma js_index_elem_of {A} (a : list A) i x : js_index a i = Some x -> x ∈ a.
Proof.
  unfold js_index. destruct (i <? 0); [discriminate|].
  apply list_elem_of_lookup_2.
Qed.

(** The splice parent is one of the recorded ancestors. *)
Lemma resolveTarget_parent h node anc target p :
  resolveTarget h node (Some anc) = (target, Some p) -> p ∈ anc.
Proof.
  unfold resolveTarget. cbn [mbind option_bind].
  destruct (js_index anc (Z.of_nat (length anc) - 1)) as [q|] eqn:Hq;
    [|discriminate].
  apply js_index_elem_of in Hq.
  destruct (h !! q) as [[|tag ps cs| | |]|]; try (by intros [= _ <-]).
  destruct (bool_decide (tag = "pre")); [|by intros [= _ <-]].
  intros [= _ Hp]. by apply js_index_elem_of in Hp.
Qed.

(** The tasks change no object outside the ancestors of their entries. *)
Lemma runTasks_frame options tasks l x seen h w :
  (forall d started, (d, started) ∈ tasks -> l ∉ dg_ancestors d) ->
  h !! l = Some x ->
  (tasksRun options tasks (seen, h, w)).1.2 !! l = Some x.
Proof.
  intros Htasks Hl.
  apply (runTasks_heap_ind md5_hex tmpdir path_join run fromHtml
           (fun h => h !! l = Some x)); [|exact Hl].
  intros d started sv h2 h2' Hin Hl2 Happ.
  eapply applyThemeAST_frame; [exact Happ | exact Hl2 |].
  intros p n cs i (target & Hr & _)%locate_Some ->.
  eapply Htasks; [exact Hin|]. eapply resolveTarget_parent, Hr.
Qed.
End TransformFacts.



(** ** The model at work *)

(** The entries handed to the rewrite name the themes whose renders were
    started, in their order. *)
Lemma finishEach_entries md5_hex tmpdir path_join run diagram started pc :
  forall w es w1,
    finishEach md5_hex tmpdir path_join run diagram started pc w = (Ok es, w1) ->
    es.*1 = started.*1.
Proof.
  induction started as [|[theme cached] started IH]; intros w es w1;
    cbn [finishEach].
  - by intros [= <- _].
  - destruct (renderFinish _ _ _ _ _ _ _ _ w) as [[svg|e] w2];
      destruct (finishEach _ _ _ _ _ _ _ w2) as [[es'|e'] w3] eqn:Hrest;
      cbn [bind]; try discriminate.
    intros [= <- _]. rewrite !fmap_cons. f_equal. by eapply IH.
Qed.

Lemma startEach_themes md5_hex tmpdir path_join diagram themes fs :
  (startEach md5_hex tmpdir path_join diagram themes fs).*1 = themes.
Proof.
  unfold startEach. rewrite <- list_fmap_compose. apply list_fmap_id.
Qed.

(** The sample documents are finite trees. *)
Example doc_pre_bounded : bounded Sample.doc_pre 4 0%nat.
Proof.
  eapply bounded_node; [reflexivity|].
  intros c ->%list_elem_of_singleton.
  eapply bounded_node; [reflexivity|].
  intros c ->%list_elem_of_singleton.
  eapply bounded_node; [reflexivity|].
  intros c ->%list_elem_of_singleton.
  apply bounded_leaf. reflexivity.
Qed.

(** Scenario B: one block inside [pre], two themes.  The [pre] makes way
    for the wrapper, the first container is shown and the second hidden,
    and the renderer ran once per theme. *)
Example rehypeMermaidCLI_two_themes :
  exists h' w',
    rehypeMermaidCLI Sample.md5_hex Sample.tmpdir Sample.path_join Sample.run
      Sample.fromHtml Sample.toText
      (Some {| renderThemes := [Default; Dark]; svgClassNames := None;
               puppeteerConfig := None |})
      4 [0%nat] 0%nat Sample.doc_pre Sample.world0 = Some (None, h', w') /\
    h' !! 0%nat = Some (Root [8%nat]) /\
    h' !! 8%nat
    = Some (Element "div" (wrapperProperties "mermaid-5d2f3a8c") [5%nat; 7%nat]) /\
    (h' !! 5%nat ≫= fun n => match n with
                             | Element _ ps _ => ps !! "style"
                             | _ => None
                             end) = Some (PStr "display: block;") /\
    (h' !! 7%nat ≫= fun n => match n with
                             | Element _ ps _ => ps !! "style"
                             | _ => None
                             end) = Some (PStr "display: none;") /\
    length (invocations w') = 2%nat.
Proof. eexists _, _. repeat split; vm_compute; reflexivity. Qed.

(** Two blocks inside one [pre]: whichever task runs first replaces the
    [pre]; the other one no longer finds it and is skipped in silence. *)
Example rehypeMermaidCLI_shared_pre :
  exists h' w',
    rehypeMermaidCLI Sample.md5_hex Sample.tmpdir Sample.path_join Sample.run
      Sample.fromHtml Sample.toText
      (Some {| renderThemes := [Default]; svgClassNames := None;
               puppeteerConfig := None |})
      4 [1%nat; 0%nat] 0%nat Sample.doc_shared_pre Sample.world0
    = Some (None, h', w') /\
    h' !! 0%nat = Some (Root [8%nat]) /\
    h' !! 8%nat
    = Some (Element "div" (wrapperProperties "mermaid-0f1e2d3c") [7%nat]) /\
    dom h' = list_to_set (seq 0 9).
Proof. eexists _, _. repeat split; vm_compute; reflexivity. Qed.

(** Two blocks with the same text and a cold cache: both tasks check for
    the artifact before either has rendered it, so the renderer is called
    for each; both blocks get a wrapper with the same id. *)
Example rehypeMermaidCLI_twins :
  exists h' w' a b,
    rehypeMermaidCLI Sample.md5_hex Sample.tmpdir Sample.path_join Sample.run
      Sample.fromHtml Sample.toText None 4 [] 0%nat Sample.doc_twins
      Sample.world0 = Some (None, h', w') /\
    h' !! 0%nat = Some (Root [a; b]) /\ a <> b /\
    (exists ls, h' !! a = Some (Element "div" (wrapperProperties "mermaid-5d2f3a8c") ls)) /\
    (exists ls, h' !! b = Some (Element "div" (wrapperProperties "mermaid-5d2f3a8c") ls)) /\
    (invocations w').*1.*2
    = ["/tmp/mermaid-5d2f3a8c-default.svg"; "/tmp/mermaid-5d2f3a8c-default.svg"].
Proof.
  eexists _, _, _, _. split; [vm_compute; reflexivity|].
  split; [vm_compute; reflexivity|]. split; [discriminate|].
  split; [eexists; vm_compute; reflexivity|].
  split; [eexists; vm_compute; reflexivity|]. vm_compute. reflexivity.
Qed.

(** * Further properties of the code *)

(** ** Strings *)

Lemma string_length_app (a b : string) :
  String.length (a +:+ b) = (String.length a + String.length b)%nat.
Proof. induction a as [|c a IH]; simpl; [reflexivity | by rewrite IH]. Qed.

Lemma string_app_inj_length (a b c d : string) :
  String.length a = String.length c -> a +:+ b = c +:+ d -> a = c /\ b = d.
Proof.
  revert c. induction a as [|x a IH]; intros [|y c]; simpl; try discriminate.
  - intros _ H. by split.
  - intros [= Hlen] [= -> H]. destruct (IH c Hlen H) as [-> ->]. by split.
Qed.

(** Two texts that end the same way and are equal begin the same way. *)
Lemma string_app_inj_suffix (a b c d : string) :
  String.length b = String.length d -> a +:+ b = c +:+ d -> a = c /\ b = d.
Proof.
  intros Hlen H. apply string_app_inj_length; [|exact H].
  apply (f_equal String.length) in H. rewrite !string_length_app in H. lia.
Qed.

Lemma substring_length (n : nat) (s : string) :
  (n <= String.length s)%nat -> String.length (substring 0 n s) = n.
Proof.
  revert s. induction n as [|n IH]; intros [|c s]; simpl; try reflexivity; try lia.
  intros H. rewrite IH; [reflexivity | lia].
Qed.

(** ** Identity hasher and cache keys *)

(** X1: two sources whose md5 digests share their first eight digits share
    their cache entry: once the first has been rendered under a theme, a
    render of the second under that theme answers the first one's artifact
    and does not call the renderer. *)
Theorem renderMermaidDiagram_prefix_collision
    (md5_hex : string -> string) (tmpdir : string)
    (path_join : string -> string -> string)
    (run : string -> string -> RunOptions -> gmap string string ->
           gmap string string * option string)
    (s1 s2 : string) (theme : Theme) (pc pc' : option PuppeteerConfig)
    (w w1 : world) (content : string) :
  substring 0 8 (md5_hex s1) = substring 0 8 (md5_hex s2) ->
  renderMermaidDiagram md5_hex tmpdir path_join run s1 theme pc w
  = (Ok content, w1) ->
  renderMermaidDiagram md5_hex tmpdir path_join run s2 theme pc' w1
  = (Ok content, w1).
Proof.
  intros Hpre Hfirst. apply render_hit.
  replace (finalOutput md5_hex tmpdir path_join s2 theme)
    with (finalOutput md5_hex tmpdir path_join s1 theme).
  - eapply render_ok_stored, Hfirst.
  - unfold finalOutput, getDiagramIdWithTheme. by rewrite Hpre.
Qed.

Lemma renderMermaidDiagram_prefix_collision_witness :
  let w1 :=
    (renderMermaidDiagram Sample.md5_hex Sample.tmpdir Sample.path_join Sample.run
       "graph LR; X-->Y;" Dark None Sample.world0).2 in
  renderMermaidDiagram Sample.md5_hex Sample.tmpdir Sample.path_join Sample.run
    "sequenceDiagram" Dark None w1
  = (Ok "<svg id='mermaid-0f1e2d3c-dark'></svg>", w1).
Proof.
  intros w1.
  apply (renderMermaidDiagram_prefix_collision Sample.md5_hex Sample.tmpdir
           Sample.path_join Sample.run "graph LR; X-->Y;" "sequenceDiagram"
           Dark None None Sample.world0 w1).
  - reflexivity.
  - vm_compute. reflexivity.
Defined.

(** X2: when the digests have at least eight digits, as md5's have, two
    themed ids are equal exactly when the first eight digits and the themes
    are: no two (digest prefix, theme) pairs share a cache key. *)
Theorem getDiagramIdWithTheme_injective
    (md5_hex : string -> string) (s1 s2 : string) (t1 t2 : Theme) :
  (8 <= String.length (md5_hex s1))%nat ->
  (8 <= String.length (md5_hex s2))%nat ->
  (getDiagramIdWithTheme md5_hex s1 t1 = getDiagramIdWithTheme md5_hex s2 t2
   <-> substring 0 8 (md5_hex s1) = substring 0 8 (md5_hex s2) /\ t1 = t2).
Proof.
  intros H1 H2. unfold getDiagramIdWithTheme. split.
  - intros H. apply String.app_inj in H.
    apply string_app_inj_length in H as [Hh Ht];
      [|by rewrite !substring_length].
    apply String.app_inj in Ht. split; [exact Hh | by apply theme_name_inj].
  - intros [-> ->]. reflexivity.
Qed.

Lemma getDiagramIdWithTheme_injective_witness :
  getDiagramIdWithTheme Sample.md5_hex "graph TD; A-->B;" Dark
  <> getDiagramIdWithTheme Sample.md5_hex "graph LR; X-->Y;" Dark.
Proof.
  intros H.
  apply (getDiagramIdWithTheme_injective Sample.md5_hex "graph TD; A-->B;"
           "graph LR; X-->Y;" Dark Dark) in H as [Hh _].
  - discriminate Hh.
  - vm_compute. lia.
  - vm_compute. lia.
Defined.

(** ** Render cache *)

Section CacheIsolation.
Variable md5_hex : string -> string.
Variable tmpdir : string.
Variable path_join : string -> string -> string.
Variable run : string -> string -> RunOptions -> gmap string string ->
               gmap string string * option string.

(** A staging file is never an artifact file: the names end differently. *)
Lemma inputFile_not_finalOutput diagram theme diagram' theme' :
  (forall a b, path_join tmpdir a = path_join tmpdir b -> a = b) ->
  inputFile md5_hex tmpdir path_join diagram theme
  <> finalOutput md5_hex tmpdir path_join diagram' theme'.
Proof.
  intros Hinj H. apply Hinj in H.
  apply string_app_inj_suffix in H as [_ H]; [discriminate H | reflexivity].
Qed.
End CacheIsolation.

(** X3: if [path.join] keeps different file names apart and the renderer
    writes no file but its output, a render of one (source, theme) pair
    leaves the cached artifact of every other output location as it was:
    neither the staging of the source nor the renderer touches it. *)
Theorem renderMermaidDiagram_cache_isolation
    (md5_hex : string -> string) (tmpdir : string)
    (path_join : string -> string -> string)
    (run : string -> string -> RunOptions -> gmap string string ->
           gmap string string * option string)
    (diagram diagram' : string) (theme theme' : Theme)
    (pc : option PuppeteerConfig) (w : world) :
  (forall a b, path_join tmpdir a = path_join tmpdir b -> a = b) ->
  (forall input output o fs path,
     path <> output -> (run input output o fs).1 !! path = fs !! path) ->
  finalOutput md5_hex tmpdir path_join diagram' theme'
  <> finalOutput md5_hex tmpdir path_join diagram theme ->
  files (renderMermaidDiagram md5_hex tmpdir path_join run diagram theme pc w).2
    !! finalOutput md5_hex tmpdir path_join diagram' theme'
  = files w !! finalOutput md5_hex tmpdir path_join diagram' theme'.
Proof.
  intros Hinj Hframe Hother. unfold renderMermaidDiagram.
  destruct (exists_ _ (files w)); [reflexivity|].
  specialize (Hframe (inputFile md5_hex tmpdir path_join diagram theme)
                (finalOutput md5_hex tmpdir path_join diagram theme)
                (runOptions md5_hex diagram theme pc)
                (writeFile (inputFile md5_hex tmpdir path_join diagram theme)
                   diagram (files w))
                _ Hother).
  destruct (run _ _ _ _) as [fs2 [e|]]; cbn [fst snd files] in *;
    rewrite Hframe; unfold writeFile; apply lookup_insert_ne;
    by apply inputFile_not_finalOutput.
Qed.

Lemma Sample_path_join_inj a b :
  Sample.path_join Sample.tmpdir a = Sample.path_join Sample.tmpdir b -> a = b.
Proof. unfold Sample.path_join. intros H. by do 2 apply String.app_inj in H. Qed.

Lemma Sample_run_frame input output o fs path :
  path <> output -> (Sample.run input output o fs).1 !! path = fs !! path.
Proof. intros H. unfold Sample.run. simpl. by apply lookup_insert_ne. Qed.

Lemma renderMermaidDiagram_cache_isolation_witness :
  let w1 :=
    (renderMermaidDiagram Sample.md5_hex Sample.tmpdir Sample.path_join Sample.run
       "graph TD; A-->B;" Dark None Sample.world0).2 in
  files (renderMermaidDiagram Sample.md5_hex Sample.tmpdir Sample.path_join
           Sample.run "graph TD; A-->B;" Default None w1).2
    !! "/tmp/mermaid-5d2f3a8c-dark.svg"
  = Some "<svg id='mermaid-5d2f3a8c-dark'></svg>".
Proof.
  intros w1.
  etrans; [apply (renderMermaidDiagram_cache_isolation Sample.md5_hex
                    Sample.tmpdir Sample.path_join Sample.run
                    "graph TD; A-->B;" "graph TD; A-->B;" Default Dark None w1
                    Sample_path_join_inj Sample_run_frame)|].
  - vm_compute. discriminate.
  - vm_compute. reflexivity.
Defined.

(** ** Render orchestration *)

Section OrchestrationFacts.
Variable md5_hex : string -> string.
Variable tmpdir : string.
Variable path_join : string -> string -> string.
Variable run : string -> string -> RunOptions -> gmap string string ->
               gmap string string * option string.

Local Abbreviation render := (renderMermaidDiagram md5_hex tmpdir path_join run).
Local Abbreviation finish := (renderFinish md5_hex tmpdir path_join run).
Local Abbreviation start := (startEach md5_hex tmpdir path_join).
Local Abbreviation finishAll := (finishEach md5_hex tmpdir path_join run).
Local Abbreviation output := (finalOutput md5_hex tmpdir path_join).
Local Abbreviation input := (inputFile md5_hex tmpdir path_join).
Local Abbreviation options := (runOptions md5_hex).

(** A render is its check followed by the rest. *)
Lemma renderMermaidDiagram_split diagram theme pc w :
  render diagram theme pc w
  = finish diagram theme pc
      (renderStart md5_hex tmpdir path_join diagram theme (files w)) w.
Proof.
  unfold renderMermaidDiagram, renderFinish, renderStart.
  by destruct (exists_ _ (files w)).
Qed.

(** One render adds at most one call to the log and keeps what was there. *)
Lemma render_invocations diagram theme pc w :
  exists new,
    invocations (render diagram theme pc w).2 = invocations w ++ new /\
    (length new <= 1)%nat.
Proof.
  unfold renderMermaidDiagram. destruct (exists_ _ (files w)).
  - exists []. rewrite app_nil_r. split; [reflexivity | simpl; lia].
  - destruct (run _ _ _ _) as [fs2 [e|]]; eexists [_]; split;
      try reflexivity; simpl; lia.
Qed.

(** The rest of a render calls the renderer exactly when the check found
    no artifact, whatever comes of the call. *)
Lemma renderFinish_invocations diagram theme pc cached w :
  invocations (finish diagram theme pc cached w).2
  = invocations w ++
    (if cached then []
     else [(input diagram theme, output diagram theme, options diagram theme pc)]).
Proof.
  unfold renderFinish. destruct cached; [by rewrite app_nil_r|].
  by destruct (run _ _ _ _) as [fs2 [e|]].
Qed.

Lemma finishEach_invocations diagram themes pc fs : forall w,
  invocations (finishAll diagram (start diagram themes fs) pc w).2
  = invocations w ++
    ((fun theme =>
        (input diagram theme, output diagram theme, options diagram theme pc))
       <$> filter (fun theme => fs !! output diagram theme = None) themes).
Proof.
  induction themes as [|theme themes IH]; intros w.
  - by rewrite app_nil_r.
  - unfold startEach. rewrite fmap_cons. cbn [finishEach].
    fold (start diagram themes fs).
    pose proof (renderFinish_invocations diagram theme pc
                  (renderStart md5_hex tmpdir path_join diagram theme fs) w) as H1.
    destruct (finish diagram theme pc _ w) as [r w1]. cbn [snd] in H1.
    specialize (IH w1). destruct (finishAll diagram _ pc w1) as [rs w2].
    cbn [snd] in *. rewrite IH, H1. unfold renderStart, exists_.
    destruct (fs !! output diagram theme) as [content|] eqn:Hfs.
    + rewrite bool_decide_eq_true_2 by eauto.
      rewrite filter_cons_False by (rewrite Hfs; discriminate).
      by rewrite app_nil_r.
    + rewrite bool_decide_eq_false_2 by (intros [? ?]; discriminate).
      rewrite filter_cons_True by exact Hfs.
      by rewrite <- app_assoc.
Qed.

Lemma finishEach_warm diagram (cached : Theme -> string) themes pc fs w :
  (forall theme, theme ∈ themes ->
     is_Some (fs !! output diagram theme) /\
     files w !! output diagram theme = Some (cached theme)) ->
  finishAll diagram (start diagram themes fs) pc w
  = (Ok ((fun t => (t, cached t)) <$> themes), w).
Proof.
  induction themes as [|theme themes IH]; intros Hall; [reflexivity|].
  unfold startEach. rewrite fmap_cons. cbn [finishEach].
  fold (start diagram themes fs).
  destruct (Hall theme (list_elem_of_here _ _)) as [Hfs Hw].
  unfold renderStart, exists_. rewrite bool_decide_eq_true_2 by exact Hfs.
  unfold renderFinish, readFile. rewrite Hw.
  rewrite IH; [reflexivity|].
  intros t Ht. by apply Hall, list_elem_of_further.
Qed.

Lemma renderEach_warm diagram (cached : Theme -> string) themes pc w :
  (forall theme, theme ∈ themes ->
     files w !! output diagram theme = Some (cached theme)) ->
  renderEach md5_hex tmpdir path_join run diagram themes pc w
  = (Ok ((fun t => (t, cached t)) <$> themes), w).
Proof.
  intros Hall. apply finishEach_warm. intros theme Ht.
  rewrite (Hall theme Ht). eauto.
Qed.

(** One render that is rejected makes the renders of its diagram fail,
    whatever the other renders answer. *)
Lemma finishEach_rejected diagram started pc theme :
  (theme, false) ∈ started ->
  (forall fs,
     (run (input diagram theme) (output diagram theme)
          (options diagram theme pc) fs).2 <> None) ->
  forall w, exists e w1, finishAll diagram started pc w = (Err e, w1).
Proof.
  intros Hin Hrej.
  induction started as [|[theme' cached] started IH]; intros w;
    [by apply elem_of_nil in Hin|].
  cbn [finishEach].
  destruct (finish diagram theme' pc cached w) as [r w1] eqn:Hr.
  apply elem_of_cons in Hin as [[= <- <-]|Hin].
  - unfold renderFinish in Hr.
    specialize (Hrej (writeFile (input diagram theme) diagram (files w))).
    destruct (run _ _ _ _) as [fs2 [e|]]; [|by destruct Hrej].
    injection Hr as <- <-.
    destruct (finishAll diagram started pc _) as [rs w2]. eauto.
  - destruct (IH Hin w1) as (e & w2 & ->).
    destruct r as [svg|e']; cbn [bind]; eauto.
Qed.
End OrchestrationFacts.

(** X4: when the artifact of every requested theme is already cached, the
    renders of a diagram answer the cached artifacts, theme by theme in the
    requested order, and leave the files and the log of renderer calls as
    they were: a warm cache means no renderer call at all. *)
Theorem renderEach_warm_cache
    (md5_hex : string -> string) (tmpdir : string)
    (path_join : string -> string -> string)
    (run : string -> string -> RunOptions -> gmap string string ->
           gmap string string * option string)
    (diagram : string) (cached : Theme -> string) (themes : list Theme)
    (pc : option PuppeteerConfig) (w : world) :
  (forall theme, theme ∈ themes ->
     files w !! finalOutput md5_hex tmpdir path_join diagram theme
     = Some (cached theme)) ->
  renderEach md5_hex tmpdir path_join run diagram themes pc w
  = (Ok ((fun t => (t, cached t)) <$> themes), w).
Proof. apply renderEach_warm. Qed.

Lemma renderEach_warm_cache_witness :
  let w := {| files := <["/tmp/mermaid-5d2f3a8c-dark.svg" := "<svg dark/>"]>
                         (<["/tmp/mermaid-5d2f3a8c-default.svg" := "<svg default/>"]> ∅);
              invocations := [] |} in
  renderEach Sample.md5_hex Sample.tmpdir Sample.path_join Sample.run_partial
    "graph TD; A-->B;" [Dark; Default; Dark] None w
  = (Ok [(Dark, "<svg dark/>"); (Default, "<svg default/>"); (Dark, "<svg dark/>")],
     w).
Proof.
  intros w.
  refine (renderEach_warm_cache Sample.md5_hex Sample.tmpdir Sample.path_join
            Sample.run_partial "graph TD; A-->B;"
            (fun t => if decide (t = Dark) then "<svg dark/>" else "<svg default/>")
            [Dark; Default; Dark] None w _).
  intros theme Ht.
  apply elem_of_cons in Ht as [->|Ht]; [reflexivity|].
  apply elem_of_cons in Ht as [->|Ht]; [reflexivity|].
  apply list_elem_of_singleton in Ht as ->. reflexivity.
Defined.

(** X5: the renders of one diagram are started together, so each of them
    checks the files as they are at the start: the earlier renderer calls
    stay in the log, and the calls that are added are, up to their order,
    one for every position of the theme list whose artifact was not there
    at the start, a theme listed twice being rendered twice, each with the
    staging path, the output path and the options of its theme, whether
    the call resolves or rejects.  When all renders succeed, the entries
    handed to the rewrite name the requested themes in the requested order,
    one entry per position. *)
Theorem renderEach_order_and_calls
    (md5_hex : string -> string) (tmpdir : string)
    (path_join : string -> string -> string)
    (run : string -> string -> RunOptions -> gmap string string ->
           gmap string string * option string)
    (diagram : string) (themes : list Theme) (pc : option PuppeteerConfig)
    (w w1 : world) (r : result (list (Theme * string))) :
  renderEach md5_hex tmpdir path_join run diagram themes pc w = (r, w1) ->
  (exists new,
     invocations w1 = invocations w ++ new /\
     new ≡ₚ
       (fun theme =>
          (inputFile md5_hex tmpdir path_join diagram theme,
           finalOutput md5_hex tmpdir path_join diagram theme,
           runOptions md5_hex diagram theme pc))
         <$> filter (fun theme =>
                       files w !! finalOutput md5_hex tmpdir path_join diagram theme
                       = None) themes) /\
  (forall es, r = Ok es -> es.*1 = themes /\ length es = length themes).
Proof.
  intros H. split.
  - pose proof (finishEach_invocations md5_hex tmpdir path_join run diagram
                  themes pc (files w) w) as Hlog.
    unfold renderEach in H. rewrite H in Hlog. eauto.
  - intros es ->. unfold renderEach in H.
    apply finishEach_entries in H. rewrite startEach_themes in H.
    split; [exact H|]. by rewrite <- H, length_fmap.
Qed.

Lemma renderEach_order_and_calls_witness :
  exists svgs w1,
    renderEach Sample.md5_hex Sample.tmpdir Sample.path_join Sample.run
      "graph TD; A-->B;" [Dark; Default; Dark] None Sample.world0
    = (Ok svgs, w1) /\
    svgs.*1 = [Dark; Default; Dark] /\
    length (invocations w1) = 3%nat.
Proof.
  destruct (renderEach Sample.md5_hex Sample.tmpdir Sample.path_join Sample.run
              "graph TD; A-->B;" [Dark; Default; Dark] None Sample.world0)
    as [[svgs|e] w1] eqn:H; [|vm_compute in H; discriminate].
  destruct (renderEach_order_and_calls _ _ _ _ _ _ _ _ _ _ H)
    as [(new & Hlog & Hperm) Hes].
  exists svgs, w1. split; [reflexivity|]. split; [apply (Hes svgs eq_refl)|].
  rewrite Hlog, length_app, (Permutation_length Hperm). reflexivity.
Defined.

(** X6: when the artifact of one requested theme is not there at the start
    and the renderer rejects the call for it, the task of the diagram
    reports an error and leaves the document as it is, whatever the other
    themes give: the block is not replaced by a wrapper holding the themes
    that could be rendered or were cached. *)
Theorem processDiagram_one_render_rejected
    (md5_hex : string -> string) (tmpdir : string)
    (path_join : string -> string -> string)
    (run : string -> string -> RunOptions -> gmap string string ->
           gmap string string * option string)
    (fromHtml : string -> list hast) (options : RehypeMermaidOptions)
    (d : Diagram) (theme : Theme) (fs : gmap string string)
    (h : heap) (w : world) :
  theme ∈ renderThemes options ->
  fs !! finalOutput md5_hex tmpdir path_join (dg_diagram d) theme = None ->
  (forall fs',
     (run (inputFile md5_hex tmpdir path_join (dg_diagram d) theme)
          (finalOutput md5_hex tmpdir path_join (dg_diagram d) theme)
          (runOptions md5_hex (dg_diagram d) theme (puppeteerConfig options))
          fs').2 <> None) ->
  exists e w',
    processDiagram md5_hex tmpdir path_join run fromHtml options d
      (startEach md5_hex tmpdir path_join (dg_diagram d) (renderThemes options) fs)
      h w
    = (Some e, h, w').
Proof.
  intros Hin Hfs Hrej. unfold processDiagram.
  destruct (finishEach_rejected md5_hex tmpdir path_join run (dg_diagram d)
              (startEach md5_hex tmpdir path_join (dg_diagram d)
                 (renderThemes options) fs)
              (puppeteerConfig options) theme) with (w := w) as (e & w1 & ->);
    [|exact Hrej | eauto].
  unfold startEach. apply list_elem_of_fmap. exists theme. split; [|exact Hin].
  unfold renderStart, exists_. rewrite Hfs.
  rewrite bool_decide_eq_false_2; [reflexivity | by intros [? ?]].
Qed.

Lemma processDiagram_one_render_rejected_witness :
  let d := {| dg_diagram := "graph TD; A-->B;"; dg_id := "mermaid-5d2f3a8c";
              dg_node := 2%nat; dg_ancestors := [0%nat; 1%nat] |} in
  let options := {| renderThemes := [Default; Dark]; svgClassNames := None;
                    puppeteerConfig := None |} in
  let fs : gmap string string :=
    <["/tmp/mermaid-5d2f3a8c-default.svg" := "<svg default/>"]> ∅ in
  exists e w',
    processDiagram Sample.md5_hex Sample.tmpdir Sample.path_join
      Sample.run_no_dark Sample.fromHtml options d
      (startEach Sample.md5_hex Sample.tmpdir Sample.path_join
         "graph TD; A-->B;" [Default; Dark] fs)
      Sample.doc_pre {| files := fs; invocations := [] |}
    = (Some e, Sample.doc_pre, w').
Proof.
  intros d options fs.
  apply (processDiagram_one_render_rejected Sample.md5_hex Sample.tmpdir
           Sample.path_join Sample.run_no_dark Sample.fromHtml options d Dark fs
           Sample.doc_pre {| files := fs; invocations := [] |}).
  - apply list_elem_of_further, list_elem_of_here.
  - reflexivity.
  - intros fs'. simpl. discriminate.
Defined.

(** ** Rewriter: errors and edges *)

Section RewriterEdges.
Variable fromHtml : string -> list hast.

Lemma parseSvg_empty svg cls :
  fromHtml svg = [] ->
  parseSvg fromHtml svg cls
  = Err (TypeError "Cannot read properties of undefined (reading 'tagName')").
Proof. intros H. unfold parseSvg. by rewrite H. Qed.

Lemma mapiM_themeDiv_empty id cls es : forall i,
  Exists (fun e => fromHtml e.2 = []) es ->
  mapiM (themeDiv fromHtml id cls) i es
  = Err (TypeError "Cannot read properties of undefined (reading 'tagName')").
Proof.
  induction es as [|[theme svg] es IH]; intros i Hex; [by inversion Hex|].
  cbn [mapiM themeDiv].
  destruct (fromHtml svg) as [|t ts] eqn:Hsvg.
  - by rewrite (parseSvg_empty svg cls Hsvg).
  - destruct (parseSvg_ok fromHtml svg cls) as [children ->]; [by rewrite Hsvg|].
    cbn [bind]. rewrite IH; [reflexivity|].
    apply Exists_cons in Hex as [Hhere|Hex]; [|exact Hex].
    simpl in Hhere. congruence.
Qed.

(** What the containers that were built say about the entries. *)
Lemma mapiM_themeDiv_ids id cls es : forall i divs,
  mapiM (themeDiv fromHtml id cls) i es = Ok divs ->
  hprop "id" <$> divs
  = (fun e => Some (PStr ("mermaid-" +:+ theme_name e.1 +:+ "-" +:+ id))) <$> es.
Proof.
  induction es as [|[theme svg] es IH]; intros i divs; cbn [mapiM themeDiv].
  - by intros [= <-].
  - destruct (parseSvg fromHtml svg cls) as [children|e]; [|discriminate].
    cbn [bind].
    destruct (mapiM _ (S i) es) as [ds|e] eqn:Hrest; [|discriminate].
    cbn [bind]. intros [= <-]. rewrite fmap_cons, (IH _ _ Hrest). reflexivity.
Qed.

Lemma locate_no_parent h node ancestors :
  ancestors = None \/ ancestors = Some [] \/
  (exists p ps cs, ancestors = Some [p] /\ h !! p = Some (Element "pre" ps cs)) ->
  locate h node ancestors = None.
Proof.
  intros [->|[->|(p & ps & cs & -> & Hp)]]; try reflexivity.
  unfold locate, resolveTarget. cbn [mbind option_bind length].
  change (js_index [p] (Z.of_nat 1 - 1)) with (Some p). cbv beta iota.
  rewrite Hp. reflexivity.
Qed.
End RewriterEdges.

(** X7: a rewrite throws exactly when one of its artifacts parses to an
    empty fragment, and the error is the TypeError of reading [tagName] of
    [undefined]; this happens before the target is looked up, so it does
    not depend on the document, the node or the ancestors. *)
Theorem applyThemeAST_throws_iff_empty_fragment
    (fromHtml : string -> list hast) (node : loc)
    (svgByTheme : list (Theme * string)) (id : string)
    (ancestors : option (list loc)) (svgClassNames : option (list string))
    (h : heap) :
  (Exists (fun e => fromHtml e.2 = []) svgByTheme ->
   applyThemeAST fromHtml node svgByTheme id ancestors svgClassNames h
   = Err (TypeError "Cannot read properties of undefined (reading 'tagName')")) /\
  (Forall (fun e => fromHtml e.2 <> []) svgByTheme ->
   exists h', applyThemeAST fromHtml node svgByTheme id ancestors svgClassNames h
              = Ok h').
Proof.
  split.
  - intros Hex. unfold applyThemeAST, themeDivs.
    by rewrite (mapiM_themeDiv_empty fromHtml id svgClassNames svgByTheme 0 Hex).
  - intros Hall.
    destruct (themeDivs_ok fromHtml svgByTheme id svgClassNames Hall) as [divs Hd].
    unfold applyThemeAST. rewrite Hd. cbn [bind].
    destruct (locate h node ancestors) as [[[[p n] cs] i]|]; [|eauto].
    destruct (alloc (wrapper divs id) h) as [w h1]. eauto.
Qed.

Lemma applyThemeAST_throws_iff_empty_fragment_witness :
  applyThemeAST Sample.fromHtml 2%nat [(Default, "<svg a/>"); (Dark, "")]
    "mermaid-5d2f3a8c" (Some [0%nat; 1%nat]) None Sample.doc_pre
  = Err (TypeError "Cannot read properties of undefined (reading 'tagName')").
Proof.
  apply (applyThemeAST_throws_iff_empty_fragment Sample.fromHtml 2%nat
           [(Default, "<svg a/>"); (Dark, "")] "mermaid-5d2f3a8c"
           (Some [0%nat; 1%nat]) None Sample.doc_pre).
  apply Exists_cons_tl, Exists_cons_hd. reflexivity.
Defined.

(** X8: called without ancestors, with an empty chain, or for a node
    whose only ancestor is a [pre] element, a rewrite whose artifacts parse
    to nonempty fragments has no splice parent and changes nothing. *)
Theorem applyThemeAST_without_parent
    (fromHtml : string -> list hast) (node : loc)
    (svgByTheme : list (Theme * string)) (id : string)
    (ancestors : option (list loc)) (svgClassNames : option (list string))
    (h : heap) :
  Forall (fun e => fromHtml e.2 <> []) svgByTheme ->
  ancestors = None \/ ancestors = Some [] \/
  (exists p ps cs, ancestors = Some [p] /\ h !! p = Some (Element "pre" ps cs)) ->
  applyThemeAST fromHtml node svgByTheme id ancestors svgClassNames h = Ok h.
Proof.
  intros Hparse Hanc.
  destruct (themeDivs_ok fromHtml svgByTheme id svgClassNames Hparse) as [divs Hd].
  eapply applyThemeAST_skip; [exact Hd | by apply locate_no_parent].
Qed.

Lemma applyThemeAST_without_parent_witness :
  applyThemeAST Sample.fromHtml 2%nat [(Default, "<svg a/>")] "mermaid-5d2f3a8c"
    (Some [1%nat]) None Sample.doc_pre
  = Ok Sample.doc_pre.
Proof.
  apply (applyThemeAST_without_parent Sample.fromHtml 2%nat
           [(Default, "<svg a/>")] "mermaid-5d2f3a8c" (Some [1%nat]) None
           Sample.doc_pre).
  - repeat constructor; discriminate.
  - right. right. exists 1%nat, ∅, [2%nat]. split; reflexivity.
Defined.

Lemma node_children_set_children n cs cs' :
  node_children n = Some cs -> node_children (set_children n cs') = Some cs'.
Proof. destruct n; simpl; intros H; first [discriminate H | reflexivity]. Qed.

Section SpliceFacts.
Variable fromHtml : string -> list hast.

(** A rewrite leaves the store as it is or splices one new object in. *)
Lemma applyThemeAST_spliced node svgByTheme id ancestors cls h h' :
  applyThemeAST fromHtml node svgByTheme id ancestors cls h = Ok h' ->
  h' = h \/
  exists t p i w,
    resolveTarget h node ancestors = (t, Some p) /\ spliced h h' t p i w.
Proof.
  intros Happ. unfold applyThemeAST in Happ.
  destruct (themeDivs fromHtml svgByTheme id cls) as [divs|e] eqn:Hd;
    [|discriminate].
  cbn [bind] in Happ.
  destruct (locate h node ancestors) as [[[[p n] cs] i]|] eqn:Hloc;
    [|injection Happ as <-; by left].
  right.
  destruct (applyThemeAST_effect fromHtml node svgByTheme id ancestors cls h
              divs p n cs i Hd Hloc)
    as (w & h1 & ls & Ha & _ & Hsub & Hnew & Hw & _).
  rewrite Ha in Happ. injection Happ as <-.
  apply locate_Some in Hloc as (t & Hr & Hp & Hn & Hi).
  destruct (indexOf_Some _ _ _ Hi) as [Hat Hmin].
  exists t, p, i, w. split; [exact Hr|]. exists n, cs.
  split; [exact Hp|]. split; [exact Hn|]. split; [exact Hat|].
  split; [exact Hmin|]. split; [exact Hnew|]. split.
  { rewrite lookup_insert_ne by congruence. eauto. }
  split; [apply lookup_insert_eq|].
  intros l x Hl Hx. rewrite lookup_insert_ne by congruence.
  eapply lookup_weaken; eassumption.
Qed.

(** An object of the store that is not among the children of [q] does not
    get there by a splice: what a splice puts in is new. *)
Lemma spliced_absent h h' t p i w target q :
  spliced h h' t p i w ->
  is_Some (h !! target) ->
  (exists n cs, h !! q = Some n /\ node_children n = Some cs /\ target ∉ cs) ->
  is_Some (h' !! target) /\
  exists n cs, h' !! q = Some n /\ node_children n = Some cs /\ target ∉ cs.
Proof.
  intros (n0 & cs0 & Hp & Hn & Hat & Hmin & Hnew & Hw & Hp' & Hframe) [x Hx] Hq.
  split.
  - destruct (decide (target = p)) as [->|Hne]; [rewrite Hp'; eauto|].
    rewrite (Hframe _ _ Hne Hx). eauto.
  - destruct Hq as (n & cs & Hq & Hcs & Hnot).
    destruct (decide (q = p)) as [->|Hne].
    + rewrite Hp in Hq. injection Hq as <-. rewrite Hn in Hcs. injection Hcs as <-.
      eexists _, _. split; [exact Hp'|].
      split; [eapply node_children_set_children, Hn|].
      intros (j & Hj)%list_elem_of_lookup.
      destruct (decide (j = i)) as [->|Hji].
      * rewrite list_lookup_insert_eq in Hj by (eapply lookup_lt_Some, Hat).
        injection Hj as ->. rewrite Hnew in Hx. discriminate.
      * rewrite list_lookup_insert_ne in Hj by congruence.
        apply Hnot. eapply list_elem_of_lookup_2, Hj.
    + exists n, cs. split; [by apply Hframe|]. auto.
Qed.

Lemma rewrites_absent target q : forall h hk,
  rtc (rewrite_step fromHtml) h hk ->
  is_Some (h !! target) ->
  (exists n cs, h !! q = Some n /\ node_children n = Some cs /\ target ∉ cs) ->
  is_Some (hk !! target) /\
  exists n cs, hk !! q = Some n /\ node_children n = Some cs /\ target ∉ cs.
Proof.
  induction 1 as [h|h h1 hk (node & sv & id & anc & cls & Happ) _ IH];
    intros Ht Hq; [by split|].
  apply applyThemeAST_spliced in Happ as [->|(t & p & i & w & _ & Hs)];
    [by apply IH|].
  destruct (spliced_absent _ _ _ _ _ _ target q Hs Ht Hq) as [Ht1 Hq1].
  by apply IH.
Qed.
End SpliceFacts.

(** X9: once a rewrite has replaced a target that occurs once among the
    children of its splice parent, the target never comes back: after any
    number of further rewrites, whatever their arguments, a rewrite that
    resolves to the same target and parent, such as the one of a second
    diagram block in the same [pre], finds nothing to replace and leaves
    the document as it is. *)
Theorem applyThemeAST_same_target_twice
    (fromHtml : string -> list hast) (node : loc)
    (svgByTheme : list (Theme * string)) (id : string)
    (ancestors : option (list loc)) (svgClassNames : option (list string))
    (h h' : heap) (target p : loc) (n : Node) (cs : list loc) (i : nat) :
  Forall (fun e => fromHtml e.2 <> []) svgByTheme ->
  resolveTarget h node ancestors = (target, Some p) ->
  h !! p = Some n ->
  node_children n = Some cs ->
  indexOf target cs = Some i ->
  NoDup cs ->
  is_Some (h !! target) ->
  applyThemeAST fromHtml node svgByTheme id ancestors svgClassNames h = Ok h' ->
  forall hk, rtc (rewrite_step fromHtml) h' hk ->
  forall node' svgByTheme' id' ancestors' svgClassNames',
    Forall (fun e => fromHtml e.2 <> []) svgByTheme' ->
    resolveTarget hk node' ancestors' = (target, Some p) ->
    applyThemeAST fromHtml node' svgByTheme' id' ancestors' svgClassNames' hk
    = Ok hk.
Proof.
  intros Hparse Hres Hp Hn Hi Hnodup [x Hx] Happ hk Hsteps
    node' sv' id' anc' cls' Hparse' Hres'.
  destruct (themeDivs_ok fromHtml svgByTheme id svgClassNames Hparse) as [divs Hd].
  assert (Hloc : locate h node ancestors = Some (p, n, cs, i)).
  { apply locate_Some. exists target. auto. }
  destruct (applyThemeAST_effect fromHtml node svgByTheme id ancestors
              svgClassNames h divs p n cs i Hd Hloc)
    as (w & h1 & ls & _ & Happ' & Hsub & Hnew & _).
  rewrite Happ in Happ'. injection Happ' as ->.
  destruct (indexOf_Some _ _ _ Hi) as [Hat _].
  destruct (rewrites_absent fromHtml target p _ hk Hsteps)
    as (_ & nk & csk & Hpk & Hnk & Hnot).
  { destruct (decide (target = p)) as [->|Hne]; [rewrite lookup_insert_eq; eauto|].
    rewrite lookup_insert_ne by congruence.
    rewrite (lookup_weaken _ _ _ _ Hx Hsub). eauto. }
  { eexists _, _. split; [apply lookup_insert_eq|].
    split; [eapply node_children_set_children, Hn|].
    intros (j & Hj)%list_elem_of_lookup.
    destruct (decide (j = i)) as [->|Hne].
    - rewrite list_lookup_insert_eq in Hj by (eapply lookup_lt_Some, Hat).
      injection Hj as ->. congruence.
    - rewrite list_lookup_insert_ne in Hj by congruence.
      apply Hne. eapply NoDup_lookup; eassumption. }
  destruct (themeDivs_ok fromHtml sv' id' cls' Hparse') as [divs' Hd'].
  eapply applyThemeAST_skip; [exact Hd'|].
  eapply locate_miss; eassumption.
Qed.

(** In [Sample.doc_shared_pre_1], the first block of the shared [pre] has
    been rewritten; a rewrite for an unrelated node runs next, and then the
    one of the second block. *)
Lemma applyThemeAST_same_target_twice_witness :
  exists hk,
    applyThemeAST Sample.fromHtml 3%nat [(Dark, "<svg x/>")] "mermaid-0f1e2d3c"
      (Some [1%nat; 2%nat]) None Sample.doc_shared_pre_1 = Ok hk /\
    hk <> Sample.doc_shared_pre_1 /\
    applyThemeAST Sample.fromHtml 4%nat [(Default, "<svg c/>"); (Dark, "<svg d/>")]
      "mermaid-0f1e2d3c" (Some [0%nat; 1%nat]) (Some ["mx-auto"]) hk
    = Ok hk.
Proof.
  destruct (applyThemeAST Sample.fromHtml 3%nat [(Dark, "<svg x/>")]
              "mermaid-0f1e2d3c" (Some [1%nat; 2%nat]) None
              Sample.doc_shared_pre_1) as [hk|e] eqn:Hk;
    [|vm_compute in Hk; discriminate].
  exists hk. split; [reflexivity|]. split.
  { intros ->. vm_compute in Hk. discriminate Hk. }
  apply (applyThemeAST_same_target_twice Sample.fromHtml 2%nat
           [(Default, "<svg a/>")] "mermaid-5d2f3a8c" (Some [0%nat; 1%nat]) None
           Sample.doc_shared_pre Sample.doc_shared_pre_1
           1%nat 0%nat (Root [1%nat]) [1%nat] 0%nat).
  - repeat constructor; discriminate.
  - reflexivity.
  - reflexivity.
  - reflexivity.
  - reflexivity.
  - repeat constructor. apply not_elem_of_nil.
  - eexists. reflexivity.
  - vm_compute. reflexivity.
  - apply rtc_once. eexists _, _, _, _, _. exact Hk.
  - repeat constructor; discriminate.
  - assert (H1 : hk !! 1%nat = Some (Element "pre" ∅ [2%nat; 4%nat])).
    { vm_compute in Hk. injection Hk as <-. reflexivity. }
    unfold resolveTarget. cbn [mbind option_bind length].
    change (js_index [0%nat; 1%nat] (Z.of_nat 2 - 1)) with (Some 1%nat).
    cbv beta iota. rewrite H1. reflexivity.
Defined.

(** ** Theme containers *)

Lemma dedup_NoDup_keys (l : list Theme) : NoDup (dedup l).
Proof.
  induction l as [|x l IH]; simpl; [constructor|].
  constructor; [|by apply NoDup_filter].
  intros [Hne _]%list_elem_of_filter. by apply Hne.
Qed.

(** X10: in a wrapper built from an [svgByTheme] object, the ids of the
    theme containers are pairwise different and none of them equals the id
    of the wrapper itself. *)
Theorem themeDivs_ids_distinct
    (fromHtml : string -> list hast) (entries : list (Theme * string))
    (id : string) (svgClassNames : option (list string)) (divs : list hast) :
  themeDivs fromHtml (fromEntries entries) id svgClassNames = Ok divs ->
  NoDup (hprop "id" (wrapper divs id) :: (hprop "id" <$> divs)).
Proof.
  intros Hdivs. apply (mapiM_themeDiv_ids fromHtml) in Hdivs. rewrite Hdivs.
  set (f := fun t => Some (PStr ("mermaid-" +:+ theme_name t +:+ "-" +:+ id))).
  change (fun e : Theme * string =>
            Some (PStr ("mermaid-" +:+ theme_name e.1 +:+ "-" +:+ id)))
    with (f ∘ (fst : Theme * string -> Theme)).
  rewrite list_fmap_compose, fromEntries_keys.
  constructor.
  - intros (t & Heq & _)%list_elem_of_fmap. unfold f in Heq. simpl in Heq.
    unfold wrapperProperties in Heq.
    rewrite lookup_insert_ne in Heq by discriminate.
    rewrite lookup_insert_eq in Heq. injection Heq as Heq.
    apply (f_equal String.length) in Heq.
    rewrite !string_length_app in Heq. simpl in Heq. lia.
  - apply NoDup_fmap_2; [|apply dedup_NoDup_keys].
    intros t1 t2 [= Heq]. apply String.app_inj in Heq.
    apply string_app_inj_suffix in Heq as [Heq _]; [|reflexivity].
    by apply theme_name_inj.
Qed.

Lemma themeDivs_ids_distinct_witness :
  exists divs,
    themeDivs Sample.fromHtml
      (fromEntries [(Dark, "<svg a/>"); (Default, "<svg b/>"); (Dark, "<svg c/>")])
      "mermaid-5d2f3a8c" None = Ok divs /\
    NoDup (Some (PStr "mermaid-5d2f3a8c") :: (hprop "id" <$> divs)).
Proof.
  destruct (themeDivs Sample.fromHtml
              (fromEntries [(Dark, "<svg a/>"); (Default, "<svg b/>");
                            (Dark, "<svg c/>")])
              "mermaid-5d2f3a8c" None) as [divs|e] eqn:H;
    [|vm_compute in H; discriminate].
  exists divs. split; [reflexivity|].
  exact (themeDivs_ids_distinct _ _ _ _ _ H).
Defined.

(** ** Tree walker: the ids *)

Lemma NoDup_fmap_eq {A B} (f : A -> B) (l : list A) (x y : A) :
  NoDup (f <$> l) -> x ∈ l -> y ∈ l -> f x = f y -> x = y.
Proof.
  induction l as [|a l IH]; intros Hnd Hx Hy Hf; [by apply elem_of_nil in Hx|].
  rewrite fmap_cons in Hnd. apply NoDup_cons in Hnd as [Ha Hnd].
  apply elem_of_cons in Hx as [->|Hx]; apply elem_of_cons in Hy as [->|Hy].
  - reflexivity.
  - destruct Ha. rewrite Hf. by apply list_elem_of_fmap_2.
  - destruct Ha. rewrite <- Hf. by apply list_elem_of_fmap_2.
  - by apply IH.
Qed.

Section WalkerIds.
Variable md5_hex : string -> string.
Variable toText : heap -> loc -> string.

Local Abbreviation visit := (visitParents md5_hex toText).

Lemma visitor_ids l anc h ds h1 ds1 :
  ids_ok md5_hex h ds ->
  visitor md5_hex toText l anc (h, ds) = (h1, ds1) ->
  ids_ok md5_hex h1 ds1.
Proof.
  intros Hok. unfold visitor.
  destruct (h !! l) as [[|tag ps cs| | |]|] eqn:Hl; try (by intros [= <- <-]).
  destruct (isMermaid (Element tag ps cs)); [|by intros [= <- <-]].
  intros [= <- <-]. intros d [Hd| ->%list_elem_of_singleton]%elem_of_app.
  - destruct (Hok d Hd) as (Hid & tag' & ps' & cs' & d' & Hd' & Hnode & Hn & Hp).
    split; [exact Hid|]. destruct (decide (dg_node d = l)) as [Heq|Hne].
    + eexists tag, _, cs, _. split; [apply elem_of_app; right; apply list_elem_of_here|].
      split; [symmetry; exact Heq|]. rewrite Heq, lookup_insert_eq.
      split; [reflexivity | apply lookup_insert_eq].
    + exists tag', ps', cs', d'. split; [apply elem_of_app; by left|].
      split; [exact Hnode|]. rewrite lookup_insert_ne by congruence. by split.
  - split; [reflexivity|]. cbn [dg_node dg_id dg_diagram].
    eexists tag, _, cs, _. split; [apply elem_of_app; right; apply list_elem_of_here|].
    split; [reflexivity|]. rewrite lookup_insert_eq.
    split; [reflexivity | apply lookup_insert_eq].
Qed.

Lemma visitParents_ids fuel : forall l anc h ds h1 ds1,
  ids_ok md5_hex h ds ->
  visit fuel l anc (h, ds) = Some (h1, ds1) ->
  ids_ok md5_hex h1 ds1.
Proof.
  induction fuel as [|fuel IH]; intros l anc h ds h1 ds1 Hok; [discriminate|].
  cbn [visitParents].
  destruct (visitor md5_hex toText l anc (h, ds)) as [h' ds'] eqn:Hv.
  pose proof (visitor_ids l anc h ds h' ds' Hok Hv) as Hok'.
  cbn [fst]. destruct (h' !! l ≫= node_children) as [cs|];
    [|intros [= <- <-]; exact Hok'].
  clear Hv. revert h' ds' Hok'.
  induction cs as [|c cs IHcs]; intros h' ds' Hok'; [intros [= <- <-]; exact Hok'|].
  cbn [foldl mbind option_bind].
  destruct (visit fuel c (anc ++ [l]) (h', ds')) as [[h2 ds2]|] eqn:Hc;
    [|rewrite foldl_visit_None; discriminate].
  apply IHcs. eapply IH; [exact Hok' | exact Hc].
Qed.
End WalkerIds.

(** X11: after the walk, every recorded entry has the id computed from its
    own text, so that entries with equal texts have equal ids, and its node
    is an element that carries the id of an entry recorded for that node:
    its own id when no node is recorded twice. *)
Theorem visitParents_assigns_ids
    (md5_hex : string -> string) (toText : heap -> loc -> string)
    (fuel : nat) (ast : loc) (h h1 : heap) (diagrams : list Diagram)
    (d : Diagram) :
  visitParents md5_hex toText fuel ast [] (h, []) = Some (h1, diagrams) ->
  d ∈ diagrams ->
  dg_id d = getDiagramId md5_hex (dg_diagram d) /\
  (forall d2, d2 ∈ diagrams -> dg_diagram d2 = dg_diagram d -> dg_id d2 = dg_id d) /\
  exists tag ps cs v,
    h1 !! dg_node d = Some (Element tag ps cs) /\
    ps !! "id" = Some (PStr v) /\
    (NoDup (dg_node <$> diagrams) -> v = dg_id d).
Proof.
  intros Hvisit Hd.
  assert (Hok : ids_ok md5_hex h1 diagrams).
  { eapply visitParents_ids; [|exact Hvisit]. intros d0 Hd0.
    by apply elem_of_nil in Hd0. }
  destruct (Hok d Hd) as (Hid & tag & ps & cs & d' & Hd' & Hnode & Hn & Hp).
  split; [exact Hid|]. split.
  - intros d2 Hd2 Htext. destruct (Hok d2 Hd2) as [Hid2 _].
    by rewrite Hid, Hid2, Htext.
  - exists tag, ps, cs, (dg_id d'). split; [exact Hn|]. split; [exact Hp|].
    intros Hnd. f_equal. eapply NoDup_fmap_eq; eassumption.
Qed.

Lemma visitParents_assigns_ids_witness :
  exists h1 d1 d2,
    visitParents Sample.md5_hex Sample.toText 4 0%nat [] (Sample.doc_shared_pre, [])
    = Some (h1, [d1; d2]) /\
    dg_id d1 = "mermaid-5d2f3a8c" /\ dg_id d2 = "mermaid-0f1e2d3c" /\
    exists tag ps cs,
      h1 !! dg_node d2 = Some (Element tag ps cs) /\
      ps !! "id" = Some (PStr (dg_id d2)).
Proof.
  destruct (visitParents Sample.md5_hex Sample.toText 4 0%nat []
              (Sample.doc_shared_pre, [])) as [[h1 diagrams]|] eqn:Hvisit;
    [|vm_compute in Hvisit; discriminate].
  assert (Hd : exists d1 d2, diagrams = [d1; d2] /\
                 dg_id d1 = "mermaid-5d2f3a8c" /\ dg_id d2 = "mermaid-0f1e2d3c" /\
                 dg_node d1 = 2%nat /\ dg_node d2 = 4%nat).
  { vm_compute in Hvisit. injection Hvisit as <- <-.
    eexists _, _. repeat split. }
  destruct Hd as (d1 & d2 & -> & Hid1 & Hid2 & Hn1 & Hn2).
  exists h1, d1, d2. split; [reflexivity|]. split; [exact Hid1|].
  split; [exact Hid2|].
  destruct (visitParents_assigns_ids Sample.md5_hex Sample.toText 4 0%nat
              Sample.doc_shared_pre h1 [d1; d2] d2 Hvisit)
    as (_ & _ & tag & ps & cs & v & Hn & Hp & Hv);
    [apply list_elem_of_further, list_elem_of_here|].
  exists tag, ps, cs. split; [exact Hn|]. rewrite Hp, Hv; [reflexivity|].
  cbn [fmap list_fmap]. rewrite Hn1, Hn2.
  repeat constructor; [|apply not_elem_of_nil].
  intros H%list_elem_of_singleton. discriminate H.
Defined.

(** ** What the walk and the transformation keep *)

(** X12: the walk creates and deletes no object and changes no children
    list; an object that is not a diagram block comes out as it went in,
    and a diagram block keeps its tag, its children and every property
    other than [id]. *)
Theorem visitParents_only_adds_ids
    (md5_hex : string -> string) (toText : heap -> loc -> string)
    (fuel : nat) (ast : loc) (h h1 : heap) (diagrams : list Diagram) (x : loc) :
  visitParents md5_hex toText fuel ast [] (h, []) = Some (h1, diagrams) ->
  (h !! x = None -> h1 !! x = None) /\
  (forall n, h !! x = Some n ->
     exists n1,
       h1 !! x = Some n1 /\
       node_children n1 = node_children n /\
       (isMermaid n = false -> n1 = n) /\
       (forall tag ps cs, n = Element tag ps cs ->
          exists ps1, n1 = Element tag ps1 cs /\
                      forall key, key <> "id" -> ps1 !! key = ps !! key)).
Proof.
  intros Hvisit.
  pose proof (visitParents_upd md5_hex toText h fuel ast [] h [] h1 diagrams
                (upd_refl h) Hvisit) as Hu.
  split.
  - intros Hx. specialize (Hu x). rewrite Hx in Hu. by inversion Hu.
  - intros n Hn. destruct (upd_lookup _ _ _ _ Hu Hn) as (n1 & Hn1 & Ht).
    exists n1. split; [exact Hn1|]. split; [by apply tagged_children|].
    split; [by apply tagged_plain|].
    intros tag ps cs ->.
    destruct Ht as [->|(_ & tag' & ps' & cs' & v & [= <- <- <-] & ->)].
    + exists ps. by split.
    + eexists. split; [reflexivity|]. intros key Hkey.
      by rewrite lookup_insert_ne.
Qed.

Lemma visitParents_only_adds_ids_witness :
  exists h1 diagrams,
    visitParents Sample.md5_hex Sample.toText 4 0%nat [] (Sample.doc_mixed, [])
    = Some (h1, diagrams) /\
    h1 !! 2%nat = Some (Element "code" Sample.jsProps [3%nat]) /\
    exists ps1,
      h1 !! 5%nat = Some (Element "code" ps1 [6%nat]) /\
      ps1 !! "className" = Some (PList ["language-mermaid"]).
Proof.
  destruct (visitParents Sample.md5_hex Sample.toText 4 0%nat []
              (Sample.doc_mixed, [])) as [[h1 diagrams]|] eqn:Hvisit;
    [|vm_compute in Hvisit; discriminate].
  exists h1, diagrams. split; [reflexivity|].
  destruct (visitParents_only_adds_ids _ _ _ _ _ _ _ 2%nat Hvisit) as [_ H2].
  destruct (H2 _ eq_refl) as (n2 & Hn2 & _ & Hsame & _).
  destruct (visitParents_only_adds_ids _ _ _ _ _ _ _ 5%nat Hvisit) as [_ H5].
  destruct (H5 _ eq_refl) as (n5 & Hn5 & _ & _ & Hel).
  destruct (Hel _ _ _ eq_refl) as (ps1 & -> & Hps).
  split; [rewrite Hn2, Hsame; reflexivity|].
  exists ps1. split; [exact Hn5|]. rewrite Hps; [reflexivity | discriminate].
Defined.

Lemma set_children_self n : exists cs, set_children n cs = n.
Proof.
  destruct n as [cs|tag ps cs|v|v|];
    [by exists cs | by exists cs | by exists [] ..].
Qed.

Lemma set_children_twice n cs cs' :
  set_children (set_children n cs) cs' = set_children n cs'.
Proof. by destruct n. Qed.

Lemma same_label_tagged n n1 cs : tagged n n1 -> same_label n (set_children n1 cs).
Proof.
  intros [->|(Hm & tag & ps & cs0 & v & -> & ->)].
  - destruct n; simpl; auto.
  - simpl. split; [reflexivity|]. right. split; [exact Hm | eauto].
Qed.

Section TransformKeeps.
Variable md5_hex : string -> string.
Variable tmpdir : string.
Variable path_join : string -> string -> string.
Variable run : string -> string -> RunOptions -> gmap string string ->
               gmap string string * option string.
Variable fromHtml : string -> list hast.

Local Abbreviation tasksRun :=
  (runTasks md5_hex tmpdir path_join run fromHtml).

(** A rewrite changes of an existing object at most its children. *)
Lemma applyThemeAST_reshapes node svgByTheme id ancestors cls h h' x n :
  applyThemeAST fromHtml node svgByTheme id ancestors cls h = Ok h' ->
  h !! x = Some n ->
  exists cs, h' !! x = Some (set_children n cs).
Proof.
  intros Happ Hx. unfold applyThemeAST in Happ.
  destruct (themeDivs fromHtml svgByTheme id cls) as [divs|e]; [|discriminate].
  cbn [bind] in Happ.
  destruct (locate h node ancestors) as [[[[p m] cs] i]|] eqn:Hloc.
  - apply locate_Some in Hloc as (target & _ & Hp & _).
    pose proof (alloc_subseteq (wrapper divs id) h) as Hsub.
    destruct (alloc (wrapper divs id) h) as [w h1]. injection Happ as <-.
    destruct (decide (x = p)) as [->|Hne].
    + rewrite Hp in Hx. injection Hx as <-. eexists. apply lookup_insert_eq.
    + destruct (set_children_self n) as [cs' Hcs']. exists cs'.
      rewrite Hcs', lookup_insert_ne by congruence.
      eapply lookup_weaken; [exact Hx | exact Hsub].
  - injection Happ as <-. destruct (set_children_self n) as [cs' Hcs'].
    exists cs'. by rewrite Hcs'.
Qed.

Lemma runTasks_reshapes options tasks x n seen h w :
  h !! x = Some n ->
  exists cs, (tasksRun options tasks (seen, h, w)).1.2 !! x = Some (set_children n cs).
Proof.
  intros Hx.
  apply (runTasks_heap_ind md5_hex tmpdir path_join run fromHtml
           (fun h => exists cs, h !! x = Some (set_children n cs))).
  - intros d started sv h2 h2' _ [cs Hx2] Happ.
    destruct (applyThemeAST_reshapes _ _ _ _ _ _ _ _ _ Happ Hx2) as [cs' Hx'].
    exists cs'. by rewrite Hx', set_children_twice.
  - destruct (set_children_self n) as [cs Hcs]. exists cs. by rewrite Hcs.
Qed.
End TransformKeeps.

(** X13: the transformation removes no object from the store and changes
    no object's kind, tag or text, whatever the renderer does and in
    whatever order the diagrams are handled: the root stays a root, a [pre]
    stays a [pre], properties change only by the [id] put on diagram
    blocks, and everything else it changes is a children list. *)
Theorem rehypeMermaidCLI_keeps_labels
    (md5_hex : string -> string) (tmpdir : string)
    (path_join : string -> string -> string)
    (run : string -> string -> RunOptions -> gmap string string ->
           gmap string string * option string)
    (fromHtml : string -> list hast) (toText : heap -> loc -> string)
    (_options : option RehypeMermaidOptions) (fuel : nat) (order : list nat)
    (ast : loc) (h : heap) (w : world) (out : option error * heap * world)
    (x : loc) (n : Node) :
  rehypeMermaidCLI md5_hex tmpdir path_join run fromHtml toText
    _options fuel order ast h w = Some out ->
  h !! x = Some n ->
  exists n', out.1.2 !! x = Some n' /\ same_label n n'.
Proof.
  unfold rehypeMermaidCLI.
  destruct (visitParents md5_hex toText fuel ast [] (h, []))
    as [[h1 diagrams]|] eqn:Hvisit; [|discriminate].
  cbn [mbind option_bind]. intros [= <-] Hx.
  pose proof (visitParents_upd md5_hex toText h fuel ast [] h [] h1 diagrams
                (upd_refl h) Hvisit) as Hu.
  destruct (upd_lookup _ _ _ _ Hu Hx) as (n1 & Hn1 & Ht).
  destruct (runTasks_reshapes md5_hex tmpdir path_join run fromHtml
              (default defaultOptions _options)
              (omap (fun i => (((fun d => (d, startEach md5_hex tmpdir path_join
                                                (dg_diagram d)
                                                (renderThemes (default defaultOptions _options))
                                                (files w))) <$> diagrams) !! i))
                    (schedule order
                       (length ((fun d => (d, startEach md5_hex tmpdir path_join
                                                (dg_diagram d)
                                                (renderThemes (default defaultOptions _options))
                                                (files w))) <$> diagrams))))
              x n1 None h1 w Hn1)
    as [cs Hout].
  eexists. split; [exact Hout|]. by apply same_label_tagged.
Qed.

Lemma rehypeMermaidCLI_keeps_labels_witness :
  exists out children ps cs,
    rehypeMermaidCLI Sample.md5_hex Sample.tmpdir Sample.path_join Sample.run
      Sample.fromHtml Sample.toText None 4 [0%nat] 0%nat Sample.doc_pre
      Sample.world0 = Some out /\
    out.1.2 !! 0%nat = Some (Root children) /\
    out.1.2 !! 1%nat = Some (Element "pre" ps cs) /\
    out.1.2 !! 3%nat = Some (Text "graph TD; A-->B;").
Proof.
  destruct (rehypeMermaidCLI Sample.md5_hex Sample.tmpdir Sample.path_join
              Sample.run Sample.fromHtml Sample.toText None 4 [0%nat] 0%nat
              Sample.doc_pre Sample.world0) as [out|] eqn:Hout;
    [|vm_compute in Hout; discriminate].
  destruct (rehypeMermaidCLI_keeps_labels _ _ _ _ _ _ _ _ _ _ _ _ _ 0%nat
              (Root [1%nat]) Hout eq_refl) as ([children| | | |] & H0 & L0);
    try (exfalso; exact L0).
  destruct (rehypeMermaidCLI_keeps_labels _ _ _ _ _ _ _ _ _ _ _ _ _ 1%nat
              (Element "pre" ∅ [2%nat]) Hout eq_refl)
    as ([|tag ps cs| | |] & H1 & L1); try (exfalso; exact L1).
  destruct L1 as [-> _].
  destruct (rehypeMermaidCLI_keeps_labels _ _ _ _ _ _ _ _ _ _ _ _ _ 3%nat
              (Text "graph TD; A-->B;") Hout eq_refl)
    as ([| |v| |] & H3 & L3); try (exfalso; exact L3).
  simpl in L3. subst v.
  exists out, children, ps, cs. split; [reflexivity|]. auto.
Defined.

(** ** Documents without diagram blocks *)

Section WalkerNothing.
Variable md5_hex : string -> string.
Variable toText : heap -> loc -> string.

Local Abbreviation visit := (visitParents md5_hex toText).

(** The visitor changes the store only when it records an entry. *)
Lemma visitor_grows l anc h ds h1 ds1 :
  visitor md5_hex toText l anc (h, ds) = (h1, ds1) ->
  (h1 = h /\ ds1 = ds) \/ (length ds < length ds1)%nat.
Proof.
  unfold visitor.
  destruct (h !! l) as [[|tag ps cs| | |]|]; try (intros [= <- <-]; by left).
  destruct (isMermaid _); intros [= <- <-]; [right | by left].
  rewrite length_app. simpl. lia.
Qed.

Lemma visitParents_grows fuel : forall l anc h ds h1 ds1,
  visit fuel l anc (h, ds) = Some (h1, ds1) ->
  (h1 = h /\ ds1 = ds) \/ (length ds < length ds1)%nat.
Proof.
  induction fuel as [|fuel IH]; intros l anc h ds h1 ds1; [discriminate|].
  cbn [visitParents].
  destruct (visitor md5_hex toText l anc (h, ds)) as [h' ds'] eqn:Hv.
  apply visitor_grows in Hv. cbn [fst].
  destruct (h' !! l ≫= node_children) as [cs|]; [|by intros [= <- <-]].
  assert (Hgen : forall cs h2 ds2,
            ((h2 = h /\ ds2 = ds) \/ (length ds < length ds2)%nat) ->
            foldl (fun acc child => acc ≫= visit fuel child (anc ++ [l]))
                  (Some (h2, ds2)) cs = Some (h1, ds1) ->
            (h1 = h /\ ds1 = ds) \/ (length ds < length ds1)%nat).
  { clear cs Hv. induction cs as [|c cs IHcs]; intros h2 ds2 H2.
    - by intros [= <- <-].
    - cbn [foldl mbind option_bind].
      destruct (visit fuel c (anc ++ [l]) (h2, ds2)) as [[h3 ds3]|] eqn:Hc;
        [|rewrite foldl_visit_None; discriminate].
      apply IHcs. apply IH in Hc.
      destruct Hc as [[-> ->]|Hc]; [exact H2|].
      right. destruct H2 as [[_ ->]|H2]; lia. }
  apply Hgen. exact Hv.
Qed.
End WalkerNothing.

(** X15: a document that is a finite tree without any diagram block passes
    through the plugin as it is: the transformation ends without an error,
    the whole store is the same, no file is written and the renderer is
    not called, whatever the options are. *)
Theorem rehypeMermaidCLI_no_diagram
    (md5_hex : string -> string) (tmpdir : string)
    (path_join : string -> string -> string)
    (run : string -> string -> RunOptions -> gmap string string ->
           gmap string string * option string)
    (fromHtml : string -> list hast) (toText : heap -> loc -> string)
    (_options : option RehypeMermaidOptions) (fuel : nat) (order : list nat)
    (ast : loc) (h : heap) (w : world) :
  bounded h fuel ast ->
  (forall x n, reach h ast x -> h !! x = Some n -> isMermaid n = false) ->
  rehypeMermaidCLI md5_hex tmpdir path_join run fromHtml toText
    _options fuel order ast h w = Some (None, h, w).
Proof.
  intros Hb Hplain. unfold rehypeMermaidCLI.
  destruct (visitParents_total md5_hex toText h fuel ast [] h []
              (upd_refl h) Hb) as [[h1 diagrams] Hvisit].
  rewrite Hvisit. cbn [mbind option_bind].
  destruct (visitParents_walk_ok md5_hex toText h fuel ast [] h [] h1 diagrams
              (upd_refl h)) as (_ & new & Hnew & Hsound & _);
    [intros a Ha; by apply elem_of_nil in Ha | discriminate | exact Hvisit |].
  simpl in Hnew. subst new.
  assert (Hnone : diagrams = []).
  { destruct diagrams as [|d ds]; [reflexivity|].
    destruct (Hsound d (list_elem_of_here _ _)) as ((n & Hn & Hm) & Hr & _).
    rewrite (Hplain _ _ Hr Hn) in Hm. discriminate. }
  subst diagrams.
  destruct (visitParents_grows md5_hex toText _ _ _ _ _ _ _ Hvisit)
    as [[-> _]|Hlt]; [|simpl in Hlt; lia].
  cbn [fmap list_fmap length]. unfold schedule. cbn [seq filter list_filter app].
  rewrite app_nil_r.
  assert (Hjobs : forall js : list nat,
            omap (fun i : nat =>
                    ([] : list (Diagram * list (Theme * bool))) !! i) js = []).
  { induction js as [|i js IH]; [reflexivity | exact IH]. }
  rewrite Hjobs. reflexivity.
Qed.

Lemma rehypeMermaidCLI_no_diagram_witness :
  let h : heap :=
    <[0%nat := Root [1%nat]]>
    (<[1%nat := Element "pre" ∅ [2%nat]]>
    (<[2%nat := Element "code" Sample.jsProps [3%nat]]>
    (<[3%nat := Text "console.log('hello');"]> ∅))) in
  rehypeMermaidCLI Sample.md5_hex Sample.tmpdir Sample.path_join
    Sample.run_partial Sample.fromHtml Sample.toText None 4 [0%nat] 0%nat
    h Sample.world0
  = Some (None, h, Sample.world0).
Proof.
  intros h.
  assert (H0 : h !! 0%nat = Some (Root [1%nat])) by reflexivity.
  assert (H1 : h !! 1%nat = Some (Element "pre" ∅ [2%nat])) by reflexivity.
  assert (H2 : h !! 2%nat = Some (Element "code" Sample.jsProps [3%nat]))
    by reflexivity.
  assert (H3 : h !! 3%nat = Some (Text "console.log('hello');")) by reflexivity.
  apply (rehypeMermaidCLI_no_diagram Sample.md5_hex Sample.tmpdir
           Sample.path_join Sample.run_partial Sample.fromHtml Sample.toText
           None 4 [0%nat] 0%nat h Sample.world0).
  - eapply bounded_node; [by rewrite H0|].
    intros c ->%list_elem_of_singleton.
    eapply bounded_node; [by rewrite H1|].
    intros c ->%list_elem_of_singleton.
    eapply bounded_node; [by rewrite H2|].
    intros c ->%list_elem_of_singleton.
    apply bounded_leaf. by rewrite H3.
  - assert (Hstep : forall a b m cs x n,
              h !! a = Some m -> node_children m = Some cs -> cs = [b] ->
              isMermaid m = false ->
              (reach h b x -> h !! x = Some n -> isMermaid n = false) ->
              reach h a x -> h !! x = Some n -> isMermaid n = false).
    { intros a b m cs x n Ha Hcs -> Hm Hbelow Hx Hn.
      apply rtc_inv in Hx as [<-|(c & (m' & cs' & Hm' & Hcs' & Hc) & Hx)].
      - rewrite Ha in Hn. by injection Hn as <-.
      - rewrite Ha in Hm'. injection Hm' as <-. rewrite Hcs in Hcs'.
        injection Hcs' as <-. apply list_elem_of_singleton in Hc as ->.
        by apply Hbelow. }
    intros x n.
    eapply (Hstep 0%nat 1%nat); [exact H0 | reflexivity.. |].
    eapply (Hstep 1%nat 2%nat); [exact H1 | reflexivity.. |].
    eapply (Hstep 2%nat 3%nat); [exact H2 | reflexivity.. |].
    intros Hx Hn.
    apply rtc_inv in Hx as [<-|(c & (m' & cs' & Hm' & Hcs' & _) & _)].
    + rewrite H3 in Hn. by injection Hn as <-.
    + rewrite H3 in Hm'. injection Hm' as <-. discriminate Hcs'.
Defined.

(** ** The earlier copy of [parseSvg] *)

(** X14: the earlier copy of [parseSvg] does what the current one does
    when it is given [svgClassNames = ["mx-auto"]]; on markup whose root is
    an [svg] element it therefore never agrees with the current default,
    which returns the fragment as parsed. *)
Theorem legacy_parseSvg_vs_current
    (fromHtml : string -> list hast) (svgContent : string) :
  Legacy.parseSvg fromHtml svgContent
  = parseSvg fromHtml svgContent (Some ["mx-auto"]) /\
  (forall properties children rest,
     fromHtml svgContent = HElement "svg" properties children :: rest ->
     parseSvg fromHtml svgContent None
     = Ok (HElement "svg" properties children :: rest) /\
     Legacy.parseSvg fromHtml svgContent <> parseSvg fromHtml svgContent None).
Proof.
  split; [apply legacy_parseSvg_mx_auto|].
  intros ps cs rest Hparse. unfold Legacy.parseSvg, parseSvg. rewrite Hparse.
  split; [reflexivity|]. simpl. intros [= Heq].
  apply (f_equal (fun m : props => classTokens (m !! "className"))) in Heq.
  rewrite lookup_insert_eq in Heq. simpl in Heq.
  apply (f_equal length) in Heq. rewrite length_app in Heq. simpl in Heq. lia.
Qed.

Lemma legacy_parseSvg_vs_current_witness :
  Legacy.parseSvg Sample.fromHtml "<svg class='flowchart'></svg>"
  <> parseSvg Sample.fromHtml "<svg class='flowchart'></svg>" None.
Proof.
  destruct (legacy_parseSvg_vs_current Sample.fromHtml
              "<svg class='flowchart'></svg>") as [_ H].
  destruct (H (<["className" := PList ["flowchart"]]> ∅) [] [] eq_refl)
    as [_ Hne].
  exact Hne.
Defined.

(** * The transformation as a whole *)

(** ** The order of the tasks *)

Lemma schedule_NoDup order n : NoDup (schedule order n).
Proof.
  unfold schedule. apply NoDup_app. split; [apply NoDup_remove_dups|]. split.
  - intros x Hx [Hnot _]%list_elem_of_filter. by apply Hnot.
  - apply NoDup_filter, NoDup_seq.
Qed.

(** Every position comes up, and nothing else. *)
Lemma schedule_elem_of order n i : i ∈ schedule order n <-> (i < n)%nat.
Proof.
  unfold schedule.
  set (named := remove_dups (filter (fun i => (i < n)%nat) order)).
  rewrite elem_of_app, list_elem_of_filter, elem_of_seq. split.
  - intros [Hin|[_ Hi]]; [|lia].
    apply elem_of_remove_dups, list_elem_of_filter in Hin as [Hi _]. exact Hi.
  - intros Hi. destruct (decide (i ∈ named)) as [Hin|Hnot]; [by left|].
    right. split; [exact Hnot | lia].
Qed.

(** Every task runs exactly once. *)
Lemma schedule_Permutation order n : schedule order n ≡ₚ seq 0 n.
Proof.
  apply NoDup_Permutation; [apply schedule_NoDup | apply NoDup_seq|].
  intros i. rewrite schedule_elem_of, elem_of_seq. lia.
Qed.

Lemma jobs_elem_of {A B} (f : A -> B) (l : list A) (js : list nat) (y : B) :
  y ∈ omap (fun i => (f <$> l) !! i) js ->
  exists i x, i ∈ js /\ l !! i = Some x /\ y = f x.
Proof.
  intros (i & Hi & Hy)%list_elem_of_omap. rewrite list_lookup_fmap in Hy.
  destruct (l !! i) as [x|] eqn:Hx; [|discriminate].
  injection Hy as <-. eauto.
Qed.

(** ** The ancestors recorded by the walk are a way down the document *)

Lemma chain_snoc h xs a b :
  chain h (xs ++ [a]) -> child_of h a b -> chain h ((xs ++ [a]) ++ [b]).
Proof.
  intros Hc Hab k x y Hx Hy.
  destruct (decide (S k < length (xs ++ [a]))%nat) as [Hlt|Hge].
  - rewrite lookup_app_l in Hx by lia. rewrite lookup_app_l in Hy by lia.
    eapply Hc; eassumption.
  - pose proof (lookup_lt_Some _ _ _ Hy) as Hlen.
    repeat rewrite length_app in Hlen. rewrite length_app in Hge.
    simpl in Hlen, Hge.
    assert (k = length xs) as -> by lia.
    rewrite lookup_app_l in Hx by (rewrite length_app; simpl; lia).
    rewrite list_lookup_middle in Hx by reflexivity. injection Hx as <-.
    rewrite lookup_app_r in Hy by (rewrite length_app; simpl; lia).
    rewrite length_app in Hy. simpl in Hy.
    replace (S (length xs) - (length xs + 1))%nat with 0%nat in Hy by lia.
    injection Hy as <-. exact Hab.
Qed.

Lemma chain_singleton h a : chain h [a].
Proof. intros k x y Hx Hy. destruct k; discriminate Hy. Qed.

Section WalkerChains.
Variable md5_hex : string -> string.
Variable toText : heap -> loc -> string.
Variable h0 : heap.

Local Abbreviation visit := (visitParents md5_hex toText).

Lemma visitor_chain l anc h ds h1 ds1 :
  chain h0 (anc ++ [l]) ->
  (forall d, d ∈ ds -> chain h0 (dg_ancestors d ++ [dg_node d])) ->
  visitor md5_hex toText l anc (h, ds) = (h1, ds1) ->
  forall d, d ∈ ds1 -> chain h0 (dg_ancestors d ++ [dg_node d]).
Proof.
  intros Hc Hds. unfold visitor.
  destruct (h !! l) as [[|tag ps cs| | |]|]; try (by intros [= <- <-]).
  destruct (isMermaid _); [|by intros [= <- <-]].
  intros [= <- <-] d [Hd| ->%list_elem_of_singleton]%elem_of_app;
    [by apply Hds | exact Hc].
Qed.

Lemma visitParents_chain fuel : forall l anc h ds h1 ds1,
  upd h0 h ->
  chain h0 (anc ++ [l]) ->
  (forall d, d ∈ ds -> chain h0 (dg_ancestors d ++ [dg_node d])) ->
  visit fuel l anc (h, ds) = Some (h1, ds1) ->
  forall d, d ∈ ds1 -> chain h0 (dg_ancestors d ++ [dg_node d]).
Proof.
  induction fuel as [|fuel IH]; intros l anc h ds h1 ds1 Hu Hc Hds;
    [discriminate|].
  cbn [visitParents].
  destruct (visitor md5_hex toText l anc (h, ds)) as [h' ds'] eqn:Hv.
  pose proof (visitor_chain l anc h ds h' ds' Hc Hds Hv) as Hds'.
  destruct (visitor_spec md5_hex toText h0 l anc h ds h' ds' Hu Hv) as [Hu' _].
  cbn [fst]. rewrite (upd_children _ _ l Hu').
  destruct (h0 !! l ≫= node_children) as [cs|] eqn:Hcs;
    [|by intros [= <- <-]].
  assert (Hall : forall c, c ∈ cs -> child_of h0 l c).
  { intros c Hin. by eapply child_of_children. }
  clear Hv Hcs Hds. revert h' ds' Hu' Hds'.
  induction cs as [|c cs IHcs]; intros h' ds' Hu' Hds'; [by intros [= <- <-]|].
  cbn [foldl mbind option_bind].
  destruct (visit fuel c (anc ++ [l]) (h', ds')) as [[h2 ds2]|] eqn:Hch;
    [|rewrite foldl_visit_None; discriminate].
  apply IHcs.
  - intros c' Hc'. by apply Hall, list_elem_of_further.
  - eapply visitParents_upd; [exact Hu' | exact Hch].
  - eapply IH; [exact Hu' | | exact Hds' | exact Hch].
    apply chain_snoc; [exact Hc | apply Hall, list_elem_of_here].
Qed.
End WalkerChains.

(** ** What the rewrites keep *)

Lemma same_label_set_children n n' cs :
  same_label n n' -> same_label n (set_children n' cs).
Proof. destruct n, n'; simpl; auto. Qed.

Lemma keeps_upd h h1 : upd h h1 -> keeps h h1.
Proof.
  intros Hu a n Ha. destruct (upd_lookup _ _ _ _ Hu Ha) as (n1 & Hn1 & Ht).
  exists n1. split; [exact Hn1|]. split.
  - destruct (set_children_self n1) as [cs Hcs]. rewrite <- Hcs.
    by apply same_label_tagged.
  - intros cs j b Hcs Hj _. exists cs. split; [|exact Hj].
    by rewrite (tagged_children _ _ Ht).
Qed.

Lemma keeps_is_Some h hc a : keeps h hc -> is_Some (h !! a) -> is_Some (hc !! a).
Proof. intros Hk [n Hn]. destruct (Hk a n Hn) as (n' & Hn' & _). eauto. Qed.

Lemma replaceable_is_Some h t : replaceable h t = true -> is_Some (h !! t).
Proof. unfold replaceable. destruct (h !! t); [eauto | discriminate]. Qed.

(** A splice of a replaceable object keeps the others where they are. *)
Lemma keeps_spliced h hc hc' t p i w :
  keeps h hc -> spliced hc hc' t p i w -> replaceable h t = true -> keeps h hc'.
Proof.
  intros Hk (n0 & cs0 & Hp & Hn & Hat & Hmin & Hnew & Hw & Hp' & Hframe) Ht a n Ha.
  destruct (Hk a n Ha) as (n' & Ha' & Hl & Hslots).
  destruct (decide (a = p)) as [->|Hne].
  - rewrite Hp in Ha'. injection Ha' as <-.
    exists (set_children n0 (<[i := w]> cs0)). split; [exact Hp'|].
    split; [by apply same_label_set_children|].
    intros cs j b Hcs Hj Hb.
    destruct (Hslots cs j b Hcs Hj Hb) as (cs' & Hcs' & Hj').
    rewrite Hn in Hcs'. injection Hcs' as <-.
    eexists. split; [eapply node_children_set_children, Hn|].
    rewrite list_lookup_insert_ne; [exact Hj'|].
    intros <-. rewrite Hat in Hj'. injection Hj' as ->. congruence.
  - exists n'. split; [by apply Hframe|]. split; [exact Hl | exact Hslots].
Qed.

Lemma js_index_last_eq {A} (a : list A) :
  js_index a (Z.of_nat (length a) - 1) = last a.
Proof.
  destruct a as [|x a _] using rev_ind; [reflexivity|].
  by rewrite js_index_last, last_snoc.
Qed.

(** The target is the node itself, or its parent, a [pre] element. *)
Lemma resolveTarget_inv h node anc t p :
  resolveTarget h node (Some anc) = (t, Some p) ->
  (t = node /\ last anc = Some p) \/
  (last anc = Some t /\ exists ps cs, h !! t = Some (Element "pre" ps cs)).
Proof.
  unfold resolveTarget. cbn [mbind option_bind]. rewrite js_index_last_eq.
  destruct (last anc) as [q|]; [|discriminate].
  destruct (h !! q) as [[|tag ps cs| | |]|] eqn:Hq;
    try (intros [= <- <-]; by left).
  destruct (bool_decide (tag = "pre")) eqn:Htag; [|intros [= <- <-]; by left].
  apply bool_decide_eq_true in Htag as ->. intros [= <- _]. right. eauto.
Qed.

(** The target and the splice parent of an entry do not depend on the
    moment of its rewrite. *)
Lemma resolveTarget_keeps h hc node anc :
  keeps h hc ->
  (forall q, last anc = Some q -> is_Some (h !! q)) ->
  resolveTarget hc node (Some anc) = resolveTarget h node (Some anc).
Proof.
  intros Hk Hq. unfold resolveTarget. cbn [mbind option_bind].
  rewrite js_index_last_eq.
  destruct (last anc) as [q|]; [|reflexivity].
  destruct (Hq q eq_refl) as [n Hn]. destruct (Hk q n Hn) as (n' & Hn' & Hl & _).
  rewrite Hn, Hn'.
  destruct n, n'; simpl in Hl; try (by destruct Hl); try reflexivity.
  destruct Hl as [-> _]. reflexivity.
Qed.

(** What a rewrite of a recorded entry replaces is [replaceable]. *)
Lemma target_replaceable h hc node anc t p :
  keeps h hc ->
  (exists n, h !! node = Some n /\ isMermaid n = true) ->
  (forall q, last anc = Some q -> child_of h q node) ->
  resolveTarget hc node (Some anc) = (t, Some p) ->
  replaceable h t = true.
Proof.
  intros Hk (n & Hn & Hm) Hlast [[-> _]|(Hq & ps & cs & Ht)]%resolveTarget_inv.
  - unfold replaceable. rewrite Hn. destruct n; try discriminate. by rewrite Hm.
  - destruct (Hlast t Hq) as (nq & cs0 & Hnq & Hcs0 & Hin).
    destruct (Hk t nq Hnq) as (n' & Hn' & Hl & _).
    rewrite Ht in Hn'. injection Hn' as <-.
    destruct nq as [|tag ps0 cs1| | |]; simpl in Hl; try (by destruct Hl).
    destruct Hl as [Htag _]. subst tag. injection Hcs0 as ->.
    unfold replaceable. rewrite Hnq.
    rewrite bool_decide_eq_true_2 by reflexivity.
    apply orb_true_iff. right. simpl. apply existsb_exists.
    exists node. split; [by apply list_elem_of_In|]. by rewrite Hn.
Qed.

Lemma keeps_child h hc a b : keeps h hc -> kept_child h a b -> child_of hc a b.
Proof.
  intros Hk [(n & cs & Hn & Hcs & Hb) Hrep].
  apply list_elem_of_lookup in Hb as [j Hj].
  destruct (Hk a n Hn) as (n' & Hn' & _ & Hslots).
  destruct (Hslots cs j b Hcs Hj Hrep) as (cs' & Hcs' & Hj').
  exists n', cs'. split; [exact Hn'|]. split; [exact Hcs'|].
  eapply list_elem_of_lookup_2, Hj'.
Qed.

(** A way down the document that meets nothing replaceable is still there. *)
Lemma keeps_reach h hc a x : keeps h hc -> rtc (kept_child h) a x -> reach hc a x.
Proof.
  intros Hk. induction 1 as [|a b x Hab _ IH]; [reflexivity|].
  eapply rtc_l; [by eapply keeps_child | exact IH].
Qed.

(** ** Reachability in a given store *)

Lemma closed_under_children_sound h L :
  closed_under_children h L = true ->
  forall a x, a ∈ L -> reach h a x -> x ∈ L.
Proof.
  intros Hclosed a x Ha Hr. induction Hr as [|a b x Hab _ IH]; [exact Ha|].
  apply IH. destruct Hab as (n & cs & Hn & Hcs & Hb).
  unfold closed_under_children in Hclosed.
  rewrite forallb_forall in Hclosed.
  specialize (Hclosed a (proj1 (list_elem_of_In _ _) Ha)).
  rewrite Hn in Hclosed. simpl in Hclosed. rewrite Hcs in Hclosed.
  rewrite forallb_forall in Hclosed.
  specialize (Hclosed b (proj1 (list_elem_of_In _ _) Hb)).
  by apply bool_decide_eq_true in Hclosed.
Qed.

(** ** What the tasks keep *)

Section TransformWhole.
Variable md5_hex : string -> string.
Variable tmpdir : string.
Variable path_join : string -> string -> string.
Variable run : string -> string -> RunOptions -> gmap string string ->
               gmap string string * option string.
Variable fromHtml : string -> list hast.
(** The document before the walk. *)
Variable h : heap.

Local Abbreviation tasksRun :=
  (runTasks md5_hex tmpdir path_join run fromHtml).

(** What the walk says of an entry, as far as the rewrites need it. *)
Local Abbreviation recorded d :=
  ((exists n, h !! dg_node d = Some n /\ isMermaid n = true) /\
   (forall q, last (dg_ancestors d) = Some q -> child_of h q (dg_node d)) /\
   (forall a, a ∈ dg_ancestors d -> is_Some (h !! a))).

Lemma runTasks_keeps options tasks seen hc w :
  (forall d started, (d, started) ∈ tasks -> recorded d) ->
  keeps h hc -> keeps h (tasksRun options tasks (seen, hc, w)).1.2.
Proof.
  intros Htasks.
  apply (runTasks_heap_ind md5_hex tmpdir path_join run fromHtml (keeps h)).
  intros d started sv h2 h2' Hin Hk Happ.
  apply applyThemeAST_spliced in Happ as [->|(t & p & i & wl & Hr & Hs)];
    [exact Hk|].
  destruct (Htasks d started Hin) as (Hm & Hlast & _).
  eapply keeps_spliced; [exact Hk | exact Hs |].
  eapply target_replaceable; eassumption.
Qed.
End TransformWhole.

Lemma discovered_recorded h anc l d :
  discovered h anc l d ->
  (exists n, h !! dg_node d = Some n /\ isMermaid n = true) /\
  (forall q, last (dg_ancestors d) = Some q -> child_of h q (dg_node d)) /\
  (forall a, a ∈ dg_ancestors d -> is_Some (h !! a)).
Proof.
  intros ((n & Hn & Hm) & _ & Hanc & _ & Hlast).
  split; [eauto|]. split; [exact Hlast|].
  intros a Ha. specialize (Hanc a Ha).
  apply rtc_inv in Hanc as [->|(c & (m & cs & Hm' & _) & _)]; eauto.
Qed.

(** C8, as stated, fails in two ways.  In
    [<code class="language-javascript"><code class="language-mermaid">...</code></code>]
    the outer [code] element does not pass the test, yet the transformation
    replaces its only child, the diagram block, by the wrapper: the block
    is changed.  In
    [<pre><code class="language-javascript">...</code><code class="language-mermaid">...</code></pre>]
    the transformation replaces the [pre] by the wrapper: the JavaScript
    block, which does not pass the test either, is not changed in itself
    but is no longer part of the document. *)
Lemma rehypeMermaidCLI_frame_counterexample :
  let options := {| renderThemes := [Default]; svgClassNames := None;
                    puppeteerConfig := None |} in
  (Sample.doc_nested !! 1%nat = Some (Element "code" Sample.jsProps [2%nat]) /\
   isMermaid (Element "code" Sample.jsProps [2%nat]) = false /\
   exists h' w' ls,
     rehypeMermaidCLI Sample.md5_hex Sample.tmpdir Sample.path_join Sample.run
       Sample.fromHtml Sample.toText (Some options) 4 [0%nat] 0%nat
       Sample.doc_nested Sample.world0
     = Some (None, h', w') /\
     h' !! 1%nat = Some (Element "code" Sample.jsProps [6%nat]) /\
     h' !! 6%nat
     = Some (Element "div" (wrapperProperties "mermaid-5d2f3a8c") ls) /\
     h' !! 1%nat <> Sample.doc_nested !! 1%nat) /\
  (Sample.doc_pre_two_codes !! 2%nat
   = Some (Element "code" Sample.jsProps [3%nat]) /\
   isMermaid (Element "code" Sample.jsProps [3%nat]) = false /\
   reach Sample.doc_pre_two_codes 0%nat 2%nat /\
   exists h' w',
     rehypeMermaidCLI Sample.md5_hex Sample.tmpdir Sample.path_join Sample.run
       Sample.fromHtml Sample.toText (Some options) 4 [0%nat] 0%nat
       Sample.doc_pre_two_codes Sample.world0
     = Some (None, h', w') /\
     h' !! 0%nat = Some (Root [8%nat]) /\
     h' !! 8%nat
     = Some (Element "div" (wrapperProperties "mermaid-5d2f3a8c") [7%nat]) /\
     ~ reach h' 0%nat 2%nat).
Proof.
  intros options. split.
  - split; [reflexivity|]. split; [reflexivity|].
    eexists _, _, _. split; [vm_compute; reflexivity|].
    split; [vm_compute; reflexivity|]. split; [vm_compute; reflexivity|].
    vm_compute. discriminate.
  - split; [reflexivity|]. split; [reflexivity|]. split.
    { eapply rtc_l; [|apply rtc_once].
      - eexists _, _. split; [reflexivity|]. split; [reflexivity|].
        apply list_elem_of_here.
      - eexists _, _. split; [reflexivity|]. split; [reflexivity|].
        apply list_elem_of_here. }
    eexists _, _. split; [vm_compute; reflexivity|].
    split; [vm_compute; reflexivity|]. split; [vm_compute; reflexivity|].
    intros Hr.
    eapply (closed_under_children_sound _ [0%nat; 8%nat; 7%nat; 6%nat]) in Hr;
      [|vm_compute; reflexivity | apply list_elem_of_here].
    exact (proj1 (bool_decide_eq_false
                    (2%nat ∈ [0%nat; 8%nat; 7%nat; 6%nat])) eq_refl Hr).
Qed.

(** C8, amended: the walk records a node below the root exactly when it is
    a [code] element whose [className] list includes [language-mermaid].
    A child that is not replaceable, that is, neither a diagram block nor a
    [pre] element with a diagram block among its children, is after the
    transformation still at its index among the children of its parent,
    and the parent has kept its kind and tag; so a node reached from the
    root through such children only is still reached from the root, the
    same way.  And every node below which there is no diagram block comes
    out of the transformation as it went in, with everything below it:
    same tag, properties, children and text. *)
Theorem rehypeMermaidCLI_selection_kept
    (md5_hex : string -> string) (tmpdir : string)
    (path_join : string -> string -> string)
    (run : string -> string -> RunOptions -> gmap string string ->
           gmap string string * option string)
    (fromHtml : string -> list hast) (toText : heap -> loc -> string)
    (_options : option RehypeMermaidOptions) (fuel : nat) (order : list nat)
    (ast : loc) (h : heap) (w : world) (out : option error * heap * world) :
  rehypeMermaidCLI md5_hex tmpdir path_join run fromHtml toText
    _options fuel order ast h w = Some out ->
  exists h1 diagrams,
    visitParents md5_hex toText fuel ast [] (h, []) = Some (h1, diagrams) /\
    (forall x n, reach h ast x -> h !! x = Some n ->
       ((exists d, d ∈ diagrams /\ dg_node d = x) <-> isMermaid n = true)) /\
    (forall n, isMermaid n = true <->
       exists ps cs cl,
         n = Element "code" ps cs /\ ps !! "className" = Some (PList cl) /\
         "language-mermaid" ∈ cl) /\
    (forall a n cs j b,
       h !! a = Some n -> node_children n = Some cs -> cs !! j = Some b ->
       replaceable h b = false ->
       exists n' cs',
         out.1.2 !! a = Some n' /\ same_label n n' /\
         node_children n' = Some cs' /\ cs' !! j = Some b) /\
    (forall x, rtc (kept_child h) ast x -> reach out.1.2 ast x) /\
    (forall l,
       (forall x n, reach h l x -> h !! x = Some n -> isMermaid n = false) ->
       forall x n, reach h l x -> h !! x = Some n -> out.1.2 !! x = Some n).
Proof.
  unfold rehypeMermaidCLI.
  destruct (visitParents md5_hex toText fuel ast [] (h, []))
    as [[h1 diagrams]|] eqn:Hvisit; [|discriminate].
  cbn [mbind option_bind]. intros [= <-]. exists h1, diagrams.
  destruct (visitParents_walk_ok md5_hex toText h fuel ast [] h [] h1 diagrams
              (upd_refl h)) as (Hu & new & Hnew & Hsound & Hex);
    [intros a Ha; by apply elem_of_nil in Ha | discriminate | exact Hvisit |].
  simpl in Hnew. subst new.
  set (tasks := (fun d => (d, startEach md5_hex tmpdir path_join (dg_diagram d)
                                (renderThemes (default defaultOptions _options))
                                (files w))) <$> diagrams).
  set (jobs := omap (fun i => tasks !! i) (schedule order (length tasks))).
  assert (Hjobs : forall d started, (d, started) ∈ jobs -> d ∈ diagrams).
  { intros d started (i & d' & _ & Hd' & [= -> _])%jobs_elem_of.
    eapply list_elem_of_lookup_2, Hd'. }
  assert (Hkeeps : keeps h (runTasks md5_hex tmpdir path_join run fromHtml
                              (default defaultOptions _options) jobs
                              (None, h1, w)).1.2).
  { apply runTasks_keeps; [|by apply keeps_upd].
    intros d started Hin. eapply discovered_recorded, Hsound, Hjobs, Hin. }
  split; [reflexivity|]. split; [|split; [exact isMermaid_spec|]].
  - intros x n Hx Hn. split.
    + intros (d & Hd & <-). destruct (Hsound d Hd) as ((n' & Hn' & Hm) & _).
      congruence.
    + intros Hm. exact (Hex x n Hx Hn Hm).
  - split; [|split].
    + intros a n cs j b Ha Hcs Hj Hb.
      destruct (Hkeeps a n Ha) as (n' & Hn' & Hl & Hslots).
      destruct (Hslots cs j b Hcs Hj Hb) as (cs' & Hcs' & Hj'). eauto 6.
    + intros x Hx. by eapply keeps_reach.
    + intros l Hplain x n Hx Hn. apply runTasks_frame.
      * intros d started Hin Hanc.
        destruct (Hsound d (Hjobs _ _ Hin)) as ((n' & Hn' & Hm) & _ & Hancs & _).
        rewrite (Hplain (dg_node d) n') in Hm; [discriminate| |exact Hn'].
        etrans; [exact Hx | by apply Hancs].
      * eapply upd_plain; [exact Hu | exact Hn |].
        eapply Hplain; [exact Hx | exact Hn].
Qed.

Lemma rehypeMermaidCLI_selection_kept_witness :
  exists out,
    rehypeMermaidCLI Sample.md5_hex Sample.tmpdir Sample.path_join Sample.run
      Sample.fromHtml Sample.toText
      (Some {| renderThemes := [Default; Dark]; svgClassNames := None;
               puppeteerConfig := None |})
      4 [0%nat] 0%nat Sample.doc_mixed Sample.world0 = Some out /\
    reach out.1.2 0%nat 2%nat /\
    out.1.2 !! 2%nat = Some (Element "code" Sample.jsProps [3%nat]) /\
    out.1.2 !! 3%nat = Some (Text "console.log('hello');").
Proof.
  destruct (rehypeMermaidCLI Sample.md5_hex Sample.tmpdir Sample.path_join
              Sample.run Sample.fromHtml Sample.toText
              (Some {| renderThemes := [Default; Dark]; svgClassNames := None;
                       puppeteerConfig := None |})
              4 [0%nat] 0%nat Sample.doc_mixed Sample.world0)
    as [out|] eqn:Hout; [|vm_compute in Hout; discriminate].
  exists out. split; [reflexivity|].
  destruct (rehypeMermaidCLI_selection_kept _ _ _ _ _ _ _ _ _ _ _ _ _ Hout)
    as (h1 & diagrams & _ & _ & _ & _ & Hreach & Hframe).
  assert (H0 : Sample.doc_mixed !! 0%nat = Some (Root [1%nat; 4%nat]))
    by reflexivity.
  assert (H1 : Sample.doc_mixed !! 1%nat = Some (Element "pre" ∅ [2%nat]))
    by reflexivity.
  assert (H2 : Sample.doc_mixed !! 2%nat = Some (Element "code" Sample.jsProps [3%nat]))
    by reflexivity.
  assert (H3 : Sample.doc_mixed !! 3%nat = Some (Text "console.log('hello');"))
    by reflexivity.
  assert (Hstep : child_of Sample.doc_mixed 2%nat 3%nat).
  { eexists _, _. split; [exact H2|]. split; [reflexivity|].
    apply list_elem_of_here. }
  assert (Hplain : forall x n, reach Sample.doc_mixed 2%nat x ->
            Sample.doc_mixed !! x = Some n -> isMermaid n = false).
  { intros x n Hx Hn.
    apply rtc_inv in Hx as [<-|(c & (m & cs & Hm & Hcs & Hc) & Hx)].
    - rewrite H2 in Hn. injection Hn as <-. reflexivity.
    - rewrite H2 in Hm. injection Hm as <-. injection Hcs as <-.
      apply list_elem_of_singleton in Hc as ->.
      apply rtc_inv in Hx as [<-|(c & (m & cs & Hm & Hcs & _) & _)].
      + rewrite H3 in Hn. injection Hn as <-. reflexivity.
      + rewrite H3 in Hm. injection Hm as <-. discriminate Hcs. }
  split; [|split].
  - apply Hreach.
    apply (rtc_l _ 0%nat 1%nat 2%nat); [|apply rtc_once]; (split; [|reflexivity]).
    + eexists _, _. split; [exact H0|]. split; [reflexivity|].
      apply list_elem_of_here.
    + eexists _, _. split; [exact H1|]. split; [reflexivity|].
      apply list_elem_of_here.
  - apply (Hframe 2%nat Hplain); [reflexivity | exact H2].
  - apply (Hframe 2%nat Hplain); [apply rtc_once, Hstep | exact H3].
Defined.

(** ** An empty theme list *)

(** The first entry of a list that passes a test. *)
Lemma list_first_split {A} (f : A -> bool) (l : list A) (x : A) :
  x ∈ l -> f x = true ->
  exists before y after,
    l = before ++ y :: after /\ f y = true /\
    forall z, z ∈ before -> f z = false.
Proof.
  induction l as [|a l IH]; intros Hx Hfx; [by apply elem_of_nil in Hx|].
  destruct (f a) eqn:Hfa.
  - exists [], a, l. split; [reflexivity|]. split; [exact Hfa|].
    intros z Hz. by apply elem_of_nil in Hz.
  - apply elem_of_cons in Hx as [->|Hx]; [congruence|].
    destruct (IH Hx Hfx) as (before & y & after & -> & Hy & Hb).
    exists (a :: before), y, after. split; [reflexivity|]. split; [exact Hy|].
    intros z [->|Hz]%elem_of_cons; [exact Hfa | by apply Hb].
Qed.

Lemma indexOf_first x a : forall i,
  a !! i = Some x -> (forall j, (j < i)%nat -> a !! j <> Some x) ->
  indexOf x a = Some i.
Proof.
  induction a as [|y a IH]; intros i Hi Hmin; [discriminate Hi|].
  simpl. destruct (decide (y = x)) as [->|Hne].
  - destruct i as [|i]; [reflexivity|]. destruct (Hmin 0%nat); [lia | reflexivity].
  - destruct i as [|i]; [simpl in Hi; congruence|].
    rewrite (IH i); [reflexivity | exact Hi |].
    intros j Hj. apply (Hmin (S j)). lia.
Qed.

(** A splice of something else leaves [tstar] where it is first met. *)
Lemma spliced_pending hc hc' t p i w tstar pstar istar len :
  spliced hc hc' t p i w -> t <> tstar -> is_Some (hc !! tstar) ->
  (exists n cs, hc !! pstar = Some n /\ node_children n = Some cs /\
     cs !! istar = Some tstar /\
     (forall j, (j < istar)%nat -> cs !! j <> Some tstar) /\ length cs = len) ->
  exists n cs, hc' !! pstar = Some n /\ node_children n = Some cs /\
     cs !! istar = Some tstar /\
     (forall j, (j < istar)%nat -> cs !! j <> Some tstar) /\ length cs = len.
Proof.
  intros (n0 & cs0 & Hp & Hn & Hat & Hmin & Hnew & Hw & Hp' & Hframe) Hne [x Hx]
    (n & cs & Hps & Hcs & Hi & Hfirst & Hlen).
  destruct (decide (pstar = p)) as [->|Hpp].
  - rewrite Hp in Hps. injection Hps as <-. rewrite Hn in Hcs. injection Hcs as <-.
    eexists _, _. split; [exact Hp'|].
    split; [eapply node_children_set_children, Hn|]. split; [|split].
    + rewrite list_lookup_insert_ne; [exact Hi|]. intros ->. congruence.
    + intros j Hj Hjx. destruct (decide (j = i)) as [->|Hji].
      * rewrite list_lookup_insert_eq in Hjx by (eapply lookup_lt_Some, Hat).
        injection Hjx as ->. rewrite Hnew in Hx. discriminate.
      * rewrite list_lookup_insert_ne in Hjx by congruence. by apply (Hfirst j).
    + by rewrite length_insert.
  - exists n, cs. split; [by apply Hframe|]. auto.
Qed.

(** A splice of an object of the document leaves a wrapper where it is. *)
Lemma spliced_done hc hc' t p i w wstar nw pstar istar len :
  spliced hc hc' t p i w -> t <> wstar -> p <> wstar ->
  hc !! wstar = Some nw ->
  (exists n cs, hc !! pstar = Some n /\ node_children n = Some cs /\
     cs !! istar = Some wstar /\ length cs = len) ->
  hc' !! wstar = Some nw /\
  exists n cs, hc' !! pstar = Some n /\ node_children n = Some cs /\
     cs !! istar = Some wstar /\ length cs = len.
Proof.
  intros (n0 & cs0 & Hp & Hn & Hat & Hmin & Hnew & Hw & Hp' & Hframe) Htw Hpw Hws
    (n & cs & Hps & Hcs & Hi & Hlen).
  split; [apply Hframe; [congruence | exact Hws]|].
  destruct (decide (pstar = p)) as [->|Hpp].
  - rewrite Hp in Hps. injection Hps as <-. rewrite Hn in Hcs. injection Hcs as <-.
    eexists _, _. split; [exact Hp'|].
    split; [eapply node_children_set_children, Hn|]. split.
    + rewrite list_lookup_insert_ne; [exact Hi|]. intros ->. congruence.
    + by rewrite length_insert.
  - exists n, cs. split; [by apply Hframe|]. auto.
Qed.

Section TransformTargets.
Variable md5_hex : string -> string.
Variable tmpdir : string.
Variable path_join : string -> string -> string.
Variable run : string -> string -> RunOptions -> gmap string string ->
               gmap string string * option string.
Variable fromHtml : string -> list hast.
(** The document before the walk. *)
Variable h : heap.

Local Abbreviation tasksRun :=
  (runTasks md5_hex tmpdir path_join run fromHtml).

Local Abbreviation recorded d :=
  ((exists n, h !! dg_node d = Some n /\ isMermaid n = true) /\
   (forall q, last (dg_ancestors d) = Some q -> child_of h q (dg_node d)) /\
   (forall a, a ∈ dg_ancestors d -> is_Some (h !! a))).

Lemma recorded_target hc d :
  recorded d -> keeps h hc ->
  resolveTarget hc (dg_node d) (Some (dg_ancestors d))
  = resolveTarget h (dg_node d) (Some (dg_ancestors d)).
Proof.
  intros (_ & Hlast & _) Hk. apply resolveTarget_keeps; [exact Hk|].
  intros q Hq. destruct (Hlast q Hq) as (n & cs & Hn & _). eauto.
Qed.

(** Until its own task runs, the target of an entry that shares it with no
    other entry stays where the walk met it. *)
Lemma runTasks_pending options tasks tstar pstar istar len seen hc w :
  (forall d started, (d, started) ∈ tasks ->
     recorded d /\ target_of h d <> tstar) ->
  is_Some (h !! tstar) ->
  keeps h hc ->
  (exists n cs, hc !! pstar = Some n /\ node_children n = Some cs /\
     cs !! istar = Some tstar /\
     (forall j, (j < istar)%nat -> cs !! j <> Some tstar) /\ length cs = len) ->
  keeps h (tasksRun options tasks (seen, hc, w)).1.2 /\
  exists n cs,
    (tasksRun options tasks (seen, hc, w)).1.2 !! pstar = Some n /\
    node_children n = Some cs /\ cs !! istar = Some tstar /\
    (forall j, (j < istar)%nat -> cs !! j <> Some tstar) /\ length cs = len.
Proof.
  intros Htasks Hts Hk Hpre.
  apply (runTasks_heap_ind md5_hex tmpdir path_join run fromHtml
           (fun hc => keeps h hc /\
              exists n cs, hc !! pstar = Some n /\ node_children n = Some cs /\
                cs !! istar = Some tstar /\
                (forall j, (j < istar)%nat -> cs !! j <> Some tstar) /\
                length cs = len)); [|by split].
  intros d started sv h2 h2' Hin [Hk2 Hpre2] Happ.
  apply applyThemeAST_spliced in Happ as [->|(t & p & i & wl & Hr & Hs)];
    [by split|].
  destruct (Htasks d started Hin) as [Hrec Hne].
  pose proof Hrec as (Hm & Hlast & _).
  split.
  - eapply keeps_spliced; [exact Hk2 | exact Hs |].
    eapply target_replaceable; eassumption.
  - eapply spliced_pending; [exact Hs | | by eapply keeps_is_Some | exact Hpre2].
    intros ->. apply Hne. unfold target_of.
    by rewrite <- (recorded_target h2 d Hrec Hk2), Hr.
Qed.

(** Once it is in, a wrapper stays where it is. *)
Lemma runTasks_done options tasks wstar nw pstar istar len seen hc w :
  (forall d started, (d, started) ∈ tasks -> recorded d) ->
  h !! wstar = None ->
  keeps h hc ->
  hc !! wstar = Some nw ->
  (exists n cs, hc !! pstar = Some n /\ node_children n = Some cs /\
     cs !! istar = Some wstar /\ length cs = len) ->
  keeps h (tasksRun options tasks (seen, hc, w)).1.2 /\
  (tasksRun options tasks (seen, hc, w)).1.2 !! wstar = Some nw /\
  exists n cs,
    (tasksRun options tasks (seen, hc, w)).1.2 !! pstar = Some n /\
    node_children n = Some cs /\ cs !! istar = Some wstar /\ length cs = len.
Proof.
  intros Htasks Hnew Hk Hws Hpost.
  apply (runTasks_heap_ind md5_hex tmpdir path_join run fromHtml
           (fun hc => keeps h hc /\ hc !! wstar = Some nw /\
              exists n cs, hc !! pstar = Some n /\ node_children n = Some cs /\
                cs !! istar = Some wstar /\ length cs = len)); [|by split].
  intros d started sv h2 h2' Hin (Hk2 & Hws2 & Hpost2) Happ.
  apply applyThemeAST_spliced in Happ as [->|(t & p & i & wl & Hr & Hs)];
    [by split|].
  pose proof (Htasks d started Hin) as (Hm & Hlast & Hanc).
  assert (Ht : replaceable h t = true) by (eapply target_replaceable; eassumption).
  split; [eapply keeps_spliced; eassumption|].
  eapply spliced_done; [exact Hs | | | exact Hws2 | exact Hpost2].
  - intros ->. apply replaceable_is_Some in Ht as [x Hx]. congruence.
  - intros ->. destruct (Hanc wstar) as [x Hx]; [|congruence].
    eapply resolveTarget_parent, Hr.
Qed.
End TransformTargets.

(** In a document under a root, the walk records every entry with a
    target that the rewrite finds. *)
Lemma discovered_located h h1 ast children0 d :
  h !! ast = Some (Root children0) ->
  upd h h1 ->
  discovered h [] ast d ->
  chain h (dg_ancestors d ++ [dg_node d]) ->
  exists p n cs i,
    locate h1 (dg_node d) (Some (dg_ancestors d)) = Some (p, n, cs, i).
Proof.
  intros Hroot Hu ((n & Hn & Hm) & _ & _ & (path & Hpath & Hhead) & Hparent) Hchain.
  simpl in Hpath.
  destruct path as [|q rest _] using rev_ind.
  { simpl in Hhead. injection Hhead as Hnode. rewrite Hnode, Hroot in Hn.
    injection Hn as <-. discriminate Hm. }
  rewrite Hpath in Hparent, Hchain. rewrite Hpath.
  assert (Hchild1 : forall a b, child_of h a b ->
            exists n1 cs i, h1 !! a = Some n1 /\ node_children n1 = Some cs /\
                            indexOf b cs = Some i).
  { intros a b (na & cs & Ha & Hcs & Hb).
    destruct (upd_lookup _ _ _ _ Hu Ha) as (n1 & Hn1 & Ht).
    destruct (indexOf b cs) as [i|] eqn:Hi;
      [|apply indexOf_None in Hi; contradiction].
    exists n1, cs, i. split; [exact Hn1|]. split; [|exact Hi].
    by rewrite (tagged_children _ _ Ht). }
  assert (Hcase : (exists ps cs, h1 !! q = Some (Element "pre" ps cs)) \/
                  (forall ps cs, h1 !! q <> Some (Element "pre" ps cs))).
  { destruct (h1 !! q) as [[|tag ps cs| | |]|];
      try (right; intros ? ?; discriminate).
    destruct (decide (tag = "pre")) as [->|Hne]; [left; eauto|].
    right. intros ? ? [= ? _ _]. congruence. }
  destruct (resolveTarget_cases h1 (dg_node d) rest q) as [Hpre Hnode].
  destruct Hcase as [(ps & cs & Hq1)|Hq1].
  - destruct (Hpre ps cs Hq1) as [_ Hl]. rewrite Hl.
    destruct rest as [|g rest _] using rev_ind.
    { simpl in Hhead. injection Hhead as ->.
      rewrite (upd_plain _ _ _ _ Hu Hroot eq_refl) in Hq1. discriminate. }
    rewrite last_snoc. cbn [mbind option_bind].
    destruct (Hchild1 g q) as (n1 & cs1 & i & Hn1 & Hcs1 & Hi).
    { apply (Hchain (length rest)).
      - rewrite <- !app_assoc. by apply list_lookup_middle.
      - rewrite <- !app_assoc. simpl.
        by rewrite lookup_app_r, Nat.sub_succ_l, Nat.sub_diag by lia. }
    rewrite Hn1. simpl. rewrite Hcs1. simpl. rewrite Hi. simpl. eauto.
  - destruct (Hnode Hq1) as [_ Hl]. rewrite Hl.
    destruct (Hchild1 q (dg_node d)) as (n1 & cs1 & i & Hn1 & Hcs1 & Hi).
    { apply Hparent, last_snoc. }
    rewrite Hn1. simpl. rewrite Hcs1. simpl. rewrite Hi. simpl. eauto.
Qed.

(** C10, as stated, fails for two diagram blocks inside one [pre]: both
    qualify, both have the [pre] as their target, and with an empty theme
    list the transformation, in either order of the tasks, puts one empty
    wrapper in the place of the [pre], carrying the id of the block whose
    task came first; the other block gets no wrapper, and no error is
    raised. *)
Lemma rehypeMermaidCLI_empty_themes_counterexample :
  let options := {| renderThemes := []; svgClassNames := None;
                    puppeteerConfig := None |} in
  let transform order :=
    rehypeMermaidCLI Sample.md5_hex Sample.tmpdir Sample.path_join Sample.run
      Sample.fromHtml Sample.toText (Some options) 4 order 0%nat
      Sample.doc_shared_pre Sample.world0 in
  Sample.doc_shared_pre !! 2%nat = Some (Element "code" Sample.mermaidProps [3%nat]) /\
  Sample.doc_shared_pre !! 4%nat = Some (Element "code" Sample.mermaidProps [5%nat]) /\
  isMermaid (Element "code" Sample.mermaidProps [3%nat]) = true /\
  isMermaid (Element "code" Sample.mermaidProps [5%nat]) = true /\
  (exists out,
     transform [0%nat; 1%nat] = Some (None, out, Sample.world0) /\
     out !! 0%nat = Some (Root [6%nat]) /\
     out !! 6%nat = Some (Element "div" (wrapperProperties "mermaid-5d2f3a8c") []) /\
     dom out = list_to_set (seq 0 7) /\
     (exists ps, out !! 1%nat = Some (Element "pre" ps [2%nat; 4%nat])) /\
     ~ reach out 0%nat 2%nat /\ ~ reach out 0%nat 4%nat) /\
  (exists out,
     transform [1%nat; 0%nat] = Some (None, out, Sample.world0) /\
     out !! 0%nat = Some (Root [6%nat]) /\
     out !! 6%nat = Some (Element "div" (wrapperProperties "mermaid-0f1e2d3c") []) /\
     dom out = list_to_set (seq 0 7) /\
     (exists ps, out !! 1%nat = Some (Element "pre" ps [2%nat; 4%nat])) /\
     ~ reach out 0%nat 2%nat /\ ~ reach out 0%nat 4%nat).
Proof.
  intros options transform. do 4 (split; [reflexivity|]).
  split.
  - eexists. split; [vm_compute; reflexivity|].
    do 3 (split; [vm_compute; reflexivity|]).
    split; [eexists; vm_compute; reflexivity|].
    split; intros Hr;
      (eapply (closed_under_children_sound _ [0%nat; 6%nat]) in Hr;
         [|vm_compute; reflexivity | apply list_elem_of_here]).
    + exact (proj1 (bool_decide_eq_false (2%nat ∈ [0%nat; 6%nat])) eq_refl Hr).
    + exact (proj1 (bool_decide_eq_false (4%nat ∈ [0%nat; 6%nat])) eq_refl Hr).
  - eexists. split; [vm_compute; reflexivity|].
    do 3 (split; [vm_compute; reflexivity|]).
    split; [eexists; vm_compute; reflexivity|].
    split; intros Hr;
      (eapply (closed_under_children_sound _ [0%nat; 6%nat]) in Hr;
         [|vm_compute; reflexivity | apply list_elem_of_here]).
    + exact (proj1 (bool_decide_eq_false (2%nat ∈ [0%nat; 6%nat])) eq_refl Hr).
    + exact (proj1 (bool_decide_eq_false (4%nat ∈ [0%nat; 6%nat])) eq_refl Hr).
Qed.

(** C10, amended: with an empty [renderThemes], the transformation of a
    finite document under a root raises no error, calls no renderer and
    writes no file, and every diagram block below the root has its entry.
    For every entry [d], the place of its target is taken by one empty
    wrapper: among the entries that have the target of [d], let [d0] be
    the one whose task comes first, [d] itself when it shares its target
    with no other entry (its block does not share a [pre] with another
    diagram block).  The rewrite of [d0] finds the target at an index [i]
    of the children of the splice parent [p], and after the
    transformation, whatever the order of the tasks, index [i] of the
    children of [p] holds a new object, a [div] of class [mermaid-wrapper]
    that carries the id of [d0] and has no children; [p] is otherwise the
    same object with as many children as before; and the wrapper is part
    of the document when [p] is reached from the root through children
    that no rewrite takes out. *)
Theorem rehypeMermaidCLI_empty_themes
    (md5_hex : string -> string) (tmpdir : string)
    (path_join : string -> string -> string)
    (run : string -> string -> RunOptions -> gmap string string ->
           gmap string string * option string)
    (fromHtml : string -> list hast) (toText : heap -> loc -> string)
    (options : RehypeMermaidOptions) (fuel : nat) (order : list nat)
    (ast : loc) (children0 : list loc) (h : heap) (w : world) :
  renderThemes options = [] ->
  h !! ast = Some (Root children0) ->
  bounded h fuel ast ->
  exists h1 diagrams out,
    visitParents md5_hex toText fuel ast [] (h, []) = Some (h1, diagrams) /\
    rehypeMermaidCLI md5_hex tmpdir path_join run fromHtml toText
      (Some options) fuel order ast h w = Some (None, out, w) /\
    (forall x n, reach h ast x -> h !! x = Some n -> isMermaid n = true ->
       exists d, d ∈ diagrams /\ dg_node d = x) /\
    forall k d,
      diagrams !! k = Some d ->
      exists k0 d0 before after p n cs i wl,
        diagrams !! k0 = Some d0 /\
        target_of h d0 = target_of h d /\
        schedule order (length diagrams) = before ++ k0 :: after /\
        (forall k' d', k' ∈ before -> diagrams !! k' = Some d' ->
           target_of h d' <> target_of h d) /\
        ((forall k' d', diagrams !! k' = Some d' -> k' <> k ->
            target_of h d' <> target_of h d) -> k0 = k) /\
        locate h1 (dg_node d0) (Some (dg_ancestors d0)) = Some (p, n, cs, i) /\
        cs !! i = Some (target_of h d) /\
        h1 !! wl = None /\
        out !! wl = Some (Element "div" (wrapperProperties (dg_id d0)) []) /\
        (exists cs',
           out !! p = Some (set_children n cs') /\
           length cs' = length cs /\ cs' !! i = Some wl) /\
        (rtc (kept_child h) ast p -> reach out ast wl).
Proof.
  intros Hthemes Hroot Hb.
  destruct (visitParents_total md5_hex toText h fuel ast [] h []
              (upd_refl h) Hb) as [[h1 diagrams] Hvisit].
  destruct (visitParents_walk_ok md5_hex toText h fuel ast [] h [] h1 diagrams
              (upd_refl h)) as (Hu & new & Hnew & Hsound & Hex);
    [intros a Ha; by apply elem_of_nil in Ha | discriminate | exact Hvisit |].
  simpl in Hnew. subst new.
  assert (Hchains : forall d, d ∈ diagrams ->
            chain h (dg_ancestors d ++ [dg_node d])).
  { eapply (visitParents_chain md5_hex toText h fuel ast [] h []);
      [apply upd_refl | apply chain_singleton | | exact Hvisit].
    intros d Hd. by apply elem_of_nil in Hd. }
  set (tasks := (fun d : Diagram => (d, @nil (Theme * bool))) <$> diagrams).
  set (jobs := omap (fun i => tasks !! i) (schedule order (length tasks))).
  assert (Hrehype :
            rehypeMermaidCLI md5_hex tmpdir path_join run fromHtml toText
              (Some options) fuel order ast h w
            = Some (runTasks md5_hex tmpdir path_join run fromHtml options jobs
                      (None, h1, w))).
  { unfold rehypeMermaidCLI.
    change (default defaultOptions (Some options)) with options.
    rewrite Hvisit. cbn [mbind option_bind]. rewrite Hthemes. reflexivity. }
  assert (Hall : forall (js : list nat) d started,
            (d, started) ∈ omap (fun i => tasks !! i) js ->
            exists i, i ∈ js /\ diagrams !! i = Some d /\
                      started = @nil (Theme * bool)).
  { intros js d started (i & d' & Hi & Hd' & [= -> ->])%jobs_elem_of. eauto. }
  assert (Hrec : forall d, d ∈ diagrams ->
            (exists n, h !! dg_node d = Some n /\ isMermaid n = true) /\
            (forall q, last (dg_ancestors d) = Some q -> child_of h q (dg_node d)) /\
            (forall a, a ∈ dg_ancestors d -> is_Some (h !! a))).
  { intros d Hd. eapply discovered_recorded, Hsound, Hd. }
  destruct (runTasks_no_themes md5_hex tmpdir path_join run fromHtml
              options jobs h1 w) as [out Hout].
  { intros d started Hin. by apply Hall in Hin as (_ & _ & _ & ->). }
  exists h1, diagrams, out. split; [exact Hvisit|].
  split; [by rewrite Hrehype, Hout|]. split; [exact Hex|].
  intros k d Hk.
  assert (Hk1 : keeps h h1) by (by apply keeps_upd).
  (* the first task, in the order of the tasks, that has the target of [d] *)
  set (same := fun i => match diagrams !! i with
                        | Some d' => bool_decide (target_of h d' = target_of h d)
                        | None => false
                        end).
  destruct (list_first_split same (schedule order (length tasks)) k)
    as (before & k0 & after & Hsched & Hsame & Hbefore).
  { apply schedule_elem_of. unfold tasks. rewrite length_fmap.
    eapply lookup_lt_Some, Hk. }
  { unfold same. rewrite Hk. by apply bool_decide_eq_true. }
  unfold same in Hsame.
  destruct (diagrams !! k0) as [d0|] eqn:Hk0; [|discriminate].
  apply bool_decide_eq_true in Hsame.
  assert (Hd0 : d0 ∈ diagrams) by (eapply list_elem_of_lookup_2, Hk0).
  destruct (discovered_located h h1 ast children0 d0 Hroot Hu (Hsound d0 Hd0)
              (Hchains d0 Hd0)) as (p & n & cs & i & Hloc).
  pose proof Hloc as (t & Hr & Hp & Hn & Hi)%locate_Some.
  assert (Ht : t = target_of h d).
  { rewrite <- Hsame. unfold target_of.
    by rewrite <- (recorded_target h h1 d0 (Hrec d0 Hd0) Hk1), Hr. }
  destruct (indexOf_Some _ _ _ Hi) as [Hat Hmin].
  assert (Hrepl : replaceable h t = true).
  { destruct (Hrec d0 Hd0) as (Hm & Hlast & _).
    eapply target_replaceable; eassumption. }
  assert (Hjobs : jobs = omap (fun i => tasks !! i) before ++
                         (d0, []) :: omap (fun i => tasks !! i) after).
  { unfold jobs. rewrite Hsched, omap_app. f_equal.
    change (omap (fun i => tasks !! i) (k0 :: after))
      with (match tasks !! k0 with
            | Some y => y :: omap (fun i => tasks !! i) after
            | None => omap (fun i => tasks !! i) after
            end).
    unfold tasks at 1. by rewrite list_lookup_fmap, Hk0. }
  assert (Hfinal : out = (runTasks md5_hex tmpdir path_join run fromHtml
                            options jobs (None, h1, w)).1.2)
    by (by rewrite Hout).
  rewrite Hjobs, runTasks_app in Hfinal.
  (* the tasks that come before *)
  destruct (runTasks_no_themes md5_hex tmpdir path_join run fromHtml
              options (omap (fun i => tasks !! i) before) h1 w) as [hA HrunA].
  { intros d' s' Hin. by apply Hall in Hin as (_ & _ & _ & ->). }
  destruct (runTasks_pending md5_hex tmpdir path_join run fromHtml h options
              (omap (fun i => tasks !! i) before) t p i (length cs) None h1 w)
    as [HkA (nA & csA & HpA & HnA & HiA & HminA & HlenA)].
  { intros d' s' (i' & Hi' & Hd' & _)%Hall. split.
    - eapply Hrec, list_elem_of_lookup_2, Hd'.
    - rewrite Ht. specialize (Hbefore i' Hi'). unfold same in Hbefore.
      rewrite Hd' in Hbefore. by apply bool_decide_eq_false in Hbefore. }
  { by apply replaceable_is_Some. }
  { exact Hk1. }
  { exists n, cs. auto. }
  rewrite HrunA in Hfinal, HkA, HpA. cbn [fst snd] in HkA, HpA.
  (* the task of [d0] *)
  assert (HlocA : locate hA (dg_node d0) (Some (dg_ancestors d0))
                  = Some (p, nA, csA, i)).
  { apply locate_Some. exists t. split; [|auto using indexOf_first].
    by rewrite (recorded_target h hA d0 (Hrec d0 Hd0) HkA),
         <- (recorded_target h h1 d0 (Hrec d0 Hd0) Hk1). }
  rewrite runTasks_cons, processDiagram_no_themes, HlocA in Hfinal.
  cbv zeta in Hfinal.
  set (wl := fresh (dom hA)) in Hfinal.
  set (nw := Element "div" (wrapperProperties (dg_id d0)) []) in Hfinal.
  set (hB := <[p := set_children nA (<[i := wl]> csA)]> (<[wl := nw]> hA))
    in Hfinal.
  assert (HwA : hA !! wl = None) by apply fresh_lookup.
  assert (Hw : h !! wl = None).
  { destruct (h !! wl) as [x|] eqn:Hx; [|reflexivity].
    destruct (keeps_is_Some h hA wl HkA) as [y Hy]; [eauto | congruence]. }
  assert (Hpw : p <> wl) by congruence.
  assert (Hspl : spliced hA hB t p i wl).
  { exists nA, csA. split; [exact HpA|]. split; [exact HnA|].
    split; [exact HiA|]. split; [exact HminA|]. split; [exact HwA|].
    split; [|split].
    - unfold hB. rewrite lookup_insert_ne by exact Hpw.
      rewrite lookup_insert_eq. eauto.
    - apply lookup_insert_eq.
    - intros l x Hl Hx. unfold hB.
      rewrite lookup_insert_ne by congruence.
      rewrite lookup_insert_ne by congruence. exact Hx. }
  (* the tasks that come after *)
  destruct (runTasks_done md5_hex tmpdir path_join run fromHtml h options
              (omap (fun i => tasks !! i) after) wl nw p i (length cs)
              (firstError None None) hB w)
    as (HkO & HwO & nO & csO & HpO & HnO & HiO & HlenO).
  { intros d' s' (i' & Hi' & Hd' & _)%Hall.
    eapply Hrec, list_elem_of_lookup_2, Hd'. }
  { exact Hw. }
  { eapply keeps_spliced; eassumption. }
  { unfold hB. rewrite lookup_insert_ne by exact Hpw. apply lookup_insert_eq. }
  { eexists _, _. split; [apply lookup_insert_eq|].
    split; [eapply node_children_set_children, HnA|]. split.
    - apply list_lookup_insert_eq. eapply lookup_lt_Some, HiA.
    - by rewrite length_insert. }
  rewrite <- Hfinal in HkO, HwO, HpO.
  exists k0, d0, before, after, p, n, cs, i, wl.
  split; [exact Hk0|]. split; [exact Hsame|].
  split; [by rewrite <- Hsched; unfold tasks; rewrite length_fmap|]. split.
  { intros k' d' Hk' Hd'. specialize (Hbefore k' Hk'). unfold same in Hbefore.
    rewrite Hd' in Hbefore. by apply bool_decide_eq_false in Hbefore. }
  split.
  { intros Huniq. destruct (decide (k0 = k)) as [->|Hne]; [reflexivity|].
    destruct (Huniq k0 d0 Hk0 Hne Hsame). }
  split; [exact Hloc|]. split; [by rewrite <- Ht|]. split.
  { destruct (h1 !! wl) as [x|] eqn:Hx; [|reflexivity].
    destruct (upd_lookup_inv _ _ _ _ Hu Hx) as (x0 & Hx0 & _). congruence. }
  split; [exact HwO|]. split.
  { destruct (runTasks_reshapes md5_hex tmpdir path_join run fromHtml options
                jobs p n None h1 w Hp) as [cs' Hcs'].
    rewrite Hout in Hcs'. cbn [fst snd] in Hcs'.
    rewrite HpO in Hcs'. injection Hcs' as ->.
    rewrite (node_children_set_children _ _ cs' Hn) in HnO.
    injection HnO as <-. exists cs'. auto. }
  intros Hpath. eapply rtc_r; [by eapply keeps_reach|].
  exists nO, csO. split; [exact HpO|]. split; [exact HnO|].
  eapply list_elem_of_lookup_2, HiO.
Qed.

Example doc_mixed_bounded : bounded Sample.doc_mixed 4 0%nat.
Proof. bounded_sample. Qed.

Lemma rehypeMermaidCLI_empty_themes_witness :
  exists out cs' wl,
    rehypeMermaidCLI Sample.md5_hex Sample.tmpdir Sample.path_join Sample.run
      Sample.fromHtml Sample.toText
      (Some {| renderThemes := []; svgClassNames := None;
               puppeteerConfig := None |})
      4 [] 0%nat Sample.doc_mixed Sample.world0
    = Some (None, out, Sample.world0) /\
    out !! 0%nat = Some (Root cs') /\ length cs' = 2%nat /\
    cs' !! 1%nat = Some wl /\
    out !! wl = Some (Element "div" (wrapperProperties "mermaid-5d2f3a8c") []) /\
    reach out 0%nat wl.
Proof.
  destruct (rehypeMermaidCLI_empty_themes Sample.md5_hex Sample.tmpdir
              Sample.path_join Sample.run Sample.fromHtml Sample.toText
              {| renderThemes := []; svgClassNames := None;
                 puppeteerConfig := None |}
              4 [] 0%nat [1%nat; 4%nat] Sample.doc_mixed Sample.world0
              eq_refl eq_refl doc_mixed_bounded)
    as (h1 & diagrams & out & Hvisit & Hrun & _ & Hrepl).
  vm_compute in Hvisit. injection Hvisit as <- <-.
  destruct (Hrepl 0%nat _ eq_refl)
    as (k0 & d0 & before & after & p & n & cs & i & wl & Hk0 & _ & _ & _ & Huniq
        & Hloc & _ & _ & Hwl & (cs' & Hp & Hlen & Hi) & Hreach).
  rewrite Huniq in Hk0
    by (intros [|k'] d' Hk' Hne; [contradiction | discriminate Hk']).
  injection Hk0 as <-.
  vm_compute in Hloc. injection Hloc as <- <- <- <-.
  exists out, cs', wl. split; [exact Hrun|]. split; [exact Hp|].
  split; [exact Hlen|]. split; [exact Hi|].
  split; [exact Hwl|]. apply Hreach. reflexivity.
Defined.
